(** * Royal Road site plugin (sites/royalroad.py): model and properties

    A shallow embedding of the Royal Road extraction plugin: the URL
    matcher, the story page parser, the chapter parser and the two content
    cleaners, together with the properties stated about them.

    Text is modelled as [string] (the ASCII range of Python's [str]); the
    character classes of the regular expressions and of [str.strip] are
    the ASCII part of Python's Unicode classes. *)

From Stdlib Require Import Bool Arith ZArith Lia List Ascii String.
Import ListNotations.
Open Scope string_scope.
Open Scope list_scope.

(* ================================================================== *)
(** ** Python results: exceptions and the state-and-exception monad *)

Inductive exn : Type :=
| AttributeError   (* attribute access on None *)
| KeyError         (* tag[...] on a missing attribute *)
| TypeError        (* re.match on None *)
| ValueError       (* insert_before / insert_after without a parent, int() *)
| FetchError.      (* raised by the fetching collaborator *)

Inductive outcome (A : Type) : Type :=
| Ok (a : A)
| Raise (e : exn).
Arguments Ok {A} a.
Arguments Raise {A} e.

(** A computation over a mutable state [S]: when an exception is raised the
    state keeps every mutation made before the raise. *)
Definition M (S A : Type) : Type := S -> outcome A * S.

Definition ret {S A} (a : A) : M S A := fun s => (Ok a, s).
Definition raise {S A} (e : exn) : M S A := fun s => (Raise e, s).
Definition bind {S A B} (m : M S A) (f : A -> M S B) : M S B :=
  fun s => match m s with
           | (Ok a, s') => f a s'
           | (Raise e, s') => (Raise e, s')
           end.
Definition get_state {S} : M S S := fun s => (Ok s, s).
Definition put_state {S} (s : S) : M S unit := fun _ => (Ok tt, s).
Definition modify {S} (f : S -> S) : M S unit := fun s => (Ok tt, f s).
Definition gets {S A} (f : S -> A) : M S A := fun s => (Ok (f s), s).

(** [x.attr] where [x] may be None. *)
Definition not_none {S A} (o : option A) : M S A :=
  match o with
  | Some a => ret a
  | None => raise AttributeError
  end.

Declare Scope py_scope.
Delimit Scope py_scope with py.
Notation "x <- m ;; k" := (bind m (fun x => k))
  (at level 61, m at next level, right associativity) : py_scope.
Notation "m ;;; k" := (bind m (fun _ => k))
  (at level 61, right associativity) : py_scope.

(** [for x in xs: body x] *)
Fixpoint for_each {S A} (xs : list A) (body : A -> M S unit) : M S unit :=
  match xs with
  | [] => ret tt
  | x :: xs' => bind (body x) (fun _ => for_each xs' body)
  end.

(* ================================================================== *)
(** ** Text *)

Definition in_range (lo hi : nat) (c : ascii) : bool :=
  (Nat.leb lo (nat_of_ascii c)) && (Nat.leb (nat_of_ascii c) hi).

(** [\d] *)
Definition is_digit (c : ascii) : bool := in_range 48 57 c.
(** [\w] *)
Definition is_word (c : ascii) : bool :=
  is_digit c || in_range 65 90 c || in_range 97 122 c || Ascii.eqb c "_".
(** [\s], also the characters removed by [str.strip()] *)
Definition is_space (c : ascii) : bool := in_range 9 13 c || in_range 28 32 c.
(** [.] *)
Definition not_newline (c : ascii) : bool := negb (Ascii.eqb c "010").
(** [[^}]] *)
Definition not_rbrace (c : ascii) : bool := negb (Ascii.eqb c "}").

Fixpoint all_chars (p : ascii -> bool) (s : string) : bool :=
  match s with
  | EmptyString => true
  | String c s' => p c && all_chars p s'
  end.

(** The first character of [s] is not in class [p] (or [s] is empty). *)
Definition stops (p : ascii -> bool) (s : string) : bool :=
  match s with
  | EmptyString => true
  | String c _ => negb (p c)
  end.

Fixpoint strip_prefix (p s : string) : option string :=
  match p with
  | EmptyString => Some s
  | String a p' =>
      match s with
      | String b s' => if Ascii.eqb a b then strip_prefix p' s' else None
      | EmptyString => None
      end
  end.

Fixpoint lstrip (s : string) : string :=
  match s with
  | EmptyString => EmptyString
  | String c s' => if is_space c then lstrip s' else s
  end.

Fixpoint rstrip (s : string) : string :=
  match s with
  | EmptyString => EmptyString
  | String c s' =>
      match rstrip s' with
      | EmptyString => if is_space c then EmptyString else String c EmptyString
      | r => String c r
      end
  end.

(** [s.strip()] *)
Definition strip (s : string) : string := rstrip (lstrip s).

(* ================================================================== *)
(** ** Regular expressions: the backtracking matcher of [re.match]

    Only the constructs the plugin's three patterns use.  Repetition is
    greedy and is over a character class; the matcher tries the longest
    repetition first and backtracks, as Python's engine does.  There is one
    capturing group in each pattern. *)

Inductive regex : Type :=
| RBol                          (* ^ *)
| RLit (l : string)             (* literal text *)
| RSet (p : ascii -> bool)      (* one character of a class *)
| RStar (p : ascii -> bool)     (* class*, greedy *)
| ROpt (r : regex)              (* r?, greedy *)
| RSeq (r1 r2 : regex)
| RGroup (r : regex).           (* ( r ), group 1 *)

Record match_obj : Type := { m_end : nat; group1 : option string }.

Definition cont : Type := nat -> string -> option string -> option match_obj.

Fixpoint star (p : ascii -> bool) (k : cont) (g : option string)
  (pos : nat) (s : string) : option match_obj :=
  match s with
  | String c s' =>
      if p c then
        match star p k g (S pos) s' with
        | Some m => Some m
        | None => k pos s g
        end
      else k pos s g
  | EmptyString => k pos s g
  end.

Fixpoint rmatch (r : regex) (pos : nat) (s : string) (g : option string)
  (k : cont) : option match_obj :=
  match r with
  | RBol => if Nat.eqb pos 0 then k pos s g else None
  | RLit l =>
      match strip_prefix l s with
      | Some s' => k (pos + String.length l) s' g
      | None => None
      end
  | RSet p =>
      match s with
      | String c s' => if p c then k (S pos) s' g else None
      | EmptyString => None
      end
  | RStar p => star p k g pos s
  | ROpt r' =>
      match rmatch r' pos s g k with
      | Some m => Some m
      | None => k pos s g
      end
  | RSeq r1 r2 => rmatch r1 pos s g (fun pos' s' g' => rmatch r2 pos' s' g' k)
  | RGroup r' =>
      rmatch r' pos s g
        (fun pos' s' _ => k pos' s' (Some (substring 0 (pos' - pos) s)))
  end.

(** [re.match(r, s)]: anchored at the start, not at the end. *)
Definition re_match (r : regex) (s : string) : option match_obj :=
  rmatch r 0 s None (fun pos _ g => Some {| m_end := pos; group1 := g |}).

Declare Scope re_scope.
Delimit Scope re_scope with re.
Notation "a ++ b" := (RSeq a b) (at level 60, right associativity) : re_scope.

(** [c+] *)
Definition RPlus (p : ascii -> bool) : regex := RSeq (RSet p) (RStar p).

(* ================================================================== *)
(** ** The site classes and the URL matcher *)

Inductive site_class : Type := RoyalRoad | RoyalRoadL.

Definition domain (cls : site_class) : string :=
  match cls with
  | RoyalRoad => "royalroad"
  | RoyalRoadL => "royalroadldl"
  end.

(** [https?://(?:www\.)?%s\.com/fiction/] *)
Definition fiction_prefix (dom : string) : regex :=
  (RLit "http" ++ ROpt (RLit "s") ++ RLit "://" ++ ROpt (RLit "www.")
   ++ RLit dom ++ RLit ".com/fiction/")%re.

(** [^(https?://(?:www\.)?%s\.com/fiction/\d+)/?.*] *)
Definition matches_pattern (dom : string) : regex :=
  (RBol ++ RGroup (fiction_prefix dom ++ RPlus is_digit)
   ++ ROpt (RLit "/") ++ RStar not_newline)%re.

(** [^https?://(?:www\.)?%s\.com/fiction/(\d+)/?.*] *)
Definition workid_pattern (dom : string) : regex :=
  (RBol ++ fiction_prefix dom ++ RGroup (RPlus is_digit)
   ++ ROpt (RLit "/") ++ RStar not_newline)%re.

(** [RoyalRoad.matches] *)
Definition matches (cls : site_class) (url : string) : option string :=
  match re_match (matches_pattern (domain cls)) url with
  | Some m =>
      match group1 m with
      | Some g => Some (g ++ "/")%string
      | None => None
      end
  | None => None
  end.

(* ================================================================== *)
(** ** The document tree (BeautifulSoup)

    A parsed page is a tree of tags and text.  Every tag carries an
    identity, as a Python object does: the plugin keeps references to
    elements (the result of [find_all]) while it mutates the tree, so the
    operations below address elements by identity.  [class] is the one
    multi-valued attribute the plugin reads; it is kept apart as a list.
    Comments and other special strings are not modelled. *)

Definition ref : Type := nat.

#[local] Set Warnings "-register-all".
Inductive node : Type :=
| Text (s : string)
| Tag (id : ref) (name : string) (class : option (list string))
      (attrs : list (string * string)) (children : list node).

(** The state of the objects of one page: the page itself and the elements
    that were taken out of it ([extract]) and still exist. *)
Definition dom : Type := list node.

Definition children (n : node) : list node :=
  match n with
  | Tag _ _ _ _ cs => cs
  | Text _ => []
  end.

Definition is_tag (n : node) : bool :=
  match n with
  | Tag _ _ _ _ _ => true
  | Text _ => false
  end.

Definition has_id (r : ref) (n : node) : bool :=
  match n with
  | Tag i _ _ _ _ => Nat.eqb i r
  | Text _ => false
  end.

Definition node_id (n : node) : ref :=
  match n with
  | Tag i _ _ _ _ => i
  | Text _ => 0
  end.

(** [tag.descendants]: document order. *)
Fixpoint descendants (n : node) : list node :=
  match n with
  | Text _ => []
  | Tag _ _ _ _ cs => flat_map (fun c => c :: descendants c) cs
  end.

Definition subtree (n : node) : list node := n :: descendants n.

Definition all_nodes (d : dom) : list node := flat_map subtree d.

(** The element a reference denotes; [None] once it was destroyed. *)
Definition get (d : dom) (r : ref) : option node :=
  find (has_id r) (all_nodes d).

(** [el.parent] *)
Definition parent_of (d : dom) (r : ref) : option ref :=
  option_map node_id
    (find (fun n => existsb (has_id r) (children n)) (all_nodes d)).

Fixpoint assoc (k : string) (l : list (string * string)) : option string :=
  match l with
  | [] => None
  | (k', v) :: l' => if String.eqb k' k then Some v else assoc k l'
  end.

Fixpoint set_assoc (k v : string) (l : list (string * string))
  : list (string * string) :=
  match l with
  | [] => [(k, v)]
  | (k', v') :: l' =>
      if String.eqb k' k then (k, v) :: l' else (k', v') :: set_assoc k v l'
  end.

(** [tag.get(k)] for an attribute other than [class]. *)
Definition attr (k : string) (n : node) : option string :=
  match n with
  | Tag _ _ _ a _ => assoc k a
  | Text _ => None
  end.

Definition classes (n : node) : option (list string) :=
  match n with
  | Tag _ _ c _ _ => c
  | Text _ => None
  end.

(** The filter [name] of [find] and [find_all]. *)
Definition named (nm : string) (n : node) : bool :=
  match n with
  | Tag _ m _ _ _ => String.eqb m nm
  | Text _ => false
  end.

(** The filter [class_=c]: one of the element's classes is [c]. *)
Definition has_class (c : string) (n : node) : bool :=
  match n with
  | Tag _ _ (Some cl) _ _ => existsb (String.eqb c) cl
  | _ => false
  end.

(** The filter [k=v] on an attribute. *)
Definition has_attr_value (k v : string) (n : node) : bool :=
  match attr k n with
  | Some v' => String.eqb v' v
  | None => false
  end.

(** The filter [k=True]: the attribute is present. *)
Definition has_attr (k : string) (n : node) : bool :=
  match attr k n with
  | Some _ => true
  | None => false
  end.

Definition both (p q : node -> bool) (n : node) : bool := p n && q n.
Definition either (p q : node -> bool) (n : node) : bool := p n || q n.

(** [el.find_all(...)] and [el.find(...)] on a tree. *)
Definition find_all_in (p : node -> bool) (n : node) : list node :=
  filter (both is_tag p) (descendants n).

Definition find_in (p : node -> bool) (n : node) : option node :=
  hd_error (find_all_in p n).

(** [tag.string] *)
Fixpoint string_of (n : node) : option string :=
  match n with
  | Text s => Some s
  | Tag _ _ _ _ cs =>
      match cs with
      | [c] => string_of c
      | _ => None
      end
  end.

Fixpoint texts (n : node) : list string :=
  match n with
  | Text s => [s]
  | Tag _ _ _ _ cs => flat_map texts cs
  end.

Definition nonempty (s : string) : bool :=
  match s with
  | EmptyString => false
  | String _ _ => true
  end.

(** [tag.get_text()] *)
Definition get_text (n : node) : string := String.concat "" (texts n).

(** [tag.get_text(strip=True)] *)
Definition get_text_strip (n : node) : string :=
  String.concat "" (filter nonempty (map strip (texts n))).

(** [soup.select] for a chain of simple selectors joined by the descendant
    combinator. *)
Fixpoint select_from (n : node) (chain : list (node -> bool)) : list node :=
  match n with
  | Text _ => []
  | Tag _ _ _ _ cs =>
      match chain with
      | [] => []
      | [s] =>
          (if s n then [n] else [])
            ++ flat_map (fun c => select_from c chain) cs
      | s :: rest =>
          flat_map (fun c => select_from c (if s n then rest else chain)) cs
      end
  end.

Definition select (chain : list (node -> bool)) (n : node) : list node :=
  flat_map (fun c => select_from c chain) (children n).

(** *** Mutation *)

(** The tree without the elements of identity [r] below its root. *)
Fixpoint prune (r : ref) (n : node) : node :=
  match n with
  | Text s => Text s
  | Tag i nm c a cs =>
      Tag i nm c a
        (flat_map (fun x => if has_id r x then [] else [prune r x]) cs)
  end.

(** The objects without element [r]: it is taken out wherever it is, at the
    top or below. *)
Definition without (r : ref) (d : dom) : dom :=
  flat_map (fun x => if has_id r x then [] else [prune r x]) d.

(** The tree with [before] and [after] placed around the child [r],
    wherever it is. *)
Fixpoint graft (r : ref) (before after : list node) (n : node) : node :=
  match n with
  | Text s => Text s
  | Tag i nm c a cs =>
      Tag i nm c a
        (flat_map (fun x => if has_id r x
                            then before ++ graft r before after x :: after
                            else [graft r before after x]) cs)
  end.

Fixpoint update_attrs (r : ref)
  (f : list (string * string) -> list (string * string)) (n : node) : node :=
  match n with
  | Text s => Text s
  | Tag i nm c a cs =>
      Tag i nm c (if Nat.eqb i r then f a else a) (map (update_attrs r f) cs)
  end.

Definition fresh (d : dom) : ref := S (list_max (map node_id (all_nodes d))).

(** The references [el.find_all(...)] returns; a destroyed element has no
    contents. *)
Definition refs_in (d : dom) (el : ref) (p : node -> bool) : list ref :=
  match get d el with
  | Some n => map node_id (find_all_in p n)
  | None => []
  end.

Definition first_in (d : dom) (el : ref) (p : node -> bool) : option ref :=
  hd_error (refs_in d el p).

(** [el.string] and [el.get_text(strip=True)] of a reference. *)
Definition string_ref (d : dom) (el : ref) : option string :=
  match get d el with
  | Some n => string_of n
  | None => None
  end.

Definition text_strip_ref (d : dom) (el : ref) : string :=
  match get d el with
  | Some n => get_text_strip n
  | None => ""
  end.

Section DomOps.
Open Scope py_scope.

(** [el.find_all(...)]: the references of the matching descendants. *)
Definition find_all (el : ref) (p : node -> bool) : M dom (list ref) :=
  gets (fun d => refs_in d el p).

(** [el.find(...)] *)
Definition find_first (el : ref) (p : node -> bool) : M dom (option ref) :=
  gets (fun d => first_in d el p).

(** [el.decompose()]: the element leaves the tree and is destroyed. *)
Definition decompose (el : ref) : M dom unit := modify (without el).

(** [el.extract()]: the element leaves its parent and lives on. *)
Definition extract_el (el : ref) : M dom unit :=
  modify (fun d => match parent_of d el, get d el with
                   | Some _, Some n => map (prune el) d ++ [n]
                   | _, _ => d
                   end).

(** [el.insert_before(new)] for a new element that is in no tree yet. *)
Definition insert_before (el : ref) (new : node) : M dom unit :=
  p <- gets (fun d => parent_of d el) ;;
  match p with
  | None => raise ValueError
  | Some _ => modify (map (graft el [new] []))
  end.

(** [el.insert_after(other)]: [other] is taken out of where it is and
    becomes the next sibling of [el]. *)
Definition insert_after (el other : ref) : M dom unit :=
  p <- gets (fun d => parent_of d el) ;;
  match p with
  | None => raise ValueError
  | Some _ =>
      if Nat.eqb other el then raise ValueError
      else
        o <- gets (fun d => get d other) ;;
        match o with
        | Some n => modify (fun d => map (graft el [] [n]) (without other d))
        | None => ret tt
        end
  end.

(** [el[k] = v] *)
Definition set_attr (el : ref) (k v : string) : M dom unit :=
  modify (map (update_attrs el (set_assoc k v))).

(** [el.string] *)
Definition string_at (el : ref) : M dom (option string) :=
  gets (fun d => string_ref d el).

(** [el.get_text(strip=True)] *)
Definition get_text_strip_at (el : ref) : M dom string :=
  gets (fun d => text_strip_ref d el).
End DomOps.

(* ================================================================== *)
(** ** The site object, the story and the world *)

(** The site-specific options, as the option framework hands them over:
    [offset] and [limit] are [None] when unset. *)
Record options : Type := {
  skip_spoilers : bool;
  offset : option Z;
  limit : option Z
}.

Record site : Type := { cls : site_class; opts : options }.

(** [o and index < o]; in Python [None] and [0] are false. *)
Definition before_offset (o : option Z) (index : nat) : bool :=
  match o with
  | Some z => negb (Z.eqb z 0) && Z.ltb (Z.of_nat index) z
  | None => false
  end.

(** [o and index >= o] *)
Definition beyond_limit (o : option Z) (index : nat) : bool :=
  match o with
  | Some z => negb (Z.eqb z 0) && Z.leb z (Z.of_nat index)
  | None => false
  end.

(** What the plugin mutates outside its own objects: the header limit of
    the HTTP library ([http.client._MAXHEADERS]) and the footnotes
    collected on the site object ([self.footnotes]). *)
Record world : Type := { MAXHEADERS : Z; footnotes : list string }.

Definition set_MAXHEADERS (z : Z) : M world unit :=
  modify (fun w => {| MAXHEADERS := z; footnotes := footnotes w |}).

Definition set_footnotes (f : list string) : M world unit :=
  modify (fun w => {| MAXHEADERS := MAXHEADERS w; footnotes := f |}).

(** [\s*\.(\w+)\s*{[^}]*display:\s*none;[^}]*}] *)
Definition hidden_pattern : regex :=
  (RStar is_space ++ RLit "." ++ RGroup (RPlus is_word) ++ RStar is_space
   ++ RLit "{" ++ RStar not_rbrace ++ RLit "display:" ++ RStar is_space
   ++ RLit "none;" ++ RStar not_rbrace ++ RLit "}")%re.

(** Modelled from the spec: the new-tag constructor [Site._new_tag] of the
    framework, "given a tag name and attributes, returns a new detached
    HTML element for insertion".  The new element has an identity no
    existing object has and is in no tree. *)
Definition _new_tag (name : string) (class_ : string) : M dom node :=
  gets (fun d => Tag (fresh d) name (Some [class_]) [] []).

(** [tag.string = s] on an element that is in no tree. *)
Definition with_string (s : string) (n : node) : node :=
  match n with
  | Tag i nm c a _ => Tag i nm c a [Text s]
  | Text _ => Text s
  end.

Definition spoiler_header_of (spoiler_title : string) : string :=
  ("[SPOILER - " ++ spoiler_title ++ "]")%string.

Section Plugin.
Open Scope py_scope.

(** The value of a publication timestamp ([datetime.datetime]). *)
Variable datetime : Type.

(** The collaborators of the framework and of the Python library. *)

(** [Site._soup]: fetch and parse a page; the HTTP library reads its
    header limit when it does. *)
Variable fetch : Z -> string -> outcome node.
(** [Site._join_url] *)
Variable _join_url : string -> string -> string.
(** The generic cleaner [Site._clean]: it receives the content element
    and returns the element to go on with. *)
Variable super_clean : ref -> M dom ref.
(** [str(tag)] *)
Variable str : node -> string.
(** [datetime.datetime.fromtimestamp(int(s))] *)
Variable fromtimestamp_int : string -> outcome datetime.

(** Modelled from the spec: the story ([Section] in the source) and its
    chapters ([Chapter]), declared by the framework: "title, author,
    canonical URL, cover image URL, summary, tags, ordered sequence of
    Chapters, footnotes". *)
Record Chapter : Type := {
  ch_title : string;
  ch_contents : string;
  ch_date : datetime
}.

Record Story : Type := {
  title : string;
  author : string;
  url : string;
  cover_url : string;
  summary : string;
  tags : list string;
  contents : list Chapter;
  story_footnotes : list string
}.

(** Modelled from the spec: [story.add(chapter)], "appended to Story in
    table order". *)
Definition add (story : Story) (c : Chapter) : Story :=
  {| title := title story; author := author story; url := url story;
     cover_url := cover_url story; summary := summary story;
     tags := tags story; contents := contents story ++ [c];
     story_footnotes := story_footnotes story |}.

(** Modelled from the spec: [len(story)], the "current chapter count". *)
Definition len (story : Story) : nat := List.length (contents story).

Definition with_footnotes (story : Story) (f : list string) : Story :=
  {| title := title story; author := author story; url := url story;
     cover_url := cover_url story; summary := summary story;
     tags := tags story; contents := contents story;
     story_footnotes := f |}.

Definition lift {S A} (o : outcome A) : M S A := fun s => (o, s).

Definition _soup (page_url : string) : M world node :=
  fun w => (fetch (MAXHEADERS w) page_url, w).

(** The objects of a page live as long as the call that fetched it. *)
Definition on_page {A} (soup : node) (m : M dom A) : M world A :=
  fun w => (fst (m [soup]), w).

(** [str(el)] of an element of the page. *)
Definition str_at (el : ref) : M dom string :=
  gets (fun d => match get d el with
                 | Some n => str n
                 | None => ""
                 end).

(** [str(x)] where [x] may be None. *)
Definition str_opt (o : option node) : string :=
  match o with
  | Some n => str n
  | None => "None"
  end.

(** *** [RoyalRoad._clean] *)

(** The body of the loop over the style blocks. *)
Definition clean_style (contents style : ref) : M dom unit :=
  s <- string_at style ;;
  match s with
  | None => raise TypeError
  | Some text =>
      match re_match hidden_pattern text with
      | Some m =>
          match group1 m with
          | Some c =>
              warnings <- find_all contents (has_class c) ;;
              for_each warnings decompose
          | None => ret tt  (* group 1 takes part in every match *)
          end
      | None => ret tt
      end
  end.

Definition _clean (contents full_page : ref) : M dom ref :=
  contents <- super_clean contents ;;
  styles <- find_all full_page (named "style") ;;
  for_each styles (clean_style contents) ;;;
  ret contents.

(** *** [RoyalRoad._clean_spoilers] *)

Definition smalltext : node -> bool :=
  both (named "div") (has_class "smalltext").
Definition spoilerContent : node -> bool :=
  both (named "div") (has_class "spoilerContent").
Definition spoiler_inner_block : node -> bool :=
  both (named "div") (has_class "spoiler-inner").

(** The first part of the loop body (lines 127-132): the label is read
    and the header element is built. *)
Definition make_spoiler_header (spoiler : ref) : M dom node :=
  label <- find_first spoiler smalltext ;;
  label <- not_none label ;;
  spoiler_title <- get_text_strip_at label ;;
  let spoiler_title := if nonempty spoiler_title then spoiler_title else " " in
  let spoiler_header := spoiler_header_of spoiler_title in
  spoiler_header_tag <- _new_tag "strong" "spoiler-header" ;;
  ret (with_string spoiler_header spoiler_header_tag).

(** The second part of the loop body (lines 134-149): the spoiler text
    is taken out of its wrapper, after the header. *)
Definition unwrap_spoiler (spoiler : ref) (spoiler_header_tag : node)
  : M dom unit :=
  spoiler_content <- find_first spoiler spoilerContent ;;
  match spoiler_content with
  | Some spoiler_content =>
      spoiler_inner <- find_first spoiler_content spoiler_inner_block ;;
      match spoiler_inner with
      | Some spoiler_inner =>
          insert_before spoiler spoiler_header_tag ;;;
          insert_after (node_id spoiler_header_tag) spoiler_inner ;;;
          set_attr spoiler_inner "style" "" ;;;
          to_remove <- find_all spoiler (either (named "div") (named "input")) ;;
          for_each to_remove extract_el ;;;
          extract_el spoiler
      | None => ret tt
      end
  | None => ret tt
  end.

(** The body of the loop over the spoilers. *)
Definition clean_spoiler (spoiler : ref) : M dom unit :=
  spoiler_header_tag <- make_spoiler_header spoiler ;;
  unwrap_spoiler spoiler spoiler_header_tag.

Definition _clean_spoilers (content : ref) (chapterid : nat) : M dom unit :=
  spoilers <- find_all content (has_class "spoiler") ;;
  for_each spoilers clean_spoiler.

(** *** [RoyalRoad._chapter] *)

Definition chapter_content : node -> bool :=
  both (named "div") (has_class "chapter-content").

(** [x['class']] on the result of a [find]. *)
Definition class_at (el : option ref) : M dom (list string) :=
  match el with
  | None => raise TypeError
  | Some r =>
      c <- gets (fun d => match get d r with
                          | Some n => classes n
                          | None => None
                          end) ;;
      match c with
      | Some l => ret l
      | None => raise KeyError
      end
  end.

Definition attr_at (el : ref) (k : string) : M dom (option string) :=
  gets (fun d => match get d el with
                 | Some n => attr k n
                 | None => None
                 end).

Definition author_note : node -> bool :=
  both (named "div") (has_class "author-note-portlet").

(** Lines 94-103: the author's notes are put around the content. *)
Definition add_author_notes (soup : ref) (content_str : string)
  : M dom string :=
  author_note <- find_all soup author_note ;;
  match author_note with
  | [note] =>
      (* Find the parent of chapter-content and check if the author's
         note is the first child div *)
      c <- find_first soup chapter_content ;;
      c <- not_none c ;;
      p <- gets (fun d => parent_of d c) ;;
      p <- not_none p ;;
      first_div <- find_first p (named "div") ;;
      first_class <- class_at first_div ;;
      note_str <- str_at note ;;
      if existsb (String.eqb "author-note-portlet") first_class
      then ret (note_str ++ "<hr/>" ++ content_str)%string
      else (* The author note must be after the chapter content *)
        ret (content_str ++ "<hr/>" ++ note_str)%string
  | [note0; note1] =>
      s0 <- str_at note0 ;;
      s1 <- str_at note1 ;;
      ret (s0 ++ "<hr/>" ++ content_str ++ "<hr/>" ++ s1)%string
  | _ => ret content_str
  end.

(** Lines 105-107: the publication time. *)
Definition publication_time (soup : ref) : M dom datetime :=
  info <- find_first soup (has_class "profile-info") ;;
  info <- not_none info ;;
  time <- find_first info (named "time") ;;
  time <- not_none time ;;
  unixtime <- attr_at time "unixtime" ;;
  match unixtime with
  | Some s => lift (fromtimestamp_int s)
  | None => raise TypeError
  end.

(** What [_chapter] does with the page it fetched. *)
Definition parse_chapter (soup : ref) (chapterid : nat)
  : M dom (string * datetime) :=
  content <- find_first soup chapter_content ;;
  (* a missing content block is None; its first use raises *)
  content <- not_none content ;;
  _ <- _clean content soup ;;
  _clean_spoilers content chapterid ;;;
  content_str <- str_at content ;;
  content_str <- add_author_notes soup content_str ;;
  updated <- publication_time soup ;;
  ret (content_str, updated).

Definition _chapter (self : site) (page_url : string) (chapterid : nat)
  : M world (string * datetime) :=
  soup <- _soup page_url ;;
  on_page soup (parse_chapter (node_id soup) chapterid).

(** *** [RoyalRoad.extract] *)

(** [#chapters tbody tr[data-url]] *)
Definition chapter_rows (soup : node) : list node :=
  select [has_attr_value "id" "chapters"; named "tbody";
          both (named "tr") (has_attr "data-url")] soup.

(** [x['src']] on the result of a [find]. *)
Definition item {S} (o : option node) (k : string) : M S string :=
  match o with
  | None => raise TypeError
  | Some n =>
      match attr k n with
      | Some v => ret v
      | None => raise KeyError
      end
  end.

(** [str(chapter.get('data-url'))] *)
Definition data_url (chapter : node) : string :=
  match attr "data-url" chapter with
  | Some v => v
  | None => "None"
  end.

(** The loop over the enumerated chapter rows; [story] is the story
    built so far. *)
Fixpoint chapter_loop (self : site) (story : Story)
  (rows : list (nat * node)) : M world Story :=
  match rows with
  | [] => ret story
  | (index, chapter) :: rest =>
      if before_offset (offset (opts self)) index then
        chapter_loop self story rest
      else if beyond_limit (limit (opts self)) index then
        chapter_loop self story rest
      else
        let chapter_url := _join_url (url story) (data_url chapter) in
        r <- _chapter self chapter_url (len story + 1) ;;
        let '(contents, updated) := r in
        a <- not_none (find_in (both (named "a") (has_attr "href")) chapter) ;;
        t <- not_none (string_of a) ;;
        chapter_loop self
          (add story {| ch_title := strip t; ch_contents := contents;
                        ch_date := updated |}) rest
  end.

(** [enumerate(rows)] *)
Definition enumerate {A} (l : list A) : list (nat * A) :=
  combine (seq 0 (List.length l)) l.

(** Lines 57-64: the story and its metadata, with no chapter yet. *)
Definition new_story (base : string) (soup : node) : M world Story :=
  h1 <- not_none (find_in (named "h1") soup) ;;
  title_ <- not_none (string_of h1) ;;
  meta_author <-
    not_none (find_in (both (named "meta")
                            (has_attr_value "property" "books:author")) soup) ;;
  author_ <- not_none (attr "content" meta_author) ;;
  meta_url <-
    not_none (find_in (both (named "meta")
                            (has_attr_value "property" "og:url")) soup) ;;
  url_ <- not_none (attr "content" meta_url) ;;
  src <- item (find_in (both (named "img") (has_class "thumbnail")) soup)
           "src" ;;
  ret {| title := strip title_;
         author := strip author_;
         url := strip url_;
         cover_url := _join_url base src;
         summary :=
           strip (str_opt (find_in (both (named "div")
                                         (has_class "description")) soup));
         tags :=
           map (fun tag => strip (get_text tag))
             (select [both (named "span") (has_class "tags");
                      both (named "a") (has_class "fiction-tag")] soup);
         contents := [];
         story_footnotes := [] |}.

(** [soup.head.base and soup.head.base.get('href') or url] *)
Definition base_of (page_url : string) (head : node) : string :=
  match find_in (named "base") head with
  | Some b =>
      match attr "href" b with
      | Some h => if nonempty h then h else page_url
      | None => page_url
      end
  | None => page_url
  end.

Definition extract (self : site) (page_url : string) : M world Story :=
  m <- not_none (re_match (workid_pattern (domain (cls self))) page_url) ;;
  workid <- not_none (group1 m) ;;
  soup <- _soup ("https://www." ++ domain (cls self) ++ ".com/fiction/"
                 ++ workid)%string ;;
  (* should have gotten redirected, for a valid title *)
  head <- not_none (find_in (named "head") soup) ;;
  let base := base_of page_url head in
  original_maxheaders <- gets MAXHEADERS ;;
  set_MAXHEADERS 1000 ;;;
  story <- new_story base soup ;;
  story <- chapter_loop self story (enumerate (chapter_rows soup)) ;;
  set_MAXHEADERS original_maxheaders ;;;
  notes <- gets footnotes ;;
  set_footnotes [] ;;;
  ret (with_footnotes story notes).

End Plugin.

(* ================================================================== *)
(** * Notions used in the statements *)

(** The longest prefix in a class, and what follows it. *)
Fixpoint take_class (p : ascii -> bool) (s : string) : string :=
  match s with
  | String c s' => if p c then String c (take_class p s') else EmptyString
  | EmptyString => EmptyString
  end.

Fixpoint drop_class (p : ascii -> bool) (s : string) : string :=
  match s with
  | String c s' => if p c then drop_class p s' else s
  | EmptyString => EmptyString
  end.

(** A continuation that accepts whatever is left. *)
Definition total (k : cont) : Prop := forall pos s g, k pos s g <> None.

(** The story URLs of a site: [scheme://[www.]domain.com/fiction/ident]. *)
Definition story_url (cls : site_class) (scheme www ident : string) : string :=
  (scheme ++ "://" ++ www ++ domain cls ++ ".com/fiction/" ++ ident)%string.

Definition is_scheme (s : string) : Prop := s = "http" \/ s = "https".
Definition is_www (w : string) : Prop := w = "" \/ w = "www.".
Definition is_ident (i : string) : Prop :=
  i <> "" /\ all_chars is_digit i = true.

(** The index range of the options as the plugin reads them:
    [offset, limit), where an unset offset is 0 and an unset limit, and
    also a limit of 0, is no bound. *)
Definition in_option_range (o : options) (index : nat) : bool :=
  Z.leb (match offset o with Some z => z | None => 0%Z end) (Z.of_nat index)
  && match limit o with
     | Some z => Z.eqb z 0 || Z.ltb (Z.of_nat index) z
     | None => true
     end.

(** The rows of a table whose zero-based index is in the range. *)
Definition rows_in_range {A} (o : options) (rows : list A) : list A :=
  map snd (filter (fun ir => in_option_range o (fst ir)) (enumerate rows)).

Section StoryNotions.
Variable datetime : Type.
Variable fetch : Z -> string -> outcome node.
Variable _join_url : string -> string -> string.
Variable super_clean : ref -> M dom ref.
Variable str : node -> string.
Variable fromtimestamp_int : string -> outcome datetime.

Local Abbreviation Chapter := (Chapter datetime).
Local Abbreviation Story := (Story datetime).
Local Abbreviation _chapter :=
  (_chapter datetime fetch super_clean str fromtimestamp_int).

(** The chapter made from a table row, when it is fetched as the [k]-th
    chapter of the story at [story_url]. *)
Definition chapter_of_row (self : site) (story_url : string) (w : world)
  (k : nat) (row : node) (c : Chapter) : Prop :=
  exists a t,
    find_in (both (named "a") (has_attr "href")) row = Some a
    /\ string_of a = Some t
    /\ ch_title _ c = strip t
    /\ _chapter self (_join_url story_url (data_url row)) k w
       = (Ok (ch_contents _ c, ch_date _ c), w).

(** One chapter for each row, in the order of the rows; [k] chapters
    come before them. *)
Fixpoint chapters_of_rows (self : site) (story_url : string) (w : world)
  (k : nat) (rows : list node) (cs : list Chapter) : Prop :=
  match rows, cs with
  | [], [] => True
  | row :: rows', c :: cs' =>
      chapter_of_row self story_url w (S k) row c
      /\ chapters_of_rows self story_url w (S k) rows' cs'
  | _, _ => False
  end.

(** The story with more chapters added at its end. *)
Definition with_chapters (story : Story) (cs : list Chapter) : Story :=
  fold_left (add datetime) cs story.

(** The landing page has what [extract] reads from it. *)
Definition has_metadata (base : string) (soup : node) (story : Story) : Prop :=
  exists h1 t meta_author a meta_url u img src,
    find_in (named "h1") soup = Some h1 /\ string_of h1 = Some t
    /\ find_in (both (named "meta")
                  (has_attr_value "property" "books:author")) soup
       = Some meta_author
    /\ attr "content" meta_author = Some a
    /\ find_in (both (named "meta") (has_attr_value "property" "og:url")) soup
       = Some meta_url
    /\ attr "content" meta_url = Some u
    /\ find_in (both (named "img") (has_class "thumbnail")) soup = Some img
    /\ attr "src" img = Some src
    /\ title datetime story = strip t /\ author datetime story = strip a
    /\ url datetime story = strip u /\ cover_url datetime story = _join_url base src
    /\ tags datetime story
       = map (fun tag => strip (get_text tag))
           (select [both (named "span") (has_class "tags");
                    both (named "a") (has_class "fiction-tag")] soup).
End StoryNotions.

(** The identities of the tags of a list of nodes. *)
Definition tag_ids (l : list node) : list ref := map node_id (filter is_tag l).

(** The identities of the objects of a page are distinct, as those of
    Python objects are. *)
Definition distinct_ids (d : dom) : Prop := NoDup (tag_ids (all_nodes d)).

Fixpoint size (n : node) : nat :=
  match n with
  | Text _ => 1
  | Tag _ _ _ _ cs => S (list_sum (map size cs))
  end.

(** Element [c] is not element [r] and lies in no element [r]. *)
Definition outside (d : dom) (r c : ref) : Prop :=
  r <> c
  /\ forall m, In m (all_nodes d) -> has_id r m = true ->
               find (has_id c) (subtree m) = None.

(** The content block holds no element of class [k]. *)
Definition free_of_class (k : string) (d : dom) (contents : ref) : Prop :=
  exists n, get d contents = Some n /\ find_all_in (has_class k) n = [].

(** Every node left was there before. *)
Definition comes_from (r : ref) (ts : list node) : Prop :=
  forall x', In x' (all_nodes (without r ts)) ->
             exists x, In x (all_nodes ts) /\ x' = prune r x
                       /\ has_id r x = false.

(** Looking an element up after another one was taken out. *)
Definition lookup_commutes (r c : ref) (ts : list node) : Prop :=
  (forall m, In m (all_nodes ts) -> has_id r m = true ->
             find (has_id c) (subtree m) = None) ->
  find (has_id c) (all_nodes (without r ts))
  = option_map (prune r) (find (has_id c) (all_nodes ts)).

(** Several elements taken out, one after the other. *)
Definition pruned (l : list ref) (n : node) : node :=
  fold_left (fun n r => prune r n) l n.

Definition without_all (l : list ref) (d : dom) : dom :=
  fold_left (fun d r => without r d) l d.

(** A header as the spoiler normalizer makes them: a [strong] element of
    class [spoiler-header] that holds one string. *)
Definition is_header (x : node) : Prop :=
  named "strong" x = true /\ classes x = Some ["spoiler-header"]
  /\ exists s, children x = [Text s].

(** What a change of the tree keeps of each element: that it is a tag, its
    identity, its name and its classes; and an element that holds one
    string still does. *)
Definition keeps_labels (f : node -> node) : Prop :=
  forall x,
    is_tag (f x) = is_tag x /\ node_id (f x) = node_id x
    /\ classes (f x) = classes x
    /\ (forall nm, named nm (f x) = named nm x)
    /\ (forall s, children x = [Text s] -> children (f x) = [Text s]).

(** The nodes below an element after a change were below it before, or
    are among the nodes [ins] that were put in. *)
Definition sound_below (f : node -> node) (ins : list node) : Prop :=
  forall x y', In y' (descendants (f x)) ->
    (exists y, In y (descendants x) /\ y' = f y) \/ In y' ins.

Section KeptApart.
Variables (G : list ref) (contents : ref) (k : string).

(** An element of the content block, or a header. *)
Definition good (x : node) : Prop :=
  is_tag x = true -> In (node_id x) G \/ is_header x.

Definition ok_node (m : node) : Prop :=
  (is_tag m = true -> In (node_id m) G ->
   forall x, In x (subtree m) -> good x)
  /\ (has_id contents m = true -> named "strong" m = false)
  /\ (is_tag m = true -> In (node_id m) G -> has_class k m = true ->
      is_header m).

(** The invariant of the spoiler normalizer, for the elements [G] that
    were in the content block when it started: what is below such an
    element is such an element or a header, none of them is of class [k]
    unless it is a header, and so it is below the content block. *)
Definition kept_apart (d : dom) : Prop :=
  (forall m, In m (all_nodes d) -> ok_node m)
  /\ exists n, get d contents = Some n
               /\ forall x, In x (descendants n) -> good x.
End KeptApart.

(** Taking [r] out of a list of trees keeps their identities distinct. *)
Definition keeps_distinct (r : ref) (ts : list node) : Prop :=
  NoDup (tag_ids (all_nodes ts)) ->
  NoDup (tag_ids (all_nodes (without r ts))).


(** A pattern with no capturing group. *)
Fixpoint groupless (r : regex) : bool :=
  match r with
  | RGroup _ => false
  | ROpt r' => groupless r'
  | RSeq r1 r2 => groupless r1 && groupless r2
  | _ => true
  end.

(** The text of a style block that starts with a rule hiding class [k]:
    [.k { ... display: none; ... }], with optional blanks at [ws1], [ws2]
    and [ws3], other declarations at [b1] and [b2], and anything after
    the rule. *)
Definition hidden_rule (ws1 k ws2 b1 ws3 b2 rest : string) : string :=
  (ws1 ++ "." ++ k ++ ws2 ++ "{" ++ b1 ++ "display:" ++ ws3 ++ "none;"
   ++ b2 ++ "}" ++ rest)%string.

(** *** Places in the tree *)

(** The tree with each element [r] below its root replaced by the nodes
    [new]. *)
Fixpoint replace (r : ref) (new : list node) (n : node) : node :=
  match n with
  | Text s => Text s
  | Tag i nm c a cs =>
      Tag i nm c a
        (flat_map (fun x => if has_id r x then new else [replace r new x]) cs)
  end.

(** The element with attribute [k] set to [v]. *)
Definition with_attr (k v : string) (n : node) : node :=
  match n with
  | Tag i nm c a cs => Tag i nm c (set_assoc k v a) cs
  | Text s => Text s
  end.

(** One step of the path from an element up to the root: the element
    passed, with its children to the left and to the right of the path. *)
Record frame : Type := {
  f_id : ref;
  f_name : string;
  f_class : option (list string);
  f_attrs : list (string * string);
  f_left : list node;
  f_right : list node
}.

Definition wrap (fr : frame) (ns : list node) : node :=
  Tag (f_id fr) (f_name fr) (f_class fr) (f_attrs fr)
    (f_left fr ++ ns ++ f_right fr).

(** The tree around a place, innermost step first, with the nodes [ns]
    put at that place. *)
Fixpoint plug (ctx : list frame) (ns : list node) : list node :=
  match ctx with
  | [] => ns
  | fr :: ctx' => plug ctx' [wrap fr ns]
  end.

(** No element of the nodes [ns] is [r]. *)
Definition absent (r : ref) (ns : list node) : Prop :=
  ~ In r (tag_ids (all_nodes ns)).

(** No element around the place is [r]. *)
Definition apart (r : ref) (ctx : list frame) : Prop :=
  Forall (fun fr => f_id fr <> r
                    /\ absent r (f_left fr) /\ absent r (f_right fr)) ctx.

(** [graft] on a list of siblings. *)
Definition graft_all (r : ref) (before after : list node) (ns : list node)
  : list node :=
  flat_map (fun x => if has_id r x
                     then before ++ graft r before after x :: after
                     else [graft r before after x]) ns.

(** *** Several spoilers *)

(** A spoiler: its element, the text of its header and its spoiler
    text. *)
Record spoiler_parts : Type := {
  sp_id : ref;
  sp_title : string;
  sp_inner : node
}.

Definition spoiler_header (h : ref) (title : string) : node :=
  Tag h "strong" (Some ["spoiler-header"]) []
    [Text (spoiler_header_of title)].

(** The spoiler of the page has its label, whose text (a single space
    when it is empty) is [sp_title], its spoiler-content block and the
    spoiler-inner block [sp_inner] in it. *)
Definition spoiler_at (page : node) (sp : spoiler_parts) : Prop :=
  exists label block inner,
    first_in [page] (sp_id sp) smalltext = Some label
    /\ sp_title sp = (if nonempty (text_strip_ref [page] label)
                      then text_strip_ref [page] label else " ")
    /\ first_in [page] (sp_id sp) spoilerContent = Some block
    /\ first_in [page] block spoiler_inner_block = Some inner
    /\ get [page] inner = Some (sp_inner sp).

(** None of the elements is below another one of them. *)
Definition side_by_side (page : node) (ids : list ref) : Prop :=
  forall a b W, In a ids -> In b ids -> get [page] a = Some W ->
                ~ In b (tag_ids (descendants W)).

(** The page with the spoilers replaced one after the other, each by a
    new header and its spoiler text with the style cleared. *)
Inductive unwrapped : node -> list spoiler_parts -> node -> Prop :=
| unwrapped_nil page : unwrapped page [] page
| unwrapped_cons page sp rest h page' :
    absent h [page] ->
    unwrapped
      (replace (sp_id sp)
         [spoiler_header h (sp_title sp); with_attr "style" "" (sp_inner sp)]
         page) rest page' ->
    unwrapped page (sp :: rest) page'.

(* ================================================================== *)
(** * Concrete collaborators and pages

    Stand-ins for the framework, used to run the plugin on explicit pages:
    a fetcher that serves a fixed set of pages, a generic cleaner with
    nothing to strip, a serializer, and timestamps kept as seconds. *)

Module Demo.

Definition quote : string := String (ascii_of_nat 34) "".

Definition render_attr (kv : string * string) : string :=
  (" " ++ fst kv ++ "=" ++ quote ++ snd kv ++ quote)%string.

Fixpoint render (n : node) : string :=
  match n with
  | Text s => s
  | Tag _ nm c a cs =>
      ("<" ++ nm
       ++ match c with
          | Some l => " class=" ++ quote ++ String.concat " " l ++ quote
          | None => ""
          end
       ++ String.concat "" (map render_attr a)
       ++ ">" ++ String.concat "" (map render cs) ++ "</" ++ nm ++ ">")%string
  end.

Fixpoint digits_value (acc : Z) (s : string) : option Z :=
  match s with
  | EmptyString => Some acc
  | String c s' =>
      if is_digit c
      then digits_value (10 * acc + Z.of_nat (nat_of_ascii c - 48)) s'
      else None
  end.

Definition fromtimestamp_int (s : string) : outcome Z :=
  match s with
  | EmptyString => Raise ValueError
  | _ => match digits_value 0 s with
         | Some z => Ok z
         | None => Raise ValueError
         end
  end.

(** Chapter references on the example pages are absolute. *)
Definition join_url (base rel : string) : string := rel.

(** A generic cleaner that finds nothing to strip and works in place. *)
Definition super_clean (contents : ref) : M dom ref := ret contents.

(** A generic cleaner that works on a copy: the copy is a tree of new
    objects, and it is the copy that is returned. *)
Fixpoint relabel (shift : nat) (n : node) : node :=
  match n with
  | Text s => Text s
  | Tag i nm c a cs => Tag (shift + i) nm c a (map (relabel shift) cs)
  end.

Definition copying_clean (contents : ref) : M dom ref :=
  fun d => match get d contents with
           | Some n => (Ok (fresh d + contents), d ++ [relabel (fresh d) n])
           | None => (Raise AttributeError, d)
           end.

Definition document (cs : list node) : node := Tag 0 "[document]" None [] cs.

Definition profile_info (id : ref) (unixtime : string) : node :=
  Tag id "div" (Some ["profile-info"]) []
    [Tag (S id) "time" None [("unixtime", unixtime)] []].

(** A chapter whose content holds one spoiler, labelled Hint. *)
Definition spoiler_block : node :=
  Tag 8 "div" (Some ["spoiler"]) []
    [Tag 9 "div" (Some ["smalltext"]) []
       [Text " Hint "; Tag 10 "input" None [("type", "button")] []];
     Tag 11 "div" (Some ["spoilerContent"]) []
       [Tag 12 "div" (Some ["spoiler-inner"]) [("style", "display: none;")]
          [Text "the answer is 42"]]].

Definition spoiler_page : node :=
  document
    [Tag 1 "html" None []
       [Tag 2 "head" None [] [];
        Tag 4 "body" None []
          [Tag 5 "div" (Some ["chapter-content"]) []
             [Tag 7 "p" None [] [Text "hello"]; spoiler_block];
           profile_info 13 "12"]]].

(** What the spoiler normalizer makes of the content of [spoiler_page]. *)
Definition spoiler_page_normalized : node :=
  Tag 5 "div" (Some ["chapter-content"]) []
    [Tag 7 "p" None [] [Text "hello"];
     Tag 15 "strong" (Some ["spoiler-header"]) [] [Text "[SPOILER - Hint]"];
     Tag 12 "div" (Some ["spoiler-inner"]) [("style", "")]
       [Text "the answer is 42"]].

(** A chapter with a hidden notice; the style rule is the one of the
    specification's example, with no semicolon. *)
Definition hidden_content : node :=
  Tag 5 "div" (Some ["chapter-content"]) []
    [Tag 6 "p" (Some ["foo"]) [] [Text "stolen"];
     Tag 7 "p" None [] [Text "hello"]].

Definition hidden_page (rule : string) : node :=
  document
    [Tag 1 "html" None []
       [Tag 2 "head" None [] [Tag 3 "style" None [] [Text rule]];
        Tag 4 "body" None [] [hidden_content; profile_info 13 "12"]]].

(** Spoilers with no label: one with its text blocks, one bare. *)
Definition unlabelled_spoiler : node :=
  Tag 8 "div" (Some ["spoiler"]) []
    [Tag 11 "div" (Some ["spoilerContent"]) []
       [Tag 12 "div" (Some ["spoiler-inner"]) [] [Text "the answer is 42"]]].

Definition bare_spoiler : node := Tag 8 "div" (Some ["spoiler"]) [] [].

(** Spoilers with a label: an empty one, and one with no text blocks. *)
Definition blank_label_spoiler : node :=
  Tag 8 "div" (Some ["spoiler"]) []
    [Tag 9 "div" (Some ["smalltext"]) [] [Text "  "];
     Tag 11 "div" (Some ["spoilerContent"]) []
       [Tag 12 "div" (Some ["spoiler-inner"]) [] [Text "the answer is 42"]]].

Definition hollow_spoiler : node :=
  Tag 8 "div" (Some ["spoiler"]) []
    [Tag 9 "div" (Some ["smalltext"]) [] [Text "Hint"];
     Tag 11 "div" (Some ["spoilerContent"]) [] [Text "no inner block"]].

Definition content_with (n : node) : dom :=
  [document [Tag 5 "div" (Some ["chapter-content"]) [] [n]]].

(** Chapters with two author's notes.  On the first page both are
    outside the content; on the second the first note is inside it and
    is of a class that a style rule hides. *)
Definition note (id : ref) (cl : list string) (s : string) : node :=
  Tag id "div" (Some ("author-note-portlet" :: cl)) [] [Text s].

Definition two_notes_page : node :=
  document
    [Tag 1 "html" None []
       [Tag 2 "head" None [] [];
        Tag 4 "body" None []
          [note 20 [] "before";
           Tag 5 "div" (Some ["chapter-content"]) []
             [Tag 7 "p" None [] [Text "hello"]];
           note 21 [] "after";
           profile_info 13 "12"]]].

Definition hidden_note_page : node :=
  document
    [Tag 1 "html" None []
       [Tag 2 "head" None []
          [Tag 3 "style" None [] [Text ".x{display:none;}"]];
        Tag 4 "body" None []
          [Tag 5 "div" (Some ["chapter-content"]) []
             [note 20 ["x"] "inside"; Tag 7 "p" None [] [Text "hello"]];
           note 21 [] "after";
           profile_info 13 "12"]]].

(** A story page with three chapters. *)
Definition row (id : ref) (data_url title_ : string) : node :=
  Tag id "tr" None [("data-url", data_url)]
    [Tag (S id) "td" None []
       [Tag (S (S id)) "a" None [("href", data_url)] [Text title_]]].

Definition plain_chapter (s : string) : node :=
  document
    [Tag 1 "html" None []
       [Tag 2 "head" None [] [];
        Tag 4 "body" None []
          [Tag 5 "div" (Some ["chapter-content"]) [] [Text s];
           profile_info 13 "12"]]].

Definition story_page (heading rows : list node) : node :=
  document
    [Tag 1 "html" None []
       [Tag 2 "head" None []
          [Tag 3 "meta" None
             [("property", "books:author"); ("content", "An Author")] [];
           Tag 4 "meta" None
             [("property", "og:url");
              ("content", "https://www.royalroad.com/fiction/1/a-story")] []];
        Tag 5 "body" None []
          (heading ++
           [Tag 7 "img" (Some ["thumbnail"]) [("src", "/cover.jpg")] [];
            Tag 8 "div" (Some ["description"]) [] [Text "A summary."];
            Tag 9 "span" (Some ["tags"]) []
              [Tag 10 "a" (Some ["fiction-tag"]) [] [Text " Fantasy "]];
            Tag 11 "table" None [("id", "chapters")]
              [Tag 12 "tbody" None [] rows]])]].

Definition three_rows : list node :=
  [row 20 "/c/0" "Chapter Zero";
   row 30 "/c/1" "Chapter One";
   row 40 "/c/2" "Chapter Two"].

Definition heading : list node := [Tag 6 "h1" None [] [Text " A Story "]].

(** The pages the example fetcher serves; a story page with no heading
    is at fiction 2, and fiction 3 lists a chapter that cannot be
    fetched. *)
Definition fetch (maxheaders : Z) (page_url : string) : outcome node :=
  if String.eqb page_url "https://www.royalroad.com/fiction/1"
  then Ok (story_page heading three_rows)
  else if String.eqb page_url "https://www.royalroad.com/fiction/2"
  then Ok (story_page [] three_rows)
  else if String.eqb page_url "https://www.royalroad.com/fiction/3"
  then Ok (story_page heading [row 20 "/c/0" "Chapter Zero";
                               row 30 "/c/gone" "Chapter One"])
  else if String.eqb page_url "/c/0" then Ok (plain_chapter "zero")
  else if String.eqb page_url "/c/1" then Ok (plain_chapter "one")
  else if String.eqb page_url "/c/2" then Ok (plain_chapter "two")
  else if String.eqb page_url "/spoiler" then Ok spoiler_page
  else if String.eqb page_url "/hidden"
  then Ok (hidden_page ".foo{display:none}")
  else if String.eqb page_url "/hidden-semicolon"
  then Ok (hidden_page ".foo{display:none;}")
  else if String.eqb page_url "/two-notes" then Ok two_notes_page
  else if String.eqb page_url "/hidden-note" then Ok hidden_note_page
  else Raise FetchError.

Definition _chapter : site -> string -> nat -> M world (string * Z) :=
  _chapter Z fetch super_clean render fromtimestamp_int.

Definition _clean : ref -> ref -> M dom ref := _clean super_clean.

Definition extract : site -> string -> M world (Story Z) :=
  extract Z fetch join_url super_clean render fromtimestamp_int.

Definition site_with (skip : bool) (off lim : option Z) : site :=
  {| cls := RoyalRoad;
     opts := {| skip_spoilers := skip; offset := off; limit := lim |} |}.

Definition world0 : world := {| MAXHEADERS := 100; footnotes := [] |}.

(** *** More pages *)

(** A story page with no description block, no tag and one chapter. *)
Definition short_story_page : node :=
  document
    [Tag 1 "html" None []
       [Tag 2 "head" None []
          [Tag 3 "meta" None
             [("property", "books:author"); ("content", "An Author")] [];
           Tag 4 "meta" None
             [("property", "og:url");
              ("content", "https://www.royalroad.com/fiction/4/short")] []];
        Tag 5 "body" None []
          [Tag 6 "h1" None [] [Text "Short"];
           Tag 7 "img" (Some ["thumbnail"]) [("src", "/cover.jpg")] [];
           Tag 11 "table" None [("id", "chapters")]
             [Tag 12 "tbody" None [] [row 20 "/c/0" "Chapter Zero"]]]]].

(** Chapters with one author's note, before and after the content, and
    with three. *)
Definition noted_chapter (before after : list node) : node :=
  document
    [Tag 1 "html" None []
       [Tag 2 "head" None [] [];
        Tag 4 "body" None []
          (before
           ++ [Tag 5 "div" (Some ["chapter-content"]) []
                 [Tag 7 "p" None [] [Text "hello"]]]
           ++ after ++ [profile_info 13 "12"])]].

(** A chapter with two style blocks: a rule that hides class [x], and
    an empty block. *)
Definition two_styles_page : node :=
  document
    [Tag 1 "html" None []
       [Tag 2 "head" None []
          [Tag 3 "style" None [] [Text ".x{display:none;}"];
           Tag 30 "style" None [] []];
        Tag 4 "body" None []
          [Tag 5 "div" (Some ["chapter-content"]) []
             [Tag 6 "p" (Some ["x"]) [] [Text "stolen"];
              Tag 7 "p" None [] [Text "hello"]];
           profile_info 13 "12"]]].

(** A chapter with two spoilers side by side, the second with an empty
    label. *)
Definition spoiler_el (id : ref) (label text : string) : node :=
  Tag id "div" (Some ["spoiler"]) []
    [Tag (id + 1) "div" (Some ["smalltext"]) [] [Text label];
     Tag (id + 2) "div" (Some ["spoilerContent"]) []
       [Tag (id + 3) "div" (Some ["spoiler-inner"])
          [("style", "display: none;")] [Text text]]].

Definition two_spoilers_page : node :=
  document
    [Tag 1 "html" None []
       [Tag 2 "head" None [] [];
        Tag 4 "body" None []
          [Tag 5 "div" (Some ["chapter-content"]) []
             [spoiler_el 10 " Hint " "the answer is 42";
              Tag 7 "p" None [] [Text "hello"];
              spoiler_el 20 "  " "and 43"];
           profile_info 30 "12"]]].

(** A fetcher that serves these pages too. *)
Definition fetch_more (maxheaders : Z) (page_url : string) : outcome node :=
  if String.eqb page_url "https://www.royalroad.com/fiction/4"
  then Ok short_story_page
  else if String.eqb page_url "/note-before"
  then Ok (noted_chapter [note 20 [] "before"] [])
  else if String.eqb page_url "/note-after"
  then Ok (noted_chapter [] [note 21 [] "after"])
  else if String.eqb page_url "/three-notes"
  then Ok (noted_chapter [note 20 [] "a"] [note 21 [] "b"; note 22 [] "c"])
  else fetch maxheaders page_url.

End Demo.

(* ================================================================== *)
(** * Properties *)

(** ** Text and the matcher *)

Lemma strip_prefix_app (p s : string) : strip_prefix p (p ++ s)%string = Some s.
Proof.
  induction p as [|a p IH]; simpl; [reflexivity|].
  now rewrite Ascii.eqb_refl.
Qed.

Lemma strip_prefix_Some (p s s' : string) :
  strip_prefix p s = Some s' -> s = (p ++ s')%string.
Proof.
  revert s; induction p as [|a p IH]; simpl; intros s H.
  - now inversion H.
  - destruct s as [|b s]; [discriminate|].
    destruct (Ascii.eqb a b) eqn:E; [|discriminate].
    apply Ascii.eqb_eq in E; subst b. f_equal. now apply IH.
Qed.

Lemma append_assoc (a b c : string) :
  ((a ++ b) ++ c = a ++ (b ++ c))%string.
Proof. induction a; simpl; congruence. Qed.

Lemma append_nil_r (a : string) : (a ++ "")%string = a.
Proof. induction a; simpl; congruence. Qed.

Lemma length_append (a b : string) :
  String.length (a ++ b) = String.length a + String.length b.
Proof. induction a; simpl; congruence. Qed.

Lemma substring_prefix (a b : string) :
  substring 0 (String.length a) (a ++ b) = a.
Proof. induction a; simpl; [now destruct b | congruence]. Qed.

Lemma take_drop_class p s : (take_class p s ++ drop_class p s)%string = s.
Proof. induction s as [|c s IH]; simpl; [easy|]. destruct (p c); simpl; congruence. Qed.

Lemma take_class_all p s : all_chars p (take_class p s) = true.
Proof. induction s as [|c s IH]; simpl; [easy|]. destruct (p c) eqn:E; simpl; [now rewrite E|easy]. Qed.

Lemma drop_class_stops p s : stops p (drop_class p s) = true.
Proof. induction s as [|c s IH]; simpl; [easy|]. destruct (p c) eqn:E; simpl; [easy|now rewrite E]. Qed.

Lemma take_class_app p a b :
  all_chars p a = true -> stops p b = true -> take_class p (a ++ b) = a.
Proof.
  induction a as [|c a IH]; simpl; intros Ha Hb.
  - destruct b as [|c b]; simpl in *; [easy|].
    now destruct (p c).
  - apply andb_true_iff in Ha as [Hc Ha]. rewrite Hc. f_equal; auto.
Qed.

Lemma drop_class_app p a b :
  all_chars p a = true -> stops p b = true -> drop_class p (a ++ b) = b.
Proof.
  induction a as [|c a IH]; simpl; intros Ha Hb.
  - destruct b as [|c b]; simpl in *; [easy|].
    now destruct (p c).
  - apply andb_true_iff in Ha as [Hc Ha]. rewrite Hc. auto.
Qed.

(** Before a continuation that always accepts, a greedy repetition takes
    the longest run. *)
Lemma star_greedy p k g pos s :
  total k ->
  star p k g pos s
  = k (pos + String.length (take_class p s)) (drop_class p s) g.
Proof.
  intros Hk. revert pos; induction s as [|c s IH]; intros pos; simpl.
  - now rewrite Nat.add_0_r.
  - destruct (p c) eqn:E; simpl.
    + rewrite IH. rewrite <- Nat.add_succ_comm.
      destruct (k _ _ _) eqn:K; [reflexivity|]. now apply Hk in K.
    + now rewrite Nat.add_0_r.
Qed.

Lemma star_total p k : total k -> total (fun pos s g => star p k g pos s).
Proof.
  intros Hk pos s g. rewrite star_greedy by assumption. apply Hk.
Qed.

(** A successful repetition stopped after some run of the class. *)
Lemma star_inv p k g pos s m :
  star p k g pos s = Some m ->
  exists a b, s = (a ++ b)%string /\ all_chars p a = true
              /\ k (pos + String.length a) b g = Some m.
Proof.
  revert pos; induction s as [|c s IH]; intros pos; simpl; intros H.
  - exists ""%string, ""%string. now rewrite Nat.add_0_r.
  - destruct (p c) eqn:E.
    + destruct (star p k g (S pos) s) eqn:St.
      * inversion H; subst. apply IH in St as (a & b & -> & Ha & Hk).
        exists (String c a), b. simpl. rewrite E, Ha.
        now rewrite <- Nat.add_succ_comm.
      * exists ""%string, (String c s). now rewrite Nat.add_0_r.
    + exists ""%string, (String c s). now rewrite Nat.add_0_r.
Qed.

(** Backtracking is complete: if the continuation accepts after some run
    of the class, the repetition succeeds. *)
Lemma star_complete p k g pos a b m :
  all_chars p a = true ->
  k (pos + String.length a) b g = Some m ->
  exists m', star p k g pos (a ++ b) = Some m'.
Proof.
  revert pos; induction a as [|c a IH]; intros pos; simpl; intros Ha Hk.
  - rewrite Nat.add_0_r in Hk.
    destruct b as [|c b]; simpl; [eauto|].
    destruct (p c); [|eauto].
    destruct (star p k g (S pos) b); eauto.
  - apply andb_true_iff in Ha as [Hc Ha]. rewrite Hc.
    rewrite <- Nat.add_succ_comm in Hk.
    destruct (IH (S pos) Ha Hk) as [m' ->]. eauto.
Qed.

Lemma rmatch_lit_app l pos s g k :
  rmatch (RLit l) pos (l ++ s) g k = k (pos + String.length l) s g.
Proof. simpl. now rewrite strip_prefix_app. Qed.

Lemma rmatch_lit_inv l pos s g k m :
  rmatch (RLit l) pos s g k = Some m ->
  exists s', s = (l ++ s')%string /\ k (pos + String.length l) s' g = Some m.
Proof.
  simpl. destruct (strip_prefix l s) as [s'|] eqn:E; [|discriminate].
  intros H. exists s'. split; [now apply strip_prefix_Some|assumption].
Qed.

Lemma rmatch_opt_inv r pos s g k m :
  rmatch (ROpt r) pos s g k = Some m ->
  rmatch r pos s g k = Some m \/ k pos s g = Some m.
Proof. simpl. destruct (rmatch r pos s g k); intros H; [left|right]; easy. Qed.

(** ** The URL matcher *)

Lemma opt_same {A} (o : option A) :
  match o with Some m => Some m | None => None end = o.
Proof. now destruct o. Qed.

Lemma fiction_prefix_app cls scheme www s pos g k :
  is_scheme scheme -> is_www www ->
  rmatch (fiction_prefix (domain cls)) pos (story_url cls scheme www s) g k
  = k (pos + String.length (story_url cls scheme www "")) s g.
Proof.
  intros [-> | ->] [-> | ->]; destruct cls; cbn;
    rewrite ?strip_prefix_app, ?opt_same; f_equal; lia.
Qed.

Lemma rmatch_seq a b pos s g k :
  rmatch (RSeq a b) pos s g k
  = rmatch a pos s g (fun pos' s' g' => rmatch b pos' s' g' k).
Proof. reflexivity. Qed.

Lemma fiction_prefix_inv cls u pos g k m :
  rmatch (fiction_prefix (domain cls)) pos u g k = Some m ->
  exists scheme www s,
    is_scheme scheme /\ is_www www /\ u = story_url cls scheme www s
    /\ k (pos + String.length (story_url cls scheme www "")) s g = Some m.
Proof.
  unfold fiction_prefix. intros H.
  rewrite rmatch_seq in H. apply rmatch_lit_inv in H as (s1 & -> & H).
  rewrite rmatch_seq in H. apply rmatch_opt_inv in H as [H | H].
  - apply rmatch_lit_inv in H as (s2 & -> & H).
    rewrite rmatch_seq in H. apply rmatch_lit_inv in H as (s3 & -> & H).
    rewrite rmatch_seq in H. apply rmatch_opt_inv in H as [H | H].
    + apply rmatch_lit_inv in H as (s4 & -> & H).
      rewrite rmatch_seq in H. apply rmatch_lit_inv in H as (s5 & -> & H).
      apply rmatch_lit_inv in H as (s6 & -> & H).
      exists "https", "www.", s6. split; [now right|]. split; [now right|]. split.
      * reflexivity.
      * rewrite <- H. f_equal. destruct cls; cbn; lia.
    + rewrite rmatch_seq in H. apply rmatch_lit_inv in H as (s5 & -> & H).
      apply rmatch_lit_inv in H as (s6 & -> & H).
      exists "https", "", s6. split; [now right|]. split; [now left|]. split.
      * reflexivity.
      * rewrite <- H. f_equal. destruct cls; cbn; lia.
  - rewrite rmatch_seq in H. apply rmatch_lit_inv in H as (s3 & -> & H).
    rewrite rmatch_seq in H. apply rmatch_opt_inv in H as [H | H].
    + apply rmatch_lit_inv in H as (s4 & -> & H).
      rewrite rmatch_seq in H. apply rmatch_lit_inv in H as (s5 & -> & H).
      apply rmatch_lit_inv in H as (s6 & -> & H).
      exists "http", "www.", s6. split; [now left|]. split; [now right|]. split.
      * reflexivity.
      * rewrite <- H. f_equal. destruct cls; cbn; lia.
    + rewrite rmatch_seq in H. apply rmatch_lit_inv in H as (s5 & -> & H).
      apply rmatch_lit_inv in H as (s6 & -> & H).
      exists "http", "", s6. split; [now left|]. split; [now left|]. split.
      * reflexivity.
      * rewrite <- H. f_equal. destruct cls; cbn; lia.
Qed.

Lemma rmatch_plus_greedy p k g pos a b :
  a <> ""%string -> all_chars p a = true -> stops p b = true -> total k ->
  rmatch (RPlus p) pos (a ++ b) g k = k (pos + String.length a) b g.
Proof.
  intros Ha Hall Hb Hk. destruct a as [|c a]; [congruence|].
  simpl in Hall. apply andb_true_iff in Hall as [Hc Hall].
  cbn. rewrite Hc, star_greedy by assumption.
  rewrite take_class_app, drop_class_app by assumption.
  f_equal. lia.
Qed.

Lemma rmatch_plus_inv p k g pos s m :
  total k ->
  rmatch (RPlus p) pos s g k = Some m ->
  exists a b, s = (a ++ b)%string /\ a <> ""%string /\ all_chars p a = true
              /\ stops p b = true /\ k (pos + String.length a) b g = Some m.
Proof.
  intros Hk. cbn. destruct s as [|c s]; [discriminate|].
  destruct (p c) eqn:Hc; [|discriminate].
  rewrite star_greedy by assumption. intros H.
  exists (String c (take_class p s)), (drop_class p s). simpl.
  rewrite take_drop_class, Hc, take_class_all, drop_class_stops.
  repeat split; try easy. rewrite <- H. f_equal. lia.
Qed.

(** What follows the group of the URL patterns, [/?.*], accepts anything. *)
Lemma url_tail_total (k : cont) :
  total k ->
  total (fun pos s g =>
           rmatch (ROpt (RLit "/") ++ RStar not_newline)%re pos s g k).
Proof.
  intros Hk pos s g. rewrite rmatch_seq. cbn [rmatch].
  destruct (strip_prefix "/" s) as [s'|].
  - destruct (star not_newline k g (pos + String.length "/") s') eqn:E;
      [discriminate|].
    now apply star_total in E.
  - now apply star_total.
Qed.

Lemma final_total : total (fun pos _ g => Some {| m_end := pos; group1 := g |}).
Proof. intros pos s g; discriminate. Qed.

Lemma story_url_app cls scheme www a b :
  story_url cls scheme www (a ++ b) = (story_url cls scheme www a ++ b)%string.
Proof. unfold story_url. now rewrite !append_assoc. Qed.

Lemma story_url_length cls scheme www a :
  String.length (story_url cls scheme www a)
  = String.length (story_url cls scheme www "") + String.length a.
Proof.
  rewrite <- (append_nil_r a) at 1.
  change (a ++ "")%string with ("" ++ a ++ "")%string.
  rewrite story_url_app, length_append, append_nil_r. reflexivity.
Qed.

Lemma matches_story_url cls scheme www ident rest :
  is_scheme scheme -> is_www www -> is_ident ident ->
  stops is_digit rest = true ->
  matches cls (story_url cls scheme www (ident ++ rest))
  = Some (story_url cls scheme www ident ++ "/")%string.
Proof.
  intros Hs Hw [Hne Hd] Hrest.
  unfold matches, re_match, matches_pattern.
  rewrite rmatch_seq. cbn [rmatch Nat.eqb].
  rewrite fiction_prefix_app by assumption.
  rewrite rmatch_plus_greedy; try assumption.
  - rewrite !star_greedy by apply final_total.
    replace (0 + String.length (story_url cls scheme www "")
             + String.length ident - 0)
      with (String.length (story_url cls scheme www ident))
      by (rewrite story_url_length; lia).
    rewrite story_url_app, substring_prefix.
    destruct (strip_prefix "/" rest);
      rewrite ?star_greedy by apply final_total; reflexivity.
  - intros pos s g.
    destruct (strip_prefix "/" s);
      rewrite ?star_greedy by apply final_total; discriminate.
Qed.

Lemma matches_inv cls u c :
  matches cls u = Some c ->
  exists scheme www ident rest,
    is_scheme scheme /\ is_www www /\ is_ident ident
    /\ stops is_digit rest = true
    /\ u = story_url cls scheme www (ident ++ rest)
    /\ c = (story_url cls scheme www ident ++ "/")%string.
Proof.
  intros H. pose proof H as H0. unfold matches in H0.
  destruct (re_match _ u) as [m|] eqn:E; [clear H0|discriminate].
  revert E. unfold re_match, matches_pattern.
  rewrite rmatch_seq. cbn [rmatch Nat.eqb]. intros E.
  apply fiction_prefix_inv in E as (scheme & www & s & Hs & Hw & -> & E).
  apply (rmatch_plus_inv is_digit) in E as (a & b & -> & Hne & Ha & Hb & E).
  2:{ intros pos s' g.
      destruct (strip_prefix "/" s');
        rewrite ?star_greedy by apply final_total; discriminate. }
  exists scheme, www, a, b. repeat (split; [assumption|]).
  split; [now split|]. split; [assumption|]. split; [reflexivity|].
  rewrite (matches_story_url cls scheme www a b) in H; try easy.
  now inversion H.
Qed.
Example matches_ex1 :
  matches RoyalRoad "https://royalroad.com/fiction/6752/lament-of-the-fallen"
  = Some "https://royalroad.com/fiction/6752/".
Proof. reflexivity. Qed.

Example matches_ex2 :
  matches RoyalRoad "http://www.royalroad.com/fiction/6752" = Some "http://www.royalroad.com/fiction/6752/".
Proof. reflexivity. Qed.

Example matches_ex3 :
  matches RoyalRoad "https://royalroad.com/profile/6752" = None.
Proof. reflexivity. Qed.

Example matches_ex4 :
  matches RoyalRoadL "https://www.royalroadldl.com/fiction/12x" = Some "https://www.royalroadldl.com/fiction/12/".
Proof. reflexivity. Qed.

(** ** The pattern of the hidden-warning remover *)

(** A greedy repetition before a continuation that cannot start on a
    character of the class takes the longest run, or fails. *)
Lemma star_forced p k g pos a b :
  all_chars p a = true -> stops p b = true ->
  (forall pos' c s', p c = true -> k pos' (String c s') g = None) ->
  star p k g pos (a ++ b) = k (pos + String.length a) b g.
Proof.
  intros Ha Hb Hk. revert pos; induction a as [|c a IH]; intros pos; simpl.
  - rewrite Nat.add_0_r. destruct b as [|c b]; simpl in *; [reflexivity|].
    destruct (p c); [discriminate | reflexivity].
  - simpl in Ha. apply andb_true_iff in Ha as [Hc Ha]. rewrite Hc.
    rewrite (IH Ha), <- Nat.add_succ_comm.
    destruct (k _ b g) eqn:E; [reflexivity|]. now apply Hk.
Qed.

Lemma rmatch_plus_forced p k g pos a b :
  a <> ""%string -> all_chars p a = true -> stops p b = true ->
  (forall pos' c s', p c = true -> k pos' (String c s') g = None) ->
  rmatch (RPlus p) pos (a ++ b) g k = k (pos + String.length a) b g.
Proof.
  intros Ha Hall Hb Hk. destruct a as [|c a]; [congruence|].
  simpl in Hall. apply andb_true_iff in Hall as [Hc Hall].
  cbn. rewrite Hc, star_forced by assumption.
  f_equal. lia.
Qed.

Lemma star_succeeds p k g pos a b :
  all_chars p a = true ->
  (exists m, k (pos + String.length a) b g = Some m) ->
  exists m, star p k g pos (a ++ b) = Some m.
Proof. intros Ha [m Hm]. now apply (star_complete p k g pos a b m). Qed.

(** A pattern with no group leaves the captured group as it is. *)
Lemma groupless_keeps_group (r : regex) :
  groupless r = true ->
  forall (k : cont),
    (forall pos s g m, k pos s g = Some m -> group1 m = g) ->
    forall pos s g m, rmatch r pos s g k = Some m -> group1 m = g.
Proof.
  induction r as [| l | p | p | r IH | r1 IH1 r2 IH2 | r IH];
    intros Hr k Hk pos s g m H; simpl in *.
  - destruct (Nat.eqb pos 0); [now apply Hk in H | discriminate].
  - destruct (strip_prefix l s); [now apply Hk in H | discriminate].
  - destruct s as [|c s]; [discriminate|].
    destruct (p c); [now apply Hk in H | discriminate].
  - apply star_inv in H as (a & b & _ & _ & H). now apply Hk in H.
  - destruct (rmatch r pos s g k) eqn:E.
    + injection H as <-. now apply (IH Hr k Hk pos s g).
    + now apply Hk in H.
  - apply andb_true_iff in Hr as [Hr1 Hr2].
    apply (IH1 Hr1 _ (fun pos' s' g' m' => IH2 Hr2 k Hk pos' s' g' m')
             pos s g m H).
  - discriminate.
Qed.

Lemma word_not_space (c : ascii) : is_word c = true -> is_space c = false.
Proof.
  destruct c as [[] [] [] [] [] [] [] []]; try discriminate; reflexivity.
Qed.

Lemma space_not_word (c : ascii) : is_space c = true -> is_word c = false.
Proof.
  destruct c as [[] [] [] [] [] [] [] []]; try discriminate; reflexivity.
Qed.

(** The text of a rule that hides class [k] matches the pattern, and the
    class captured is [k]. *)
Lemma hidden_rule_matches (ws1 k ws2 b1 ws3 b2 rest : string) :
  all_chars is_space ws1 = true -> all_chars is_space ws2 = true ->
  all_chars is_space ws3 = true ->
  k <> ""%string -> all_chars is_word k = true ->
  all_chars not_rbrace b1 = true -> all_chars not_rbrace b2 = true ->
  exists m,
    re_match hidden_pattern (hidden_rule ws1 k ws2 b1 ws3 b2 rest) = Some m
    /\ group1 m = Some k.
Proof.
  intros H1 H2 H3 Hk Hw Hb1 Hb2.
  set (body := (RStar is_space ++ RLit "{" ++ RStar not_rbrace
                ++ RLit "display:" ++ RStar is_space ++ RLit "none;"
                ++ RStar not_rbrace ++ RLit "}")%re).
  set (final := fun (pos : nat) (_ : string) (g : option string) =>
                  Some {| m_end := pos; group1 := g |}).
  set (tail := (ws2 ++ "{" ++ b1 ++ "display:" ++ ws3 ++ "none;" ++ b2
                ++ "}" ++ rest)%string).
  assert (Htail : stops is_word tail = true).
  { unfold tail. destruct ws2 as [|c ws2]; [reflexivity|].
    simpl in H2. apply andb_true_iff in H2 as [Hc _]. simpl.
    now rewrite (space_not_word c Hc). }
  (* the selector is matched in one way only *)
  assert (Hsel :
             re_match hidden_pattern (hidden_rule ws1 k ws2 b1 ws3 b2 rest)
             = rmatch body (0 + String.length ws1 + String.length "."
                            + String.length k) tail (Some k) final).
  { unfold re_match, hidden_pattern, hidden_rule. fold body. fold tail.
    rewrite rmatch_seq. change (rmatch (RStar is_space) ?pos ?s ?g ?k0)
      with (star is_space k0 g pos s).
    rewrite star_forced; [|assumption|reflexivity|].
    2:{ intros pos' c s' Hc. rewrite rmatch_seq. cbn [rmatch strip_prefix].
        destruct (Ascii.eqb "." c) eqn:E; [|reflexivity].
        apply Ascii.eqb_eq in E. subst c. discriminate. }
    rewrite rmatch_seq, rmatch_lit_app, rmatch_seq.
    change (rmatch (RGroup ?r) ?pos ?s ?g ?k0)
      with (rmatch r pos s g
              (fun pos' s' _ =>
                 k0 pos' s' (Some (substring 0 (pos' - pos) s)))).
    rewrite rmatch_plus_forced; [|assumption|assumption|assumption|].
    2:{ intros pos' c' s' Hc'. unfold body. rewrite rmatch_seq.
        cbn [rmatch star]. rewrite (word_not_space c' Hc').
        cbn [strip_prefix].
        destruct (Ascii.eqb "{" c') eqn:E; [|reflexivity].
        apply Ascii.eqb_eq in E. subst c'. discriminate. }
    replace (0 + String.length ws1 + String.length "." + String.length k
             - (0 + String.length ws1 + String.length "."))
      with (String.length k) by lia.
    now rewrite substring_prefix. }
  rewrite Hsel.
  assert (Hex : exists m,
             rmatch body (0 + String.length ws1 + String.length "."
                          + String.length k) tail (Some k) final = Some m).
  { unfold body, tail. rewrite rmatch_seq. cbn [rmatch].
    apply star_succeeds; [assumption|]. rewrite strip_prefix_app.
    apply star_succeeds; [assumption|]. rewrite strip_prefix_app.
    apply star_succeeds; [assumption|]. rewrite strip_prefix_app.
    apply star_succeeds; [assumption|]. rewrite strip_prefix_app.
    eexists. reflexivity. }
  destruct Hex as [m Hm]. exists m. split; [assumption|].
  apply (groupless_keeps_group body eq_refl final) in Hm; [assumption|].
  intros pos s g m' [= <-]. reflexivity.
Qed.

(** A successful [c+] took some non-empty run of the class. *)
Lemma rmatch_plus_some p k g pos s m :
  rmatch (RPlus p) pos s g k = Some m ->
  exists a b, s = (a ++ b)%string /\ a <> ""%string /\ all_chars p a = true
              /\ k (pos + String.length a) b g = Some m.
Proof.
  cbn. destruct s as [|c s]; [discriminate|].
  destruct (p c) eqn:Hc; [|discriminate].
  intros H. apply star_inv in H as (a & b & -> & Ha & H).
  exists (String c a), b. split; [reflexivity|]. split; [discriminate|].
  split; [simpl; now rewrite Hc, Ha|].
  rewrite <- H. f_equal. simpl. lia.
Qed.

(** A text that matches the pattern starts with a rule that hides the
    class captured. *)
Lemma hidden_rule_inv (text : string) (m : match_obj) :
  re_match hidden_pattern text = Some m ->
  exists ws1 k ws2 b1 ws3 b2 rest,
    text = hidden_rule ws1 k ws2 b1 ws3 b2 rest
    /\ all_chars is_space ws1 = true /\ all_chars is_space ws2 = true
    /\ all_chars is_space ws3 = true
    /\ k <> ""%string /\ all_chars is_word k = true
    /\ all_chars not_rbrace b1 = true /\ all_chars not_rbrace b2 = true
    /\ group1 m = Some k.
Proof.
  unfold re_match, hidden_pattern. intros H.
  rewrite rmatch_seq in H. apply star_inv in H as (ws1 & s1 & -> & H1 & H).
  rewrite rmatch_seq in H. apply rmatch_lit_inv in H as (s2 & -> & H).
  rewrite rmatch_seq in H.
  change (rmatch (RGroup ?r) ?pos ?s ?g ?k0)
    with (rmatch r pos s g
            (fun pos' s' _ =>
               k0 pos' s' (Some (substring 0 (pos' - pos) s)))) in H.
  apply rmatch_plus_some in H as (k & s3 & -> & Hk & Hw & H).
  replace (0 + String.length ws1 + String.length "." + String.length k
           - (0 + String.length ws1 + String.length "."))
    with (String.length k) in H by lia.
  rewrite substring_prefix in H.
  rewrite rmatch_seq in H. apply star_inv in H as (ws2 & s4 & -> & H2 & H).
  rewrite rmatch_seq in H. apply rmatch_lit_inv in H as (s5 & -> & H).
  rewrite rmatch_seq in H. apply star_inv in H as (b1 & s6 & -> & Hb1 & H).
  rewrite rmatch_seq in H. apply rmatch_lit_inv in H as (s7 & -> & H).
  rewrite rmatch_seq in H. apply star_inv in H as (ws3 & s8 & -> & H3 & H).
  rewrite rmatch_seq in H. apply rmatch_lit_inv in H as (s9 & -> & H).
  rewrite rmatch_seq in H. apply star_inv in H as (b2 & s10 & -> & Hb2 & H).
  apply rmatch_lit_inv in H as (rest & -> & H).
  injection H as <-.
  exists ws1, k, ws2, b1, ws3, b2, rest. repeat (split; [easy|]).
  reflexivity.
Qed.

(** The class the pattern captures is made of word characters, so it is
    not the class of the headers the spoiler normalizer makes. *)
Lemma hidden_class_is_no_header_class (text k : string) (m : match_obj) :
  re_match hidden_pattern text = Some m -> group1 m = Some k ->
  forall x, is_header x -> has_class k x = false.
Proof.
  intros Hm Hk x (_ & Hcl & _).
  apply hidden_rule_inv in Hm
    as (ws1 & k' & ws2 & b1 & ws3 & b2 & rest & _ & _ & _ & _ & _ & Hw & _ & _
        & Hk').
  assert (k' = k) by congruence. subst k'.
  destruct x as [s | i nm c a cs]; [reflexivity|]. simpl in Hcl. subst c.
  simpl. rewrite orb_false_r.
  destruct (String.eqb_spec k "spoiler-header") as [-> | _]; [|reflexivity].
  discriminate Hw.
Qed.

Example hidden_rule_semicolon :
  re_match hidden_pattern ".foo{display:none;}"
  = Some {| m_end := 19; group1 := Some "foo" |}.
Proof. reflexivity. Qed.

Example hidden_rule_no_semicolon :
  re_match hidden_pattern ".foo{display:none}" = None.
Proof. reflexivity. Qed.

Example hidden_rule_spaced :
  re_match hidden_pattern "  .hidden1 { color: red; display:  none; }"
  = Some {| m_end := 42; group1 := Some "hidden1" |}.
Proof. reflexivity. Qed.

(** C5.  On every URL [scheme://[www.]domain.com/fiction/<digits>], alone
    or followed by a slash and a title slug, [matches] returns the
    canonical URL: same scheme and host, the numeric id, a trailing slash
    and no slug.  On every URL that is not a story URL of the site's domain
    followed by anything, [matches] returns nothing. *)
Theorem matches_canonical_or_nothing (cls : site_class) (u : string) :
  (forall scheme www ident slug_part,
      is_scheme scheme -> is_www www -> is_ident ident ->
      (slug_part = ""%string \/ exists slug, slug_part = ("/" ++ slug)%string) ->
      u = (story_url cls scheme www ident ++ slug_part)%string ->
      matches cls u = Some (story_url cls scheme www ident ++ "/")%string)
  /\ ((forall scheme www ident rest,
          is_scheme scheme -> is_www www -> is_ident ident ->
          u <> (story_url cls scheme www ident ++ rest)%string) ->
      matches cls u = None).
Proof.
  split.
  - intros scheme www ident slug_part Hs Hw Hi Hslug ->.
    rewrite <- story_url_app. apply matches_story_url; try assumption.
    destruct Hslug as [-> | [slug ->]]; reflexivity.
  - intros Hno. destruct (matches cls u) as [c|] eqn:E; [|reflexivity].
    apply matches_inv in E
      as (scheme & www & ident & rest & Hs & Hw & Hi & _ & Hu & _).
    rewrite story_url_app in Hu. now apply Hno in Hu.
Qed.

Lemma matches_canonical_or_nothing_witness :
  matches RoyalRoad "https://www.royalroad.com/fiction/6752/lament-of-the-fallen"
  = Some "https://www.royalroad.com/fiction/6752/"
  /\ matches RoyalRoadL "https://www.royalroadldl.com/fiction/6752"
     = Some "https://www.royalroadldl.com/fiction/6752/".
Proof.
  split.
  - apply (proj1 (matches_canonical_or_nothing RoyalRoad _)
             "https" "www." "6752" "/lament-of-the-fallen").
    + now right.
    + now right.
    + split; [discriminate | reflexivity].
    + right. now exists "lament-of-the-fallen".
    + reflexivity.
  - apply (proj1 (matches_canonical_or_nothing RoyalRoadL _)
             "https" "www." "6752" "").
    + now right.
    + now right.
    + split; [discriminate | reflexivity].
    + now left.
    + reflexivity.
Defined.

(** C10.  The canonical URL is a fixed point of [matches]: when [matches]
    returns [c] on some URL, it returns [c] on [c]. *)
Theorem matches_canonical_fixed_point (cls : site_class) (u c : string) :
  matches cls u = Some c -> matches cls c = Some c.
Proof.
  intros H.
  apply matches_inv in H
    as (scheme & www & ident & rest & Hs & Hw & Hi & _ & _ & ->).
  pose proof (matches_story_url cls scheme www ident "/" Hs Hw Hi eq_refl) as E.
  rewrite story_url_app in E. exact E.
Qed.

Lemma matches_canonical_fixed_point_witness :
  matches RoyalRoad "http://royalroad.com/fiction/6752/"
  = Some "http://royalroad.com/fiction/6752/".
Proof.
  apply (matches_canonical_fixed_point RoyalRoad
           "http://royalroad.com/fiction/6752/lament-of-the-fallen").
  reflexivity.
Defined.

(** ** The document tree *)

Lemma node_induction (P : node -> Prop) :
  (forall s, P (Text s)) ->
  (forall i nm c a cs, Forall P cs -> P (Tag i nm c a cs)) ->
  forall n, P n.
Proof.
  intros HT HG. fix IH 1. intros [s | i nm c a cs]; [apply HT|].
  apply HG. induction cs as [|x cs IHcs]; constructor; [apply IH | exact IHcs].
Qed.

Lemma in_descendants (x n : node) :
  In x (descendants n) <-> exists c, In c (children n) /\ In x (subtree c).
Proof.
  destruct n as [s | i nm c a cs]; simpl.
  - split; [easy | now intros (c & [] & _)].
  - apply in_flat_map.
Qed.

Lemma in_subtree_self (n : node) : In n (subtree n).
Proof. now left. Qed.

Lemma descendants_trans (n m x : node) :
  In m (descendants n) -> In x (descendants m) -> In x (descendants n).
Proof.
  induction n as [s | i nm c a cs IH] using node_induction; [easy|].
  intros Hm Hx. apply in_descendants in Hm as (c0 & Hc0 & Hm).
  apply in_descendants. exists c0. split; [assumption|].
  destruct Hm as [<- | Hm]; [now right|]. right.
  rewrite Forall_forall in IH. now apply (IH c0 Hc0).
Qed.

Lemma subtree_trans (n m x : node) :
  In m (subtree n) -> In x (subtree m) -> In x (subtree n).
Proof.
  intros [<- | Hm] Hx; [assumption|]. right.
  destruct Hx as [<- | Hx]; [assumption|]. now apply (descendants_trans n m).
Qed.

Lemma in_all_nodes (d : dom) (x : node) :
  In x (all_nodes d) <-> exists r, In r d /\ In x (subtree r).
Proof. apply in_flat_map. Qed.

Lemma all_nodes_closed (d : dom) (n x : node) :
  In n (all_nodes d) -> In x (subtree n) -> In x (all_nodes d).
Proof.
  intros Hn Hx. apply in_all_nodes in Hn as (r & Hr & Hn).
  apply in_all_nodes. exists r. split; [assumption|].
  now apply (subtree_trans r n).
Qed.

Lemma get_Some (d : dom) (r : ref) (n : node) :
  get d r = Some n -> In n (all_nodes d) /\ has_id r n = true.
Proof. apply find_some. Qed.

Lemma has_id_spec (r : ref) (n : node) :
  has_id r n = true <-> is_tag n = true /\ node_id n = r.
Proof.
  destruct n as [s | i nm c a cs]; simpl; [easy|].
  rewrite Nat.eqb_eq. tauto.
Qed.

Lemma get_exists (d : dom) (n : node) :
  In n (all_nodes d) -> is_tag n = true -> get d (node_id n) <> None.
Proof.
  intros Hn Ht E. apply (find_none _ _ E) in Hn.
  assert (has_id (node_id n) n = true) by now apply has_id_spec.
  congruence.
Qed.

Lemma list_max_ge (l : list nat) (x : nat) : In x l -> x <= list_max l.
Proof.
  intros H. pose proof (proj1 (list_max_le l (list_max l)) (le_n _)) as F.
  rewrite Forall_forall in F. now apply F.
Qed.

Lemma fresh_above (d : dom) (n : node) :
  In n (all_nodes d) -> node_id n < fresh d.
Proof.
  intros H. unfold fresh. apply Nat.lt_succ_r, list_max_ge. now apply in_map.
Qed.

(** The references [find_all] returns denote elements of the page. *)
Lemma refs_in_present (d : dom) (el : ref) (p : node -> bool) (r : ref) :
  In r (refs_in d el p) ->
  exists n x, get d el = Some n /\ In x (descendants n) /\ is_tag x = true
              /\ p x = true /\ node_id x = r.
Proof.
  unfold refs_in. destruct (get d el) as [n|]; [|easy].
  intros H. apply in_map_iff in H as (x & <- & H).
  apply filter_In in H as [Hx Hp]. unfold both in Hp.
  apply andb_true_iff in Hp as [Ht Hp]. now exists n, x.
Qed.

Lemma refs_in_below_fresh (d : dom) (el : ref) (p : node -> bool) (r : ref) :
  In r (refs_in d el p) -> r < fresh d.
Proof.
  intros H. apply refs_in_present in H as (n & x & Hn & Hx & _ & _ & <-).
  apply fresh_above. apply get_Some in Hn as [Hn _].
  apply (all_nodes_closed d n); [assumption | now right].
Qed.

Lemma first_in_In (d : dom) (el : ref) (p : node -> bool) (r : ref) :
  first_in d el p = Some r -> In r (refs_in d el p).
Proof.
  unfold first_in. destruct (refs_in d el p); simpl; [easy|].
  intros [= ->]. now left.
Qed.

(** *** Insertion next to an element that has a parent *)

Lemma find_exists {A} (f : A -> bool) (l : list A) (x : A) :
  In x l -> f x = true -> find f l <> None.
Proof. intros Hx Hf E. apply (find_none _ _ E) in Hx. congruence. Qed.

Lemma parent_of_exists (d : dom) (r : ref) (n : node) :
  In n (all_nodes d) -> existsb (has_id r) (children n) = true ->
  parent_of d r <> None.
Proof.
  intros Hn Hc. unfold parent_of.
  destruct (find _ (all_nodes d)) eqn:E; [discriminate|].
  now apply (find_exists _ _ n) in E.
Qed.

Lemma parent_of_Some (d : dom) (r p : ref) :
  parent_of d r = Some p ->
  exists n, In n (all_nodes d) /\ existsb (has_id r) (children n) = true.
Proof.
  unfold parent_of. destruct (find _ (all_nodes d)) as [n|] eqn:E; [|easy].
  intros _. exists n. now apply find_some in E.
Qed.

(** After [graft], the element placed next to child [r] has a parent. *)
Lemma graft_places (r : ref) (before after : list node) (new : node) (t n : node) :
  In new (before ++ after) ->
  In n (subtree t) -> existsb (has_id r) (children n) = true ->
  exists n', In n' (subtree (graft r before after t))
             /\ In new (children n').
Proof.
  intros Hnew. revert n.
  induction t as [s | i nm c a cs IH] using node_induction; intros n Hn Hc.
  - destruct Hn as [<- | []]. discriminate.
  - destruct Hn as [<- | Hn].
    + exists (graft r before after (Tag i nm c a cs)). split; [now left|].
      simpl in *. apply existsb_exists in Hc as (x & Hx & Hid).
      apply in_flat_map. exists x. split; [assumption|]. rewrite Hid.
      apply in_app_or in Hnew as [H | H]; apply in_or_app; [now left|].
      right. now right.
    + apply in_descendants in Hn as (c0 & Hc0 & Hn). simpl in Hc0.
      destruct (has_id r c0) eqn:Hid.
      * exists (graft r before after (Tag i nm c a cs)). split; [now left|].
        simpl. apply in_flat_map. exists c0. split; [assumption|].
        rewrite Hid.
        apply in_app_or in Hnew as [H | H]; apply in_or_app; [now left|].
        right. now right.
      * rewrite Forall_forall in IH.
        destruct (IH c0 Hc0 n Hn Hc) as (n' & Hn' & Hin).
        exists n'. split; [|assumption]. right. simpl.
        apply in_flat_map. exists (graft r before after c0).
        split; [|exact Hn'].
        apply in_flat_map. exists c0. split; [assumption|].
        rewrite Hid. now left.
Qed.

Lemma graft_gives_parent (d : dom) (r : ref) (before after : list node)
  (new : node) (p : ref) :
  parent_of d r = Some p -> In new (before ++ after) -> is_tag new = true ->
  parent_of (map (graft r before after) d) (node_id new) <> None.
Proof.
  intros Hp Hnew Ht. apply parent_of_Some in Hp as (n & Hn & Hc).
  apply in_all_nodes in Hn as (t & Ht' & Hn).
  destruct (graft_places r before after new t n Hnew Hn Hc) as (n' & Hn' & Hin).
  apply (parent_of_exists _ _ n').
  - apply in_all_nodes. exists (graft r before after t).
    split; [now apply in_map | assumption].
  - apply existsb_exists. exists new. split; [assumption|].
    now apply has_id_spec.
Qed.

(** *** Taking elements out of the tree *)

Lemma find_app {A} (f : A -> bool) (l1 l2 : list A) :
  find f (l1 ++ l2)
  = match find f l1 with
    | Some x => Some x
    | None => find f l2
    end.
Proof. induction l1 as [|a l1 IH]; simpl; [reflexivity|]. now destruct (f a). Qed.

Lemma find_None {A} (f : A -> bool) (l : list A) :
  find f l = None <-> forall x, In x l -> f x = false.
Proof.
  split; [apply find_none|].
  intros H. destruct (find f l) as [x|] eqn:E; [|reflexivity].
  apply find_some in E as [Hx Hf]. apply H in Hx. congruence.
Qed.

Lemma filter_nil {A} (f : A -> bool) (l : list A) :
  filter f l = [] <-> forall x, In x l -> f x = false.
Proof.
  induction l as [|a l IH]; simpl; [easy|].
  destruct (f a) eqn:E; split.
  - discriminate.
  - intros H. specialize (H a (or_introl eq_refl)). congruence.
  - intros H x [<- | Hx]; [assumption|]. now apply IH.
  - intros H. apply IH. intros x Hx. apply H. now right.
Qed.

Lemma all_nodes_app (d1 d2 : dom) :
  all_nodes (d1 ++ d2) = all_nodes d1 ++ all_nodes d2.
Proof. apply flat_map_app. Qed.

Lemma descendants_all_nodes (n : node) :
  descendants n = all_nodes (children n).
Proof. now destruct n. Qed.

Lemma prune_has_id (r r' : ref) (n : node) :
  has_id r' (prune r n) = has_id r' n.
Proof. now destruct n. Qed.

Lemma prune_is_tag (r : ref) (n : node) : is_tag (prune r n) = is_tag n.
Proof. now destruct n. Qed.

Lemma prune_node_id (r : ref) (n : node) : node_id (prune r n) = node_id n.
Proof. now destruct n. Qed.

Lemma prune_has_class (r : ref) (k : string) (n : node) :
  has_class k (prune r n) = has_class k n.
Proof. now destruct n. Qed.

Lemma prune_children (r : ref) (n : node) :
  children (prune r n) = without r (children n).
Proof. now destruct n. Qed.

Lemma without_cons (r : ref) (t : node) (ts : list node) :
  without r (t :: ts)
  = (if has_id r t then [] else [prune r t]) ++ without r ts.
Proof. reflexivity. Qed.

Lemma comes_from_step (r : ref) (ts : list node) :
  (forall t, In t ts -> comes_from r (children t)) -> comes_from r ts.
Proof.
  induction ts as [|t ts IH]; intros H x' Hx'; [destruct Hx'|].
  rewrite without_cons, all_nodes_app in Hx'.
  apply in_app_or in Hx' as [Hx' | Hx'].
  - destruct (has_id r t) eqn:Hid; [destruct Hx'|].
    simpl in Hx'. rewrite app_nil_r in Hx'. destruct Hx' as [<- | Hx'].
    + exists t. split; [now left | now split].
    + rewrite descendants_all_nodes, prune_children in Hx'.
      apply (H t (or_introl eq_refl)) in Hx' as (x & Hx & -> & Hn).
      exists x. split; [|now split]. simpl. right. apply in_or_app. left.
      now rewrite descendants_all_nodes.
  - destruct (IH (fun t' Ht' => H t' (or_intror Ht')) x' Hx')
      as (x & Hx & -> & Hn).
    exists x. split; [|now split].
    change (all_nodes (t :: ts)) with (subtree t ++ all_nodes ts).
    apply in_or_app. now right.
Qed.

Lemma without_sound (r : ref) (ts : list node) : comes_from r ts.
Proof.
  assert (H : forall n, comes_from r (children n)).
  { induction n as [s | i nm c a cs IH] using node_induction.
    - intros x' [].
    - apply comes_from_step. now rewrite Forall_forall in IH. }
  apply comes_from_step. intros t _. apply H.
Qed.

Lemma descendants_prune_sound (r : ref) (n x' : node) :
  In x' (descendants (prune r n)) ->
  exists x, In x (descendants n) /\ x' = prune r x /\ has_id r x = false.
Proof.
  rewrite !descendants_all_nodes, prune_children. apply without_sound.
Qed.

Lemma subtree_prune_sound (r : ref) (n x' : node) :
  In x' (subtree (prune r n)) ->
  exists x, In x (subtree n) /\ x' = prune r x.
Proof.
  intros [<- | H]; [exists n; split; [now left | reflexivity]|].
  apply descendants_prune_sound in H as (x & Hx & -> & _).
  exists x. split; [now right | reflexivity].
Qed.

Lemma lookup_commutes_step (r c : ref) (ts : list node) :
  (forall t, In t ts -> lookup_commutes r c (children t)) ->
  lookup_commutes r c ts.
Proof.
  induction ts as [|t ts IH]; intros H Hout; [reflexivity|].
  assert (IH' : find (has_id c) (all_nodes (without r ts))
                = option_map (prune r) (find (has_id c) (all_nodes ts))).
  { apply IH; [intros t' Ht'; apply H; now right|].
    intros m Hm. apply Hout.
    change (all_nodes (t :: ts)) with (subtree t ++ all_nodes ts).
    apply in_or_app. now right. }
  rewrite without_cons, all_nodes_app.
  change (all_nodes (t :: ts)) with (subtree t ++ all_nodes ts).
  rewrite !find_app, IH'.
  destruct (has_id r t) eqn:Hid.
  - simpl (find _ (all_nodes [])).
    rewrite (Hout t); [reflexivity| |assumption].
    change (all_nodes (t :: ts)) with (subtree t ++ all_nodes ts).
    apply in_or_app. left. now left.
  - assert (E : find (has_id c) (all_nodes [prune r t])
                = option_map (prune r) (find (has_id c) (subtree t))).
    { simpl. rewrite app_nil_r, prune_has_id.
      destruct (has_id c t); [reflexivity|].
      rewrite !descendants_all_nodes, prune_children.
      apply (H t (or_introl eq_refl)).
      intros m Hm. apply Hout.
      change (all_nodes (t :: ts)) with (subtree t ++ all_nodes ts).
      apply in_or_app. left. right. now rewrite descendants_all_nodes. }
    rewrite E. now destruct (find (has_id c) (subtree t)).
Qed.

Lemma lookup_after_without (r c : ref) (ts : list node) :
  lookup_commutes r c ts.
Proof.
  assert (H : forall n, lookup_commutes r c (children n)).
  { induction n as [s | i nm cl a cs IH] using node_induction.
    - intros _. reflexivity.
    - apply lookup_commutes_step. now rewrite Forall_forall in IH. }
  apply lookup_commutes_step. intros t _. apply H.
Qed.

Lemma get_without (d : dom) (r c : ref) :
  outside d r c -> get (without r d) c = option_map (prune r) (get d c).
Proof. intros [_ H]. now apply lookup_after_without. Qed.

Lemma outside_without (d : dom) (x r c : ref) :
  outside d r c -> outside (without x d) r c.
Proof.
  intros [Hne H]. split; [assumption|]. intros m' Hm' Hid.
  apply without_sound in Hm' as (m & Hm & -> & _).
  rewrite prune_has_id in Hid. specialize (H m Hm Hid).
  apply find_None. intros y' Hy'.
  apply subtree_prune_sound in Hy' as (y & Hy & ->).
  rewrite prune_has_id. now apply (proj1 (find_None _ _) H).
Qed.


Lemma pruned_has_id (l : list ref) (r : ref) (n : node) :
  has_id r (pruned l n) = has_id r n.
Proof.
  revert n; induction l as [|x l IH]; intros n; [reflexivity|].
  unfold pruned in *. simpl. now rewrite IH, prune_has_id.
Qed.

Lemma pruned_is_tag (l : list ref) (n : node) : is_tag (pruned l n) = is_tag n.
Proof.
  revert n; induction l as [|x l IH]; intros n; [reflexivity|].
  unfold pruned in *. simpl. now rewrite IH, prune_is_tag.
Qed.

Lemma pruned_node_id (l : list ref) (n : node) : node_id (pruned l n) = node_id n.
Proof.
  revert n; induction l as [|x l IH]; intros n; [reflexivity|].
  unfold pruned in *. simpl. now rewrite IH, prune_node_id.
Qed.

Lemma pruned_has_class (l : list ref) (k : string) (n : node) :
  has_class k (pruned l n) = has_class k n.
Proof.
  revert n; induction l as [|x l IH]; intros n; [reflexivity|].
  unfold pruned in *. simpl. now rewrite IH, prune_has_class.
Qed.

Lemma pruned_app (l1 l2 : list ref) (n : node) :
  pruned (l1 ++ l2) n = pruned l2 (pruned l1 n).
Proof. apply fold_left_app. Qed.

Lemma without_all_app (l1 l2 : list ref) (d : dom) :
  without_all (l1 ++ l2) d = without_all l2 (without_all l1 d).
Proof. apply fold_left_app. Qed.

(** An element that holds one string only is not changed. *)
Lemma pruned_single_text (l : list ref) (n : node) (text : string) :
  children n = [Text text] -> pruned l n = n.
Proof.
  intros H. induction l as [|x l IH]; [reflexivity|].
  unfold pruned in *. simpl.
  replace (prune x n) with n; [assumption|].
  destruct n as [s | i nm c a cs]; [reflexivity|].
  simpl in H. subst cs. reflexivity.
Qed.

Lemma descendants_pruned_sound (l : list ref) (n x' : node) :
  In x' (descendants (pruned l n)) ->
  exists x, In x (descendants n) /\ x' = pruned l x
            /\ forall r, In r l -> has_id r x = false.
Proof.
  revert n; induction l as [|r0 l IH]; intros n H.
  - exists x'. now repeat split.
  - change (pruned (r0 :: l) n) with (pruned l (prune r0 n)) in H.
    apply IH in H as (x1 & H1 & -> & Hl).
    apply descendants_prune_sound in H1 as (x & Hx & -> & Hr0).
    exists x. split; [assumption|]. split; [reflexivity|].
    intros r [<- | Hr]; [assumption|].
    rewrite <- (prune_has_id r0). now apply Hl.
Qed.

Lemma outside_without_all (l : list ref) (d : dom) (r c : ref) :
  outside d r c -> outside (without_all l d) r c.
Proof.
  revert d; induction l as [|x l IH]; intros d H; [assumption|].
  apply (IH (without x d)). now apply outside_without.
Qed.

Lemma get_without_all (l : list ref) (d : dom) (c : ref) :
  (forall r, In r l -> outside d r c) ->
  get (without_all l d) c = option_map (pruned l) (get d c).
Proof.
  revert d; induction l as [|x l IH]; intros d H.
  - simpl. now destruct (get d c).
  - change (without_all (x :: l) d) with (without_all l (without x d)).
    rewrite IH.
    + rewrite get_without by (apply H; now left).
      now destruct (get d c).
    + intros r Hr. apply outside_without. apply H. now right.
Qed.

(** No element of class [k] is left once every one of them was taken
    out, and none comes back when more elements are taken out. *)
Lemma pruned_removes_class (k : string) (n : node) :
  find_all_in (has_class k)
    (pruned (map node_id (find_all_in (has_class k) n)) n) = [].
Proof.
  apply filter_nil. intros x' Hx'.
  apply descendants_pruned_sound in Hx' as (x & Hx & -> & Hl).
  unfold both. rewrite pruned_is_tag, pruned_has_class.
  destruct (is_tag x && has_class k x) eqn:E; [|reflexivity].
  assert (Hin : In (node_id x)
                  (map node_id (find_all_in (has_class k) n))).
  { apply in_map. apply filter_In. now split. }
  apply Hl in Hin. apply andb_true_iff in E as [Ht _].
  assert (has_id (node_id x) x = true) by now apply has_id_spec.
  congruence.
Qed.

Lemma pruned_keeps_free (l : list ref) (k : string) (n : node) :
  find_all_in (has_class k) n = [] ->
  find_all_in (has_class k) (pruned l n) = [].
Proof.
  intros H. apply filter_nil. intros x' Hx'.
  apply descendants_pruned_sound in Hx' as (x & Hx & -> & _).
  unfold both. rewrite pruned_is_tag, pruned_has_class.
  now apply (proj1 (filter_nil _ _) H).
Qed.

Lemma pruned_tag_ids (l : list ref) (n : node) (r : ref) :
  In r (tag_ids (descendants (pruned l n))) -> In r (tag_ids (descendants n)).
Proof.
  unfold tag_ids. intros H. apply in_map_iff in H as (x' & <- & H).
  apply filter_In in H as [H Ht].
  apply descendants_pruned_sound in H as (x & Hx & -> & _).
  rewrite pruned_node_id. apply in_map. apply filter_In.
  rewrite pruned_is_tag in Ht. now split.
Qed.

(** *** Distinct identities *)

Lemma NoDup_map_inj {A B} (f : A -> B) (l : list A) (a b : A) :
  NoDup (map f l) -> In a l -> In b l -> f a = f b -> a = b.
Proof.
  induction l as [|x l IH]; simpl; intros Hnd Ha Hb E; [destruct Ha|].
  inversion Hnd as [|? ? Hx Hnd']; subst.
  destruct Ha as [<- | Ha], Hb as [<- | Hb]; try reflexivity.
  - exfalso. apply Hx. rewrite E. now apply in_map.
  - exfalso. apply Hx. rewrite <- E. now apply in_map.
  - now apply IH.
Qed.

Lemma one_node_per_id (d : dom) (r : ref) (a b : node) :
  distinct_ids d -> In a (all_nodes d) -> In b (all_nodes d) ->
  has_id r a = true -> has_id r b = true -> a = b.
Proof.
  intros Hd Ha Hb Hia Hib.
  apply has_id_spec in Hia as [Hta Hia], Hib as [Htb Hib].
  apply (NoDup_map_inj node_id (filter is_tag (all_nodes d)));
    [assumption | now apply filter_In | now apply filter_In | congruence].
Qed.

Lemma in_list_sum (l : list nat) (x : nat) : In x l -> x <= list_sum l.
Proof.
  induction l as [|a l IH]; simpl; intros H; [destruct H|].
  destruct H as [<- | H]; [lia|]. apply IH in H. lia.
Qed.

Lemma descendants_smaller (n x : node) :
  In x (descendants n) -> size x < size n.
Proof.
  induction n as [s | i nm c a cs IH] using node_induction; [easy|].
  intros H. apply in_descendants in H as (c0 & Hc0 & H). simpl in Hc0.
  assert (size c0 <= list_sum (map size cs))
    by (apply in_list_sum; now apply in_map).
  simpl. destruct H as [<- | H]; [lia|].
  rewrite Forall_forall in IH. apply (IH c0 Hc0) in H. lia.
Qed.

Lemma in_tag_ids (l : list node) (r : ref) :
  In r (tag_ids l) <-> exists x, In x l /\ has_id r x = true.
Proof.
  unfold tag_ids. rewrite in_map_iff. split.
  - intros (x & <- & H). apply filter_In in H as [H Ht].
    exists x. split; [assumption | now apply has_id_spec].
  - intros (x & H & Hid). apply has_id_spec in Hid as [Ht <-].
    exists x. split; [reflexivity | now apply filter_In].
Qed.

(** An element is not below itself. *)
Lemma not_below_itself (d : dom) (c : ref) (n : node) :
  distinct_ids d -> get d c = Some n -> ~ In c (tag_ids (descendants n)).
Proof.
  intros Hd Hn H. apply get_Some in Hn as [Hn Hid].
  apply in_tag_ids in H as (x & Hx & Hidx).
  assert (x = n).
  { apply (one_node_per_id d c); try assumption.
    apply (all_nodes_closed d n); [assumption | now right]. }
  subst x. apply descendants_smaller in Hx. lia.
Qed.

(** With distinct identities, an element that is not below [c] is outside
    every element that is. *)
Lemma outside_of_descendant (d : dom) (c r t : ref) (n : node) :
  distinct_ids d -> get d c = Some n ->
  In r (tag_ids (descendants n)) -> ~ In t (tag_ids (descendants n)) ->
  outside d r t.
Proof.
  intros Hd Hn Hr Ht. split; [intros ->; contradiction|].
  intros m Hm Hid. apply find_None. intros y Hy.
  destruct (has_id t y) eqn:Hty; [exfalso | reflexivity].
  apply get_Some in Hn as [Hn _].
  apply in_tag_ids in Hr as (m1 & Hm1 & Hid1).
  assert (m = m1).
  { apply (one_node_per_id d r); try assumption.
    apply (all_nodes_closed d n); [assumption | now right]. }
  subst m1. apply Ht. apply in_tag_ids. exists y. split; [|assumption].
  destruct Hy as [<- | Hy]; [assumption|].
  now apply (descendants_trans n m).
Qed.

(** *** Taking elements out keeps the identities distinct *)

Lemma tag_ids_app (l1 l2 : list node) :
  tag_ids (l1 ++ l2) = tag_ids l1 ++ tag_ids l2.
Proof. unfold tag_ids. now rewrite filter_app, map_app. Qed.

Lemma NoDup_app_disjoint {A} (l1 l2 : list A) (a : A) :
  NoDup (l1 ++ l2) -> In a l1 -> ~ In a l2.
Proof.
  induction l1 as [|x l1 IH]; simpl; intros Hnd H1 H2; [destruct H1|].
  inversion Hnd as [|? ? Hx Hnd']; subst. destruct H1 as [<- | H1].
  - apply Hx. apply in_or_app. now right.
  - now apply IH.
Qed.

Lemma without_ids (r a : ref) (ts : list node) :
  In a (tag_ids (all_nodes (without r ts))) -> In a (tag_ids (all_nodes ts)).
Proof.
  intros H. apply in_tag_ids in H as (x' & Hx' & Hid).
  apply without_sound in Hx' as (x & Hx & -> & _).
  rewrite prune_has_id in Hid. apply in_tag_ids. now exists x.
Qed.

Lemma keeps_distinct_step (r : ref) (ts : list node) :
  (forall t, In t ts -> keeps_distinct r (children t)) ->
  keeps_distinct r ts.
Proof.
  induction ts as [|t ts IH]; intros H Hnd; [constructor|].
  change (all_nodes (t :: ts)) with (subtree t ++ all_nodes ts) in Hnd.
  rewrite tag_ids_app in Hnd.
  rewrite without_cons, all_nodes_app, tag_ids_app.
  assert (Hsub : forall a,
             In a (tag_ids (all_nodes (if has_id r t then []
                                       else [prune r t]))) ->
             In a (tag_ids (subtree t))).
  { intros a Ha.
    assert (Ha' : In a (tag_ids (all_nodes (without r [t]))))
      by (unfold without; cbn [flat_map]; now rewrite app_nil_r).
    apply without_ids in Ha'.
    change (all_nodes [t]) with (subtree t ++ []) in Ha'.
    now rewrite app_nil_r in Ha'. }
  apply NoDup_app.
  - destruct (has_id r t) eqn:Hid; [constructor|].
    change (all_nodes [prune r t]) with (subtree (prune r t) ++ []).
    rewrite app_nil_r.
    destruct t as [s | i nm c a cs]; [constructor|].
    apply NoDup_app_remove_r in Hnd.
    change (tag_ids (subtree (Tag i nm c a cs)))
      with (i :: tag_ids (descendants (Tag i nm c a cs))) in Hnd.
    change (tag_ids (subtree (prune r (Tag i nm c a cs))))
      with (i :: tag_ids (descendants (prune r (Tag i nm c a cs)))).
    rewrite descendants_all_nodes in *. rewrite prune_children.
    inversion Hnd as [|? ? Hi Hnd']; subst. constructor.
    + intros Hin. apply Hi. now apply (without_ids r).
    + now apply (H _ (or_introl eq_refl)).
  - apply IH; [intros t' Ht'; apply H; now right|].
    now apply NoDup_app_remove_l in Hnd.
  - intros a Ha Ha'. apply Hsub in Ha. apply without_ids in Ha'.
    now apply (NoDup_app_disjoint _ _ a Hnd).
Qed.

Lemma distinct_without (r : ref) (d : dom) :
  distinct_ids d -> distinct_ids (without r d).
Proof.
  assert (H : forall n, keeps_distinct r (children n)).
  { induction n as [s | i nm c a cs IH] using node_induction.
    - intros _. constructor.
    - apply keeps_distinct_step. now rewrite Forall_forall in IH. }
  apply keeps_distinct_step. intros t _. apply H.
Qed.

Lemma distinct_without_all (l : list ref) (d : dom) :
  distinct_ids d -> distinct_ids (without_all l d).
Proof.
  revert d; induction l as [|r l IH]; intros d H; [assumption|].
  apply (IH (without r d)). now apply distinct_without.
Qed.

(** ** Running the monad *)

Lemma bind_ok {S A B} (m : M S A) (f : A -> M S B) s a s' :
  m s = (Ok a, s') -> bind m f s = f a s'.
Proof. unfold bind. now intros ->. Qed.

Lemma bind_raise {S A B} (m : M S A) (f : A -> M S B) s e s' :
  m s = (Raise e, s') -> bind m f s = (Raise e, s').
Proof. unfold bind. now intros ->. Qed.

Lemma bind_inv {S A B} (m : M S A) (f : A -> M S B) s b s' :
  bind m f s = (Ok b, s') ->
  exists a s1, m s = (Ok a, s1) /\ f a s1 = (Ok b, s').
Proof.
  unfold bind. destruct (m s) as [[a|e] s1]; [eauto | discriminate].
Qed.

(** A loop whose body only updates the state never raises. *)
Lemma for_each_modify {S A} (l : list A) (f : A -> S -> S) (s : S) :
  for_each l (fun a => modify (f a)) s
  = (Ok tt, fold_left (fun s a => f a s) l s).
Proof.
  revert s; induction l as [|a l IH]; intros s; [reflexivity|].
  simpl. unfold bind at 1, modify at 1. apply IH.
Qed.

(** A loop whose body leaves the state as it is, on every element. *)
Lemma for_each_noop {S A} (l : list A) (body : A -> M S unit) (s : S) :
  (forall a, In a l -> body a s = (Ok tt, s)) ->
  for_each l body s = (Ok tt, s).
Proof.
  induction l as [|a l IH]; intros H; [reflexivity|].
  simpl. rewrite (bind_ok _ _ _ _ _ (H a (or_introl eq_refl))).
  apply IH. intros b Hb. apply H. now right.
Qed.

(** ** The spoiler normalizer *)

(** A spoiler with its label and without its text blocks is skipped. *)
Lemma clean_spoiler_skips (d : dom) (spoiler label : ref) :
  first_in d spoiler smalltext = Some label ->
  (first_in d spoiler spoilerContent = None
   \/ exists block, first_in d spoiler spoilerContent = Some block
                    /\ first_in d block spoiler_inner_block = None) ->
  clean_spoiler spoiler d = (Ok tt, d).
Proof.
  intros Hlabel Hblocks.
  unfold clean_spoiler, make_spoiler_header, unwrap_spoiler, find_first,
    get_text_strip_at, _new_tag, not_none, bind, gets, ret.
  rewrite Hlabel.
  destruct Hblocks as [-> | (block & -> & ->)]; reflexivity.
Qed.

(** X21.  The fallback of lines 136 and 138, once the label has been
    read: a spoiler element that has its label block, and whose
    spoiler-content block is missing or holds no spoiler-inner block, is
    left as it is.
    The normalizer raises nothing and no object of the page changes,
    neither in the step for that spoiler nor, when every spoiler of the
    content block is of that kind, in the whole run. *)
Lemma clean_spoiler_without_blocks (d : dom) (spoiler label : ref) :
  first_in d spoiler smalltext = Some label ->
  (first_in d spoiler spoilerContent = None
   \/ exists block, first_in d spoiler spoilerContent = Some block
                    /\ first_in d block spoiler_inner_block = None) ->
  clean_spoiler spoiler d = (Ok tt, d)
  /\ forall content chapterid,
      (forall other, In other (refs_in d content (has_class "spoiler")) ->
         (exists l, first_in d other smalltext = Some l)
         /\ (first_in d other spoilerContent = None
             \/ exists block, first_in d other spoilerContent = Some block
                              /\ first_in d block spoiler_inner_block = None)) ->
      _clean_spoilers content chapterid d = (Ok tt, d).
Proof.
  intros Hlabel Hblocks. split; [now apply (clean_spoiler_skips d spoiler label)|].
  intros content chapterid H.
  unfold _clean_spoilers, find_all, bind, gets. cbv beta iota.
  apply for_each_noop. intros other Hin.
  destruct (H other Hin) as [[l Hl] Hb].
  now apply (clean_spoiler_skips d other l).
Qed.

Example clean_spoiler_hollow :
  clean_spoiler 8 (Demo.content_with Demo.hollow_spoiler)
  = (Ok tt, Demo.content_with Demo.hollow_spoiler)
  /\ _clean_spoilers 5 1 (Demo.content_with Demo.hollow_spoiler)
     = (Ok tt, Demo.content_with Demo.hollow_spoiler).
Proof.
  destruct (clean_spoiler_without_blocks
              (Demo.content_with Demo.hollow_spoiler) 8 9) as [H1 H2].
  - reflexivity.
  - right. exists 11. split; reflexivity.
  - split; [exact H1|]. apply H2.
    intros other [<- | []]. split; [now exists 9|].
    right. exists 11. split; reflexivity.
Defined.

(** C7.  A spoiler element whose spoiler-content block is missing is not
    always left as it is with no error: the label is read (line 127, with
    no test for [None]) before the blocks are looked up (lines 135-138,
    each tested), so on a spoiler with no block at all the normalizer
    raises [AttributeError]. *)
Theorem bare_spoiler_raises :
  first_in (Demo.content_with Demo.bare_spoiler) 8 spoilerContent = None
  /\ _clean_spoilers 5 1 (Demo.content_with Demo.bare_spoiler)
     = (Raise AttributeError, Demo.content_with Demo.bare_spoiler).
Proof. split; reflexivity. Qed.

Lemma for_each_total {S A} (l : list A) (body : A -> M S unit) (s : S) :
  (forall a s0, exists s1, body a s0 = (Ok tt, s1)) ->
  exists s', for_each l body s = (Ok tt, s').
Proof.
  intros H. revert s; induction l as [|a l IH]; intros s; simpl.
  - now exists s.
  - destruct (H a s) as [s1 E]. rewrite (bind_ok _ _ _ _ _ E). apply IH.
Qed.

Lemma insert_before_ok (d : dom) (el p : ref) (new : node) :
  parent_of d el = Some p ->
  insert_before el new d = (Ok tt, map (graft el [new] []) d).
Proof.
  intros H. unfold insert_before, bind, gets, modify. now rewrite H.
Qed.

Lemma insert_after_total (d : dom) (el other : ref) :
  parent_of d el <> None -> other <> el ->
  exists d', insert_after el other d = (Ok tt, d').
Proof.
  intros Hp Hne. unfold insert_after, bind, gets, modify, ret.
  destruct (parent_of d el); [|congruence].
  apply Nat.eqb_neq in Hne. rewrite Hne.
  destruct (get d other); eexists; reflexivity.
Qed.

(** Once the header is built, taking a spoiler out of its wrapper cannot
    fail when the spoiler has a parent. *)
Lemma unwrap_spoiler_total (d : dom) (spoiler : ref) (i : ref) nm c a cs :
  parent_of d spoiler <> None -> i = fresh d ->
  exists d', unwrap_spoiler spoiler (Tag i nm c a cs) d = (Ok tt, d').
Proof.
  intros Hp ->. unfold unwrap_spoiler.
  rewrite (bind_ok (find_first spoiler spoilerContent) _ d _ d eq_refl).
  destruct (first_in d spoiler spoilerContent) as [block|] eqn:Hb;
    [|now exists d].
  rewrite (bind_ok (find_first block spoiler_inner_block) _ d _ d eq_refl).
  destruct (first_in d block spoiler_inner_block) as [inner|] eqn:Hi;
    [|now exists d].
  destruct (parent_of d spoiler) as [p|] eqn:Hp'; [clear Hp|congruence].
  set (hdr := Tag (fresh d) nm c a cs).
  rewrite (bind_ok _ _ _ _ _ (insert_before_ok d spoiler p hdr Hp')).
  destruct (insert_after_total (map (graft spoiler [hdr] []) d)
              (node_id hdr) inner) as [d2 E2].
  { apply (graft_gives_parent d spoiler [hdr] [] hdr p);
      [assumption | now left | reflexivity]. }
  { simpl. apply first_in_In, refs_in_below_fresh in Hi. lia. }
  rewrite (bind_ok _ _ _ _ _ E2).
  rewrite (bind_ok (set_attr inner "style" "") _ d2 tt _ eq_refl).
  match goal with
  | |- context [bind (find_all ?e ?p) _ ?s] =>
      rewrite (bind_ok (find_all e p) _ s _ s eq_refl);
      destruct (for_each_total (refs_in s e p) extract_el s) as [d3 E3]
  end.
  { intros el s0. eexists. reflexivity. }
  rewrite (bind_ok _ _ _ _ _ E3). eexists. reflexivity.
Qed.

(** X22.  The default of lines 128-129: for a spoiler element whose
    label block is there and whose label is empty after trimming, the
    label is a single space, the header built is [[SPOILER -  ]], and the
    normalizer does not fail on a spoiler that has a parent. *)
Lemma blank_label_is_a_space (d : dom) (spoiler label : ref) :
  first_in d spoiler smalltext = Some label ->
  text_strip_ref d label = ""%string ->
  make_spoiler_header spoiler d
  = (Ok (Tag (fresh d) "strong" (Some ["spoiler-header"]) []
           [Text (spoiler_header_of " ")]), d)
  /\ spoiler_header_of " " = "[SPOILER -  ]"%string
  /\ (parent_of d spoiler <> None ->
      exists d', clean_spoiler spoiler d = (Ok tt, d')).
Proof.
  intros Hlabel Hblank.
  assert (E : make_spoiler_header spoiler d
              = (Ok (Tag (fresh d) "strong" (Some ["spoiler-header"]) []
                       [Text (spoiler_header_of " ")]), d)).
  { unfold make_spoiler_header, find_first, get_text_strip_at, _new_tag,
      not_none, bind, gets, ret.
    rewrite Hlabel, Hblank. reflexivity. }
  split; [exact E|]. split; [reflexivity|].
  intros Hp. unfold clean_spoiler. rewrite (bind_ok _ _ _ _ _ E).
  now apply unwrap_spoiler_total.
Qed.

Example blank_label_spoiler_header :
  make_spoiler_header 8 (Demo.content_with Demo.blank_label_spoiler)
  = (Ok (Tag 13 "strong" (Some ["spoiler-header"]) [] [Text "[SPOILER -  ]"]),
     Demo.content_with Demo.blank_label_spoiler)
  /\ exists d', clean_spoiler 8 (Demo.content_with Demo.blank_label_spoiler)
                = (Ok tt, d').
Proof.
  destruct (blank_label_is_a_space
              (Demo.content_with Demo.blank_label_spoiler) 8 9
              eq_refl eq_refl) as (H1 & _ & H2).
  split; [exact H1|]. apply H2. discriminate.
Defined.

(** C6.  A spoiler element whose label block is absent does not get a
    single space as its label: [find] gives [None] and line 127 calls
    [get_text] on it, so the normalizer raises [AttributeError], though
    the spoiler has its text blocks.  Only the empty label is defaulted. *)
Theorem unlabelled_spoiler_raises :
  first_in (Demo.content_with Demo.unlabelled_spoiler) 8 smalltext = None
  /\ _clean_spoilers 5 1 (Demo.content_with Demo.unlabelled_spoiler)
     = (Raise AttributeError, Demo.content_with Demo.unlabelled_spoiler).
Proof. split; reflexivity. Qed.

(** ** The hidden-warning remover without a matching rule *)

(** A loop whose body leaves the state as it is, whether it returns or
    raises, leaves the state as it is. *)
Lemma for_each_frame {S A} (l : list A) (body : A -> M S unit) (s : S) :
  (forall a, In a l -> snd (body a s) = s) ->
  snd (for_each l body s) = s.
Proof.
  induction l as [|a l IH]; intros H; [reflexivity|].
  simpl. unfold bind. pose proof (H a (or_introl eq_refl)) as Ha.
  destruct (body a s) as [[[]|e] s1]; simpl in Ha; subst s1; [|reflexivity].
  apply IH. intros b Hb. apply H. now right.
Qed.

Lemma clean_style_no_match (contents style : ref) (d : dom) (text : string) :
  string_ref d style = Some text -> re_match hidden_pattern text = None ->
  clean_style contents style d = (Ok tt, d).
Proof.
  intros Hs Hm. unfold clean_style, string_at, bind, gets. now rewrite Hs, Hm.
Qed.

Lemma clean_style_no_string (contents style : ref) (d : dom) :
  string_ref d style = None ->
  clean_style contents style d = (Raise TypeError, d).
Proof.
  intros Hs. unfold clean_style, string_at, bind, gets. now rewrite Hs.
Qed.

Section Cleaner.
Variable super_clean : ref -> M dom ref.

(** C9.  On content the generic cleaner has nothing left to do with, and
    a page none of whose style blocks matches the display:none pattern,
    the hidden-warning remover leaves every object of the page, and so
    the content block, as it was; it returns the content block when
    every style block holds one string. *)
Theorem clean_without_matching_rule (contents full_page : ref) (d : dom) :
  super_clean contents d = (Ok contents, d) ->
  (forall style text,
      In style (refs_in d full_page (named "style")) ->
      string_ref d style = Some text ->
      re_match hidden_pattern text = None) ->
  snd (_clean super_clean contents full_page d) = d
  /\ ((forall style, In style (refs_in d full_page (named "style")) ->
                     string_ref d style <> None) ->
      _clean super_clean contents full_page d = (Ok contents, d)).
Proof.
  intros Hsuper Hno. unfold _clean.
  rewrite (bind_ok _ _ _ _ _ Hsuper).
  rewrite (bind_ok (find_all full_page (named "style")) _ d _ d eq_refl).
  split.
  - unfold bind at 1.
    pose proof (for_each_frame (refs_in d full_page (named "style"))
                  (clean_style contents) d) as F.
    destruct (for_each _ _ d) as [[[]|e] s1]; simpl in *; apply F;
      intros style Hin;
      (destruct (string_ref d style) as [text|] eqn:Hs;
       [ rewrite (clean_style_no_match _ _ _ text Hs (Hno _ _ Hin Hs))
       | rewrite (clean_style_no_string _ _ _ Hs) ]; reflexivity).
  - intros Hall.
    rewrite (bind_ok (for_each _ _) _ d tt d); [reflexivity|].
    apply for_each_noop. intros style Hin.
    destruct (string_ref d style) as [text|] eqn:Hs.
    + apply (clean_style_no_match _ _ _ text Hs). now apply (Hno style).
    + now apply Hall in Hin.
Qed.
End Cleaner.

Lemma clean_without_matching_rule_witness :
  Demo._clean 5 0 [Demo.hidden_page ".foo{display:none}"]
  = (Ok 5, [Demo.hidden_page ".foo{display:none}"]).
Proof.
  destruct (clean_without_matching_rule Demo.super_clean 5 0
              [Demo.hidden_page ".foo{display:none}"]) as [_ H].
  - reflexivity.
  - intros style text [<- | []] [= <-]. reflexivity.
  - apply H. intros style [<- | []]. discriminate.
Defined.

(** ** The chapter parser *)

Section Chapter.
Variable datetime : Type.
Variable fetch : Z -> string -> outcome node.
Variable super_clean : ref -> M dom ref.
Variable str : node -> string.
Variable fromtimestamp_int : string -> outcome datetime.

Local Abbreviation _chapter :=
  (_chapter datetime fetch super_clean str fromtimestamp_int).
Local Abbreviation parse_chapter :=
  (parse_chapter datetime super_clean str fromtimestamp_int).
Local Abbreviation _clean := (_clean super_clean).
Local Abbreviation add_author_notes := (add_author_notes str).
Local Abbreviation publication_time :=
  (publication_time datetime fromtimestamp_int).
Local Abbreviation str_at := (str_at str).

Lemma _chapter_eq (self : site) (page_url : string) (chapterid : nat) (w : world) :
  _chapter self page_url chapterid w
  = match fetch (MAXHEADERS w) page_url with
    | Ok soup => (fst (parse_chapter (node_id soup) chapterid [soup]), w)
    | Raise e => (Raise e, w)
    end.
Proof.
  unfold _chapter, bind, _soup, on_page.
  now destruct (fetch (MAXHEADERS w) page_url).
Qed.

(** The chapter parser leaves the world as it is. *)
Lemma _chapter_world (self : site) (page_url : string) (chapterid : nat) (w : world) :
  snd (_chapter self page_url chapterid w) = w.
Proof.
  rewrite _chapter_eq. now destruct (fetch (MAXHEADERS w) page_url).
Qed.

Lemma publication_time_state (soup : ref) (d : dom) :
  snd (publication_time soup d) = d.
Proof.
  unfold publication_time, find_first, attr_at, not_none, bind,
    gets, ret, raise, lift.
  destruct (first_in d soup (has_class "profile-info")) as [info|];
    [|reflexivity].
  destruct (first_in d info (named "time")) as [time|]; [|reflexivity].
  destruct (match get d time with Some n => attr "unixtime" n | None => None end);
    reflexivity.
Qed.

Lemma add_author_notes_state (soup : ref) (s : string) (d : dom) :
  snd (add_author_notes soup s d) = d.
Proof.
  unfold add_author_notes, find_all, find_first, class_at,
    str_at, not_none, bind, gets, ret, raise.
  destruct (refs_in d soup author_note) as [|n0 [|n1 [|n2 l]]];
    try reflexivity.
  destruct (first_in d soup chapter_content) as [c|]; [|reflexivity].
  destruct (parent_of d c) as [p|]; [|reflexivity].
  destruct (first_in d p (named "div")) as [fd|]; [|reflexivity].
  destruct (match get d fd with Some n => classes n | None => None end)
    as [cl|]; [|reflexivity].
  now destruct (existsb _ cl).
Qed.

(** When the chapter parser returns, both cleaners have run on the
    content block of the page, and the string returned is the
    serialization of that block with the author's notes around it. *)
Lemma _chapter_inv (self : site) (page_url : string) (chapterid : nat)
  (w w' : world) (content_str : string) (updated : datetime) :
  _chapter self page_url chapterid w = (Ok (content_str, updated), w') ->
  exists soup content kept d1 d2 s,
    fetch (MAXHEADERS w) page_url = Ok soup
    /\ first_in [soup] (node_id soup) chapter_content = Some content
    /\ _clean content (node_id soup) [soup] = (Ok kept, d1)
    /\ _clean_spoilers content chapterid d1 = (Ok tt, d2)
    /\ str_at content d2 = (Ok s, d2)
    /\ add_author_notes (node_id soup) s d2 = (Ok content_str, d2)
    /\ publication_time (node_id soup) d2 = (Ok updated, d2).
Proof.
  rewrite _chapter_eq.
  destruct (fetch (MAXHEADERS w) page_url) as [soup|e]; [|discriminate].
  intros H. injection H as H _.
  destruct (parse_chapter (node_id soup) chapterid [soup]) as [r d] eqn:E.
  simpl in H. subst r. unfold parse_chapter in E.
  apply bind_inv in E as (c & s1 & E1 & E).
  unfold find_first, gets in E1. injection E1 as <- <-.
  apply bind_inv in E as (content & s1 & E1 & E).
  destruct (first_in [soup] (node_id soup) chapter_content) as [c|] eqn:Hc;
    [|discriminate].
  injection E1 as <- <-.
  apply bind_inv in E as (kept & d1 & E1 & E).
  apply bind_inv in E as ([] & d2 & E2 & E).
  apply bind_inv in E as (s & d3 & E3 & E).
  assert (d3 = d2) by (unfold str_at, gets in E3; congruence).
  subst d3.
  apply bind_inv in E as (cs & d4 & E4 & E).
  pose proof (add_author_notes_state (node_id soup) s d2) as F4.
  rewrite E4 in F4. simpl in F4. subst d4.
  apply bind_inv in E as (u & d5 & E5 & E).
  pose proof (publication_time_state (node_id soup) d2) as F5.
  rewrite E5 in F5. simpl in F5. subst d5.
  injection E as <- <- _.
  now exists soup, c, kept, d1, d2, s.
Qed.

(** C8.  When the page holds exactly two author-note blocks once its
    content has been cleaned, the content string is the first note, a
    horizontal rule, the cleaned content, a horizontal rule and the
    second note. *)
Theorem two_notes_around_content
  (self : site) (page_url : string) (chapterid : nat) (w : world)
  (soup : node) (content kept note0 note1 : ref) (d1 d2 : dom)
  (nc : node) (updated : datetime) :
  fetch (MAXHEADERS w) page_url = Ok soup ->
  first_in [soup] (node_id soup) chapter_content = Some content ->
  _clean content (node_id soup) [soup] = (Ok kept, d1) ->
  _clean_spoilers content chapterid d1 = (Ok tt, d2) ->
  get d2 content = Some nc ->
  refs_in d2 (node_id soup) author_note = [note0; note1] ->
  publication_time (node_id soup) d2 = (Ok updated, d2) ->
  exists n0 n1,
    get d2 note0 = Some n0 /\ get d2 note1 = Some n1
    /\ _chapter self page_url chapterid w
       = (Ok ((str n0 ++ "<hr/>" ++ str nc ++ "<hr/>" ++ str n1)%string,
              updated), w).
Proof.
  intros Hf Hc H1 H2 Hnc Hnotes Ht.
  assert (Hin : forall r, In r [note0; note1] -> get d2 r <> None).
  { intros r Hr. rewrite <- Hnotes in Hr.
    apply refs_in_present in Hr as (n & x & Hn & Hx & Htag & _ & <-).
    apply get_exists; [|assumption].
    apply get_Some in Hn as [Hn _].
    apply (all_nodes_closed d2 n); [assumption | now right]. }
  destruct (get d2 note0) as [n0|] eqn:E0;
    [|now destruct (Hin note0 (or_introl eq_refl))].
  destruct (get d2 note1) as [n1|] eqn:E1;
    [|now destruct (Hin note1 (or_intror (or_introl eq_refl)))].
  exists n0, n1. split; [reflexivity|]. split; [reflexivity|].
  rewrite _chapter_eq, Hf. f_equal.
  unfold parse_chapter, bind, find_first, gets.
  cbv beta iota. rewrite Hc. unfold not_none, ret. cbv beta iota.
  rewrite H1, H2. unfold str_at at 1, gets. rewrite Hnc.
  assert (Hn : add_author_notes (node_id soup) (str nc) d2
               = (Ok (str n0 ++ "<hr/>" ++ str nc ++ "<hr/>" ++ str n1)%string,
                  d2)).
  { unfold add_author_notes, find_all, str_at, bind,
      gets, ret.
    now rewrite Hnotes, E0, E1. }
  rewrite Hn, Ht. reflexivity.
Qed.
End Chapter.

(** C1.  With [skip_spoilers] false the spoilers of a chapter are not
    left as they are: [_chapter] runs the spoiler normalizer whatever the
    option says (line 90), the option being declared (lines 19-24) and
    read nowhere.  On a page whose content holds one spoiler, labelled
    Hint, the chapter returned with [skip_spoilers] false holds the
    header [[SPOILER - Hint]] and no element of class [spoiler]. *)
Theorem include_spoilers_still_normalizes :
  refs_in [Demo.spoiler_page] 5 (has_class "spoiler") = [8]
  /\ Demo._chapter (Demo.site_with false None None) "/spoiler" 1 Demo.world0
     = (Ok (Demo.render Demo.spoiler_page_normalized, 12%Z), Demo.world0)
  /\ find_all_in (has_class "spoiler") Demo.spoiler_page_normalized = []
  /\ map get_text (find_all_in (has_class "spoiler-header")
                     Demo.spoiler_page_normalized)
     = ["[SPOILER - Hint]"%string].
Proof. repeat split; reflexivity. Qed.

Lemma two_notes_around_content_witness :
  exists n0 n1,
    get [Demo.two_notes_page] 20 = Some n0
    /\ get [Demo.two_notes_page] 21 = Some n1
    /\ Demo._chapter (Demo.site_with true None None) "/two-notes" 1 Demo.world0
       = (Ok ((Demo.render n0 ++ "<hr/>"
               ++ Demo.render (Tag 5 "div" (Some ["chapter-content"]) []
                                 [Tag 7 "p" None [] [Text "hello"]])
               ++ "<hr/>" ++ Demo.render n1)%string, 12%Z), Demo.world0).
Proof.
  apply (two_notes_around_content Z Demo.fetch Demo.super_clean Demo.render
           Demo.fromtimestamp_int (Demo.site_with true None None)
           "/two-notes" 1 Demo.world0 Demo.two_notes_page 5 5 20 21
           [Demo.two_notes_page] [Demo.two_notes_page]);
    reflexivity.
Defined.

(** The statement of the specification fails on a page that holds exactly two
    author-note blocks, the first of them inside the content and of a
    class that a style rule hides: the cleaner removes it before the notes
    are looked up, and the one note left is appended. *)
Lemma hidden_note_is_dropped :
  map node_id (find_all_in author_note Demo.hidden_note_page) = [20; 21]
  /\ Demo._chapter (Demo.site_with true None None) "/hidden-note" 1 Demo.world0
     = (Ok ((Demo.render (Tag 5 "div" (Some ["chapter-content"]) []
                            [Tag 7 "p" None [] [Text "hello"]])
             ++ "<hr/>" ++ Demo.render (Demo.note 21 [] "after"))%string,
            12%Z), Demo.world0)
  /\ fst (Demo._chapter (Demo.site_with true None None) "/hidden-note" 1
            Demo.world0)
     <> Ok ((Demo.render (Demo.note 20 ["x"] "inside") ++ "<hr/>"
             ++ Demo.render (Tag 5 "div" (Some ["chapter-content"]) []
                               [Tag 7 "p" None [] [Text "hello"]])
             ++ "<hr/>" ++ Demo.render (Demo.note 21 [] "after"))%string,
            12%Z).
Proof. repeat split; try reflexivity. vm_compute. discriminate. Qed.

(** ** The hidden-warning remover on a matching rule *)

Lemma clean_style_match (contents style : ref) (d : dom) (text k : string)
  (m : match_obj) :
  string_ref d style = Some text -> re_match hidden_pattern text = Some m ->
  group1 m = Some k ->
  clean_style contents style d
  = (Ok tt, without_all (refs_in d contents (has_class k)) d).
Proof.
  intros Hs Hm Hk. unfold clean_style, string_at, find_all, bind, gets.
  rewrite Hs, Hm, Hk.
  apply (for_each_modify (refs_in d contents (has_class k)) without d).
Qed.

Lemma clean_style_no_group (contents style : ref) (d : dom) (text : string)
  (m : match_obj) :
  string_ref d style = Some text -> re_match hidden_pattern text = Some m ->
  group1 m = None ->
  clean_style contents style d = (Ok tt, d).
Proof.
  intros Hs Hm Hk. unfold clean_style, string_at, bind, gets.
  now rewrite Hs, Hm, Hk.
Qed.

Lemma refs_in_tag_ids (d : dom) (c : ref) (n : node) (p : node -> bool) (r : ref) :
  get d c = Some n -> In r (refs_in d c p) -> In r (tag_ids (descendants n)).
Proof.
  intros Hn. unfold refs_in. rewrite Hn. intros H.
  apply in_map_iff in H as (x & <- & H). apply filter_In in H as [H Hp].
  unfold both in Hp. apply andb_true_iff in Hp as [Ht _].
  apply in_tag_ids. exists x. split; [assumption | now apply has_id_spec].
Qed.

Section StyleLoop.
Variables (d0 : dom) (contents : ref) (n0 : node) (styles : list ref).
Hypothesis distinct : distinct_ids d0.
Hypothesis content_there : get d0 contents = Some n0.
Hypothesis styles_outside :
  forall s, In s styles ->
    ~ In s (tag_ids (descendants n0))
    /\ exists m text, get d0 s = Some m /\ children m = [Text text].

(** The state of the loop after the elements [P] of the content were
    destroyed: the content is the block without them, and the style blocks
    are as they were. *)
Lemma content_after (P : list ref) :
  (forall r, In r P -> In r (tag_ids (descendants n0))) ->
  get (without_all P d0) contents = Some (pruned P n0).
Proof.
  intros HP. rewrite get_without_all, content_there; [reflexivity|].
  intros r Hr. apply (outside_of_descendant d0 contents r contents n0);
    auto.
  now apply (not_below_itself d0).
Qed.

Lemma style_after (P : list ref) (s : ref) :
  (forall r, In r P -> In r (tag_ids (descendants n0))) ->
  In s styles ->
  string_ref (without_all P d0) s = string_ref d0 s
  /\ string_ref d0 s <> None.
Proof.
  intros HP Hs. destruct (styles_outside s Hs) as [Hout (m & text & Hm & Hc)].
  unfold string_ref. rewrite get_without_all, Hm.
  - simpl. rewrite (pruned_single_text P m text Hc). split; [reflexivity|].
    destruct m as [x | i nm c a cs]; [discriminate|].
    simpl in Hc. subst cs. discriminate.
  - intros r Hr. apply (outside_of_descendant d0 contents r s n0); auto.
Qed.

Lemma styles_loop (l : list ref) :
  incl l styles ->
  forall P,
    (forall r, In r P -> In r (tag_ids (descendants n0))) ->
    exists P',
      (forall r, In r P' -> In r (tag_ids (descendants n0)))
      /\ for_each l (clean_style contents) (without_all P d0)
         = (Ok tt, without_all (P ++ P') d0)
      /\ forall s text m k,
          In s l -> string_ref d0 s = Some text ->
          re_match hidden_pattern text = Some m -> group1 m = Some k ->
          find_all_in (has_class k) (pruned (P ++ P') n0) = [].
Proof.
  induction l as [|s l IH]; intros Hl P HP.
  - exists []. rewrite app_nil_r. split; [easy|]. split; [reflexivity|].
    intros s text m k [].
  - assert (Hs : In s styles) by (apply Hl; now left).
    assert (Hl' : incl l styles) by (intros x Hx; apply Hl; now right).
    destruct (style_after P s HP Hs) as [Hsame Hsome].
    destruct (string_ref d0 s) as [text|] eqn:Htext; [clear Hsome|congruence].
    simpl for_each.
    destruct (re_match hidden_pattern text) as [m|] eqn:Hm.
    2:{ rewrite (bind_ok _ _ _ _ _
                   (clean_style_no_match contents s _ text Hsame Hm)).
        destruct (IH Hl' P HP) as (P' & HP' & Hrun & Hfree).
        exists P'. split; [assumption|]. split; [assumption|].
        intros s' text' m' k' [<- | Hin] H1 H2 H3; [congruence|].
        now apply (Hfree s' text' m' k'). }
    destruct (group1 m) as [k|] eqn:Hk.
    2:{ rewrite (bind_ok _ _ _ _ _
                   (clean_style_no_group contents s _ text m Hsame Hm Hk)).
        destruct (IH Hl' P HP) as (P' & HP' & Hrun & Hfree).
        exists P'. split; [assumption|]. split; [assumption|].
        intros s' text' m' k' [<- | Hin] H1 H2 H3; [congruence|].
        now apply (Hfree s' text' m' k'). }
    rewrite (bind_ok _ _ _ _ _
               (clean_style_match contents s _ text k m Hsame Hm Hk)).
    set (L := refs_in (without_all P d0) contents (has_class k)).
    assert (HL : forall r, In r L -> In r (tag_ids (descendants n0))).
    { intros r Hr. apply (pruned_tag_ids P).
      apply (refs_in_tag_ids (without_all P d0) contents _ (has_class k));
        [now apply content_after | assumption]. }
    assert (HPL : forall r, In r (P ++ L) -> In r (tag_ids (descendants n0))).
    { intros r Hr. apply in_app_or in Hr as [Hr | Hr]; auto. }
    rewrite <- without_all_app.
    destruct (IH Hl' (P ++ L) HPL) as (P2 & HP2 & Hrun & Hfree).
    exists (L ++ P2). split.
    { intros r Hr. apply in_app_or in Hr as [Hr | Hr]; auto. }
    rewrite app_assoc. split; [assumption|].
    intros s' text' m' k' [<- | Hin] H1 H2 H3.
    + assert (text' = text) by congruence. subst text'.
      assert (m' = m) by congruence. subst m'.
      assert (k' = k) by congruence. subst k'.
      rewrite !pruned_app. apply pruned_keeps_free.
      unfold L, refs_in. rewrite (content_after P HP).
      apply pruned_removes_class.
    + now apply (Hfree s' text' m' k').
Qed.
End StyleLoop.

Section HiddenWarnings.
Variable super_clean : ref -> M dom ref.

(** The run of the hidden-warning remover: it returns the content block
    after destroying some of the elements below it, and for each matching
    style block none of the elements left is of its class. *)
Lemma _clean_run (contents full_page : ref) (d_in d0 : dom) (n0 : node) :
  super_clean contents d_in = (Ok contents, d0) ->
  distinct_ids d0 ->
  get d0 contents = Some n0 ->
  (forall s, In s (refs_in d0 full_page (named "style")) ->
     ~ In s (tag_ids (descendants n0))
     /\ exists m text, get d0 s = Some m /\ children m = [Text text]) ->
  exists P,
    _clean super_clean contents full_page d_in
    = (Ok contents, without_all P d0)
    /\ get (without_all P d0) contents = Some (pruned P n0)
    /\ forall s text m k,
        In s (refs_in d0 full_page (named "style")) ->
        string_ref d0 s = Some text ->
        re_match hidden_pattern text = Some m -> group1 m = Some k ->
        find_all_in (has_class k) (pruned P n0) = [].
Proof.
  intros Hsuper Hd Hn Hstyles.
  destruct (styles_loop d0 contents n0 (refs_in d0 full_page (named "style"))
              Hd Hn Hstyles (refs_in d0 full_page (named "style"))
              (fun x H => H) [] (fun r H => match H with end))
    as (P & HP & Hrun & Hfree).
  exists P. split; [|split].
  - unfold _clean. rewrite (bind_ok _ _ _ _ _ Hsuper).
    rewrite (bind_ok (find_all full_page (named "style")) _ d0 _ d0 eq_refl).
    simpl in Hrun. now rewrite (bind_ok _ _ _ _ _ Hrun).
  - now apply (content_after d0 contents n0 Hd Hn).
  - exact Hfree.
Qed.

(** When the generic cleaner works in place, the objects of the page have
    distinct identities, and every style block of the page holds one
    string and lies outside the chapter content, the hidden-warning
    remover returns the content block, and for each style block whose
    string matches the pattern of line 118 from its start, with class
    [k], no element of class [k] is left in that block. *)
Lemma clean_removes_hidden_class (contents full_page : ref)
  (d_in d0 : dom) (n0 : node) :
  super_clean contents d_in = (Ok contents, d0) ->
  distinct_ids d0 ->
  get d0 contents = Some n0 ->
  (forall s, In s (refs_in d0 full_page (named "style")) ->
     ~ In s (tag_ids (descendants n0))
     /\ exists m text, get d0 s = Some m /\ children m = [Text text]) ->
  exists d',
    _clean super_clean contents full_page d_in = (Ok contents, d')
    /\ forall s text m k,
        In s (refs_in d0 full_page (named "style")) ->
        string_ref d0 s = Some text ->
        re_match hidden_pattern text = Some m -> group1 m = Some k ->
        free_of_class k d' contents.
Proof.
  intros Hsuper Hd Hn Hstyles.
  destruct (_clean_run contents full_page d_in d0 n0 Hsuper Hd Hn Hstyles)
    as (P & Hrun & Hget & Hfree).
  exists (without_all P d0). split; [assumption|].
  intros s text m k Hs Ht Hm Hk. exists (pruned P n0).
  split; [assumption | now apply (Hfree s text m k)].
Qed.
End HiddenWarnings.

(** The statement of the specification fails on the rule of its own
    example, [.foo{display:none}]: the declaration does not end in a
    semicolon, the pattern does not match it, and the element of class
    [foo] stays in the content that is serialized. *)
Lemma rule_without_semicolon_hides_nothing :
  string_ref [Demo.hidden_page ".foo{display:none}"] 3
  = Some ".foo{display:none}"%string
  /\ refs_in [Demo.hidden_page ".foo{display:none}"] 5 (has_class "foo") = [6]
  /\ Demo._clean 5 0 [Demo.hidden_page ".foo{display:none}"]
     = (Ok 5, [Demo.hidden_page ".foo{display:none}"])
  /\ Demo._chapter (Demo.site_with true None None) "/hidden" 1 Demo.world0
     = (Ok (Demo.render Demo.hidden_content, 12%Z), Demo.world0)
  /\ map node_id (find_all_in (has_class "foo") Demo.hidden_content) = [6].
Proof. repeat split; reflexivity. Qed.

(** The removal reaches the content that is serialized because the generic
    cleaner works in place: [_chapter] drops what [_clean] returns, so
    with a generic cleaner that returns a copy the hidden element is
    removed from the copy and stays in the chapter. *)
Example copying_cleaner_keeps_hidden_element :
  _chapter Z Demo.fetch Demo.copying_clean Demo.render Demo.fromtimestamp_int
    (Demo.site_with true None None) "/hidden-semicolon" 1 Demo.world0
  = (Ok (Demo.render Demo.hidden_content, 12%Z), Demo.world0).
Proof. reflexivity. Qed.

(** ** The spoiler normalizer keeps hidden classes out of the content *)

Lemma keeps_labels_prune (r : ref) : keeps_labels (prune r).
Proof.
  intros [s | i nm c a cs]; repeat split; try reflexivity;
    simpl; intros s' E; first [discriminate | subst; reflexivity].
Qed.

Lemma keeps_labels_update_attrs (r : ref) f : keeps_labels (update_attrs r f).
Proof.
  intros [s | i nm c a cs]; repeat split; try reflexivity;
    simpl; intros s' E; first [discriminate | subst; reflexivity].
Qed.

Lemma keeps_labels_graft (r : ref) (before after : list node) :
  keeps_labels (graft r before after).
Proof.
  intros [s | i nm c a cs]; repeat split; try reflexivity;
    simpl; intros s' E; first [discriminate | subst; reflexivity].
Qed.

Lemma keeps_has_id (f : node -> node) (r : ref) (x : node) :
  keeps_labels f -> has_id r (f x) = has_id r x.
Proof.
  intros H. destruct (H x) as (Ht & Hi & _).
  destruct (has_id r x) eqn:E.
  - apply has_id_spec in E as [E1 E2]. apply has_id_spec. split; congruence.
  - destruct (has_id r (f x)) eqn:E'; [|reflexivity].
    apply has_id_spec in E' as [E1 E2].
    assert (has_id r x = true) by (apply has_id_spec; split; congruence).
    congruence.
Qed.

Lemma keeps_has_class (f : node -> node) (k : string) (x : node) :
  keeps_labels f -> has_class k (f x) = has_class k x.
Proof.
  intros H. destruct (H x) as (Ht & _ & Hc & _).
  remember (f x) as y eqn:Ey. clear Ey.
  destruct x as [s | i nm c a cs], y as [s' | i' nm' c' a' cs'];
    simpl in *; try discriminate; try reflexivity.
  now subst c'.
Qed.

Lemma keeps_header (f : node -> node) (x : node) :
  keeps_labels f -> is_header x -> is_header (f x).
Proof.
  intros H (Hn & Hc & s & Hs). destruct (H x) as (_ & _ & Hc' & Hn' & Hs').
  split; [now rewrite Hn'|]. split; [congruence|]. exists s. now apply Hs'.
Qed.

(** *** Where the nodes come from *)

Lemma sound_below_prune (r : ref) : sound_below (prune r) [].
Proof.
  intros x y' H. left.
  apply descendants_prune_sound in H as (y & Hy & -> & _). now exists y.
Qed.

Lemma all_nodes_map_sound (f : node -> node) (ins : list node) (ts : list node)
  (x' : node) :
  sound_below f ins ->
  In x' (all_nodes (map f ts)) ->
  (exists x, In x (all_nodes ts) /\ x' = f x) \/ In x' ins.
Proof.
  intros Hf H. apply in_all_nodes in H as (t' & Ht' & H).
  apply in_map_iff in Ht' as (t & <- & Ht).
  destruct H as [<- | H].
  - left. exists t. split; [|reflexivity].
    apply in_all_nodes. exists t. split; [assumption | now left].
  - apply Hf in H as [(y & Hy & ->) | H]; [left | now right].
    exists y. split; [|reflexivity].
    apply in_all_nodes. exists t. split; [assumption | now right].
Qed.

Lemma sound_below_update_attrs (r : ref) f : sound_below (update_attrs r f) [].
Proof.
  intros x. induction x as [s | i nm c a cs IH] using node_induction;
    intros y' H; [destruct H|].
  left. simpl in H. apply in_flat_map in H as (c' & Hc' & H).
  apply in_map_iff in Hc' as (c0 & <- & Hc0).
  rewrite Forall_forall in IH.
  destruct H as [<- | H].
  - exists c0. split; [|reflexivity].
    apply in_descendants. exists c0. split; [assumption | now left].
  - apply (IH c0 Hc0) in H as [(y & Hy & ->) | []].
    exists y. split; [|reflexivity].
    apply in_descendants. exists c0. split; [assumption | now right].
Qed.

Lemma sound_below_graft (r : ref) (before after : list node) :
  sound_below (graft r before after) (all_nodes (before ++ after)).
Proof.
  intros x. induction x as [s | i nm c a cs IH] using node_induction;
    intros y' H; [destruct H|].
  simpl in H. apply in_flat_map in H as (c' & Hc' & H).
  apply in_flat_map in Hc' as (c0 & Hc0 & Hc').
  rewrite Forall_forall in IH.
  assert (Himg : In y' (subtree (graft r before after c0)) ->
                 (exists y, In y (descendants (Tag i nm c a cs))
                            /\ y' = graft r before after y)
                 \/ In y' (all_nodes (before ++ after))).
  { intros [<- | Hy].
    - left. exists c0. split; [|reflexivity].
      apply in_descendants. exists c0. split; [assumption | now left].
    - apply (IH c0 Hc0) in Hy as [(y & Hy & ->) | Hy]; [left | now right].
      exists y. split; [|reflexivity].
      apply in_descendants. exists c0. split; [assumption | now right]. }
  destruct (has_id r c0).
  - apply in_app_or in Hc' as [Hb | [<- | Ha]].
    + right. rewrite all_nodes_app. apply in_or_app. left.
      apply in_all_nodes. now exists c'.
    + now apply Himg.
    + right. rewrite all_nodes_app. apply in_or_app. right.
      apply in_all_nodes. now exists c'.
  - destruct Hc' as [<- | []]. now apply Himg.
Qed.

(** *** Looking an element up after a change *)

Lemma lookup_map (f : node -> node) (c : ref) (ts : list node) :
  (forall t, In t ts ->
     find (has_id c) (subtree (f t))
     = option_map f (find (has_id c) (subtree t))) ->
  find (has_id c) (all_nodes (map f ts))
  = option_map f (find (has_id c) (all_nodes ts)).
Proof.
  induction ts as [|t ts IH]; intros H; [reflexivity|].
  change (all_nodes (map f (t :: ts)))
    with (subtree (f t) ++ all_nodes (map f ts)).
  change (all_nodes (t :: ts)) with (subtree t ++ all_nodes ts).
  rewrite !find_app, (H t (or_introl eq_refl)), IH
    by (intros t' Ht'; apply H; now right).
  now destruct (find (has_id c) (subtree t)).
Qed.

Lemma lookup_prune_tree (r c : ref) (x : node) :
  (forall m, In m (descendants x) -> has_id r m = true ->
             find (has_id c) (subtree m) = None) ->
  find (has_id c) (subtree (prune r x))
  = option_map (prune r) (find (has_id c) (subtree x)).
Proof.
  intros H. unfold subtree. simpl find. rewrite prune_has_id.
  destruct (has_id c x); [reflexivity|].
  rewrite !descendants_all_nodes, prune_children.
  apply lookup_after_without. intros m Hm.
  apply H. now rewrite descendants_all_nodes.
Qed.

Lemma get_map_prune (d : dom) (r c : ref) :
  outside d r c ->
  get (map (prune r) d) c = option_map (prune r) (get d c).
Proof.
  intros [_ H]. apply lookup_map. intros t Ht. apply lookup_prune_tree.
  intros m Hm. apply H. apply in_all_nodes. exists t.
  split; [assumption | now right].
Qed.

Lemma lookup_update_attrs_tree (r c : ref) f (x : node) :
  find (has_id c) (subtree (update_attrs r f x))
  = option_map (update_attrs r f) (find (has_id c) (subtree x)).
Proof.
  induction x as [s | i nm cl a cs IH] using node_induction; [reflexivity|].
  unfold subtree. simpl find. destruct (Nat.eqb i c); [reflexivity|].
  change (flat_map (fun c0 => c0 :: descendants c0)
            (map (update_attrs r f) cs))
    with (all_nodes (map (update_attrs r f) cs)).
  change (flat_map (fun c0 => c0 :: descendants c0) cs) with (all_nodes cs).
  apply lookup_map. now rewrite Forall_forall in IH.
Qed.

Lemma get_update_attrs (d : dom) (r c : ref) f :
  get (map (update_attrs r f) d) c
  = option_map (update_attrs r f) (get d c).
Proof. apply lookup_map. intros t _. apply lookup_update_attrs_tree. Qed.

Lemma lookup_graft_tree (r c : ref) (before after : list node) (x : node) :
  (forall y, In y (all_nodes (before ++ after)) -> has_id c y = false) ->
  find (has_id c) (subtree (graft r before after x))
  = option_map (graft r before after) (find (has_id c) (subtree x)).
Proof.
  intros Hins.
  assert (Hb : find (has_id c) (all_nodes before) = None).
  { apply find_None. intros y Hy. apply Hins.
    rewrite all_nodes_app. apply in_or_app. now left. }
  assert (Ha : find (has_id c) (all_nodes after) = None).
  { apply find_None. intros y Hy. apply Hins.
    rewrite all_nodes_app. apply in_or_app. now right. }
  induction x as [s | i nm cl a cs IH] using node_induction; [reflexivity|].
  unfold subtree. simpl find. destruct (Nat.eqb i c); [reflexivity|].
  change (flat_map (fun c0 => c0 :: descendants c0) cs) with (all_nodes cs).
  match goal with
  | |- find _ (flat_map _ ?l) = _ => change (find (has_id c) (all_nodes l)
                                             = option_map (graft r before after)
                                                 (find (has_id c) (all_nodes cs)))
  end.
  induction cs as [|x cs IHcs]; [reflexivity|].
  inversion IH as [|? ? Hx Hcs]; subst.
  specialize (IHcs Hcs). cbn [flat_map].
  change (all_nodes (x :: cs)) with (subtree x ++ all_nodes cs).
  rewrite all_nodes_app, !find_app, IHcs.
  destruct (has_id r x).
  - rewrite all_nodes_app, find_app, Hb.
    change (all_nodes (graft r before after x :: after))
      with (subtree (graft r before after x) ++ all_nodes after).
    rewrite find_app, Hx, Ha.
    now destruct (find (has_id c) (subtree x)).
  - change (all_nodes [graft r before after x])
      with (subtree (graft r before after x) ++ []).
    rewrite app_nil_r, Hx.
    now destruct (find (has_id c) (subtree x)).
Qed.

Lemma get_graft (d : dom) (r c : ref) (before after : list node) :
  (forall y, In y (all_nodes (before ++ after)) -> has_id c y = false) ->
  get (map (graft r before after) d) c
  = option_map (graft r before after) (get d c).
Proof.
  intros H. apply lookup_map. intros t _. now apply lookup_graft_tree.
Qed.

(** *** The invariant *)

Lemma named_div_not_strong (x : node) :
  named "div" x = true -> named "strong" x = false.
Proof.
  destruct x as [s | i nm c a cs]; simpl; [easy|].
  intros H. apply String.eqb_eq in H. now subst nm.
Qed.

Lemma named_input_not_strong (x : node) :
  named "input" x = true -> named "strong" x = false.
Proof.
  destruct x as [s | i nm c a cs]; simpl; [easy|].
  intros H. apply String.eqb_eq in H. now subst nm.
Qed.

Section Invariant.
Variables (G : list ref) (contents : ref) (k : string).
Hypothesis contents_apart : ~ In contents G.

Local Abbreviation good := (good G).
Local Abbreviation ok_node := (ok_node G contents k).
Local Abbreviation kept_apart := (kept_apart G contents k).

Lemma good_image (f : node -> node) (x : node) :
  keeps_labels f -> good x -> good (f x).
Proof.
  intros Hf Hx Ht. destruct (Hf x) as (Ht' & Hi & _).
  rewrite Ht' in Ht. rewrite Hi.
  destruct (Hx Ht) as [H | H]; [now left | right; now apply keeps_header].
Qed.

Lemma ok_node_image (f : node -> node) (ins : list node) (x : node) :
  keeps_labels f -> sound_below f ins ->
  (forall y, In y ins -> good y) ->
  ok_node x -> ok_node (f x).
Proof.
  intros Hf Hs Hins (Hc & Hn & Hk).
  destruct (Hf x) as (Ht & Hi & _ & Hnm & _).
  split; [|split].
  - rewrite Ht, Hi. intros Htag HG y' [<- | Hy'].
    + apply good_image; [assumption|]. apply (Hc Htag HG). now left.
    + apply Hs in Hy' as [(y & Hy & ->) | Hy']; [|now apply Hins].
      apply good_image; [assumption|]. apply (Hc Htag HG). now right.
  - rewrite (keeps_has_id f contents x Hf), Hnm. exact Hn.
  - rewrite Ht, Hi, (keeps_has_class f k x Hf). intros Htag HG Hcl.
    apply keeps_header; auto.
Qed.

Lemma kept_apart_image (f : node -> node) (ins : list node) (d d' : dom) :
  keeps_labels f -> sound_below f ins ->
  (forall x', In x' (all_nodes d') ->
     (exists x, In x (all_nodes d) /\ x' = f x) \/ In x' ins) ->
  (forall y, In y ins -> good y /\ ok_node y) ->
  get d' contents = option_map f (get d contents) ->
  kept_apart d -> kept_apart d'.
Proof.
  intros Hf Hs Hnodes Hins Hget [Hok (n & Hn & Hbelow)]. split.
  - intros m' Hm'. apply Hnodes in Hm' as [(m & Hm & ->) | Hm'].
    + apply (ok_node_image f ins); auto. intros y Hy. now apply Hins.
    + now apply Hins.
  - exists (f n). rewrite Hget, Hn. split; [reflexivity|].
    intros y' Hy'. apply Hs in Hy' as [(y & Hy & ->) | Hy'].
    + apply good_image; auto.
    + now apply Hins.
Qed.

(** The content block is outside every element of [G]. *)
Lemma outside_contents (d : dom) (r : ref) :
  kept_apart d -> In r G -> outside d r contents.
Proof.
  intros [Hok _] Hr. split; [intros ->; contradiction|].
  intros m Hm Hid. apply find_None. intros y Hy.
  destruct (has_id contents y) eqn:Hc; [exfalso | reflexivity].
  apply has_id_spec in Hid as [Htag <-].
  destruct (Hok m Hm) as (Hclosed & _).
  pose proof (Hclosed Htag Hr y Hy) as Hgood.
  pose proof Hc as Hc'. apply has_id_spec in Hc' as [Hty Hiy].
  destruct (Hgood Hty) as [HG | (Hstrong & _)].
  - rewrite Hiy in HG. contradiction.
  - destruct (Hok y (all_nodes_closed d m y Hm Hy)) as (_ & Hn & _).
    rewrite (Hn Hc) in Hstrong. discriminate.
Qed.

Lemma kept_apart_without (d : dom) (r : ref) :
  kept_apart d -> In r G -> kept_apart (without r d).
Proof.
  intros Hd Hr. apply (kept_apart_image (prune r) [] d); auto.
  - apply keeps_labels_prune.
  - apply sound_below_prune.
  - intros x' Hx'. left. apply without_sound in Hx' as (x & Hx & -> & _).
    now exists x.
  - intros y [].
  - apply get_without. now apply outside_contents.
Qed.

Lemma kept_apart_map_prune (d : dom) (r : ref) :
  kept_apart d -> In r G -> kept_apart (map (prune r) d).
Proof.
  intros Hd Hr. apply (kept_apart_image (prune r) [] d); auto.
  - apply keeps_labels_prune.
  - apply sound_below_prune.
  - intros x' Hx'.
    apply (all_nodes_map_sound (prune r) []) in Hx'; auto.
    apply sound_below_prune.
  - intros y [].
  - apply get_map_prune. now apply outside_contents.
Qed.

Lemma kept_apart_update_attrs (d : dom) (r : ref) f :
  kept_apart d -> kept_apart (map (update_attrs r f) d).
Proof.
  intros Hd. apply (kept_apart_image (update_attrs r f) [] d); auto.
  - apply keeps_labels_update_attrs.
  - apply sound_below_update_attrs.
  - intros x' Hx'.
    apply (all_nodes_map_sound (update_attrs r f) []) in Hx'; auto.
    apply sound_below_update_attrs.
  - intros y [].
  - apply get_update_attrs.
Qed.

Lemma kept_apart_graft (d : dom) (r : ref) (before after : list node) :
  kept_apart d ->
  (forall y, In y (all_nodes (before ++ after)) ->
     good y /\ ok_node y /\ has_id contents y = false) ->
  kept_apart (map (graft r before after) d).
Proof.
  intros Hd Hins.
  apply (kept_apart_image (graft r before after)
           (all_nodes (before ++ after)) d); auto.
  - apply keeps_labels_graft.
  - apply sound_below_graft.
  - intros x' Hx'.
    apply (all_nodes_map_sound (graft r before after)
             (all_nodes (before ++ after))) in Hx'; auto.
    apply sound_below_graft.
  - intros y Hy. destruct (Hins y Hy) as (H1 & H2 & _). now split.
  - apply get_graft. intros y Hy. now apply Hins.
Qed.

(** An element that is taken out of its parent goes on as a root. *)
Lemma kept_apart_add_root (d : dom) (n : node) :
  kept_apart d -> (forall y, In y (subtree n) -> ok_node y) ->
  kept_apart (d ++ [n]).
Proof.
  intros [Hok (c & Hc & Hbelow)] Hn. split.
  - intros m Hm. rewrite all_nodes_app in Hm.
    apply in_app_or in Hm as [Hm | Hm]; [now apply Hok|].
    apply Hn. change (all_nodes [n]) with (subtree n ++ []) in Hm.
    now rewrite app_nil_r in Hm.
  - exists c. split; [|assumption].
    unfold get in *. now rewrite all_nodes_app, find_app, Hc.
Qed.

(** What is found below an element of [G] and is no [strong] element is
    an element of [G]. *)
Lemma found_below_G (d : dom) (el r : ref) (p : node -> bool) :
  kept_apart d -> In el G -> In r (refs_in d el p) ->
  (forall x, p x = true -> named "strong" x = false) ->
  In r G.
Proof.
  intros [Hok _] Hel Hr Hp.
  apply refs_in_present in Hr as (n & x & Hn & Hx & Htag & Hpx & <-).
  apply get_Some in Hn as [Hn Hid]. apply has_id_spec in Hid as [Htn <-].
  destruct (Hok n Hn) as (Hclosed & _).
  destruct (Hclosed Htn Hel x (or_intror Hx) Htag) as [H | (Hs & _)];
    [assumption|].
  rewrite (Hp x Hpx) in Hs. discriminate.
Qed.

(** Every node of an element of [G] fits the invariant and is no content
    block. *)
Lemma nodes_of_G (d : dom) (r : ref) (x : node) :
  kept_apart d -> In r G -> get d r = Some x ->
  forall y, In y (subtree x) ->
    good y /\ ok_node y /\ has_id contents y = false.
Proof.
  intros Hd Hr Hx y Hy. pose proof Hd as [Hok _].
  apply get_Some in Hx as [Hx Hid].
  pose proof (all_nodes_closed d x y Hx Hy) as Hyd.
  pose proof Hid as Hid'. apply has_id_spec in Hid' as [Htag <-].
  destruct (Hok x Hx) as (Hclosed & _).
  split; [now apply Hclosed|]. split; [now apply Hok|].
  destruct (outside_contents d (node_id x) Hd Hr) as [_ Hout].
  now apply (proj1 (find_None _ _) (Hout x Hx Hid)).
Qed.
End Invariant.

Lemma for_each_invariant {S A} (Inv : S -> Prop) (l : list A)
  (body : A -> M S unit) (s s' : S) :
  (forall a s0 s1, In a l -> Inv s0 -> body a s0 = (Ok tt, s1) -> Inv s1) ->
  Inv s -> for_each l body s = (Ok tt, s') -> Inv s'.
Proof.
  revert s; induction l as [|a l IH]; intros s Hbody Hs H.
  - injection H as <-. assumption.
  - simpl in H. apply bind_inv in H as ([] & s1 & E & H).
    apply (IH s1); [|now apply (Hbody a s s1); auto; now left|assumption].
    intros b s0 s2 Hb. apply Hbody. now right.
Qed.

Section Normalizer.
Variables (G : list ref) (contents : ref) (k : string).
Hypothesis contents_apart : ~ In contents G.

Local Abbreviation good := (good G).
Local Abbreviation ok_node := (ok_node G contents k).
Local Abbreviation kept_apart := (kept_apart G contents k).

Lemma extract_el_kept (d d' : dom) (el : ref) :
  kept_apart d -> In el G -> extract_el el d = (Ok tt, d') -> kept_apart d'.
Proof.
  intros Hd Hel H. unfold extract_el, modify in H. injection H as <-.
  destruct (parent_of d el); [|assumption].
  destruct (get d el) as [n|] eqn:Hn; [|assumption].
  apply kept_apart_add_root.
  - now apply kept_apart_map_prune.
  - intros y Hy.
    now apply (nodes_of_G G contents k contents_apart d el n Hd Hel Hn y).
Qed.

Lemma insert_header_kept (d d' : dom) (el : ref) (s : string) :
  kept_apart d ->
  insert_before el
    (Tag (fresh d) "strong" (Some ["spoiler-header"]) [] [Text s]) d
  = (Ok tt, d') ->
  kept_apart d'.
Proof.
  intros Hd H. unfold insert_before, bind, gets, modify, raise in H.
  destruct (parent_of d el); [|discriminate]. injection H as <-.
  apply kept_apart_graft; auto.
  assert (Hfresh : Nat.eqb (fresh d) contents = false).
  { destruct Hd as [_ (n & Hn & _)]. apply get_Some in Hn as [Hn Hid].
    apply has_id_spec in Hid as [_ <-]. apply fresh_above in Hn.
    apply Nat.eqb_neq. lia. }
  assert (Hh : is_header
                 (Tag (fresh d) "strong" (Some ["spoiler-header"]) []
                    [Text s])).
  { split; [reflexivity|]. split; [reflexivity|]. now exists s. }
  intros y [<- | [<- | []]].
  - split; [now right|]. split; [|exact Hfresh].
    split; [|split].
    + intros _ _ x [<- | [<- | []]]; [now right | discriminate].
    + cbn [has_id]. rewrite Hfresh. discriminate.
    + intros _ _ _. exact Hh.
  - split; [discriminate|]. split; [|reflexivity].
    split; [|split]; discriminate.
Qed.

Lemma insert_after_kept (d d' : dom) (el other : ref) :
  kept_apart d -> In other G ->
  insert_after el other d = (Ok tt, d') -> kept_apart d'.
Proof.
  intros Hd Ho H. unfold insert_after, bind, gets, modify, raise, ret in H.
  destruct (parent_of d el); [|discriminate].
  destruct (Nat.eqb other el); [discriminate|].
  destruct (get d other) as [x|] eqn:Hx; injection H as <-; [|assumption].
  apply kept_apart_graft; auto.
  - now apply kept_apart_without.
  - intros y Hy. simpl in Hy. rewrite app_nil_r in Hy.
    now apply (nodes_of_G G contents k contents_apart d other x Hd Ho Hx y).
Qed.

Lemma unwrap_spoiler_kept (d d' : dom) (spoiler : ref) (s : string) :
  kept_apart d -> In spoiler G ->
  unwrap_spoiler spoiler
    (Tag (fresh d) "strong" (Some ["spoiler-header"]) [] [Text s]) d
  = (Ok tt, d') ->
  kept_apart d'.
Proof.
  intros Hd Hsp H. unfold unwrap_spoiler in H.
  apply bind_inv in H as (block & s1 & E & H).
  unfold find_first, gets in E. injection E as <- <-.
  destruct (first_in d spoiler spoilerContent) as [block|] eqn:Hb.
  2:{ injection H as <-. assumption. }
  assert (HbG : In block G).
  { apply (found_below_G G contents k d spoiler block spoilerContent);
      auto using first_in_In.
    intros x Hx. unfold spoilerContent, both in Hx.
    apply andb_true_iff in Hx as [Hx _]. now apply named_div_not_strong. }
  apply bind_inv in H as (inner & s1 & E & H).
  unfold find_first, gets in E. injection E as <- <-.
  destruct (first_in d block spoiler_inner_block) as [inner|] eqn:Hi.
  2:{ injection H as <-. assumption. }
  assert (HiG : In inner G).
  { apply (found_below_G G contents k d block inner spoiler_inner_block);
      auto using first_in_In.
    intros x Hx. unfold spoiler_inner_block, both in Hx.
    apply andb_true_iff in Hx as [Hx _]. now apply named_div_not_strong. }
  apply bind_inv in H as ([] & d1 & E1 & H).
  apply insert_header_kept in E1; [|assumption].
  apply bind_inv in H as ([] & d2 & E2 & H).
  apply (insert_after_kept d1 d2) in E2; [|assumption|assumption].
  apply bind_inv in H as ([] & d3 & E3 & H).
  unfold set_attr, modify in E3. injection E3 as <-.
  pose proof (kept_apart_update_attrs G contents k d2 inner
                (set_assoc "style" "") E2) as E3.
  apply bind_inv in H as (to_remove & d4 & E4 & H).
  unfold find_all, gets in E4. injection E4 as <- <-.
  apply bind_inv in H as ([] & d5 & E5 & H).
  assert (HG : forall el,
             In el (refs_in (map (update_attrs inner (set_assoc "style" "")) d2)
                      spoiler (either (named "div") (named "input"))) ->
             In el G).
  { intros el Hel.
    apply (found_below_G G contents k _ spoiler el
             (either (named "div") (named "input")) E3 Hsp Hel).
    intros x Hx. unfold either in Hx. apply orb_true_iff in Hx as [Hx | Hx];
      [now apply named_div_not_strong | now apply named_input_not_strong]. }
  apply (for_each_invariant kept_apart) in E5; [| |assumption].
  - now apply (extract_el_kept d5 d' spoiler).
  - intros el s0 s2 Hel Hs0. apply extract_el_kept; auto.
Qed.

Lemma clean_spoiler_kept (d d' : dom) (spoiler : ref) :
  kept_apart d -> In spoiler G ->
  clean_spoiler spoiler d = (Ok tt, d') -> kept_apart d'.
Proof.
  intros Hd Hsp H. unfold clean_spoiler in H.
  apply bind_inv in H as (hdr & d1 & E & H).
  unfold make_spoiler_header, find_first, get_text_strip_at, _new_tag,
    not_none, bind, gets, ret, raise in E.
  destruct (first_in d spoiler smalltext) as [label|]; [|discriminate].
  injection E as <- <-.
  exact (unwrap_spoiler_kept d d' spoiler _ Hd Hsp H).
Qed.

Lemma _clean_spoilers_kept (d d' : dom) (content : ref) (chapterid : nat) :
  kept_apart d ->
  (forall r, In r (refs_in d content (has_class "spoiler")) -> In r G) ->
  _clean_spoilers content chapterid d = (Ok tt, d') -> kept_apart d'.
Proof.
  intros Hd HG H. unfold _clean_spoilers in H.
  apply bind_inv in H as (spoilers & d1 & E & H).
  unfold find_all, gets in E. injection E as <- <-.
  apply (for_each_invariant kept_apart) in H; auto.
  intros sp s0 s1 Hsp Hs0. apply clean_spoiler_kept; auto.
Qed.

(** Under the invariant, an element of class [k] below the content block
    is a header. *)
Lemma kept_apart_content (d : dom) :
  kept_apart d ->
  exists n, get d contents = Some n
            /\ forall x, In x (descendants n) -> is_tag x = true ->
                         has_class k x = true -> is_header x.
Proof.
  intros [Hok (n & Hn & Hbelow)]. exists n. split; [assumption|].
  intros x Hx Htag Hk. destruct (Hbelow x Hx Htag) as [HG | H]; [|assumption].
  apply get_Some in Hn as [Hn _].
  assert (Hxd : In x (all_nodes d))
    by (apply (all_nodes_closed d n); [assumption | now right]).
  destruct (Hok x Hxd) as (_ & _ & Hd). now apply Hd.
Qed.
End Normalizer.

Lemma pruned_named (l : list ref) (nm : string) (n : node) :
  named nm (pruned l n) = named nm n.
Proof.
  revert n; induction l as [|x l IH]; intros n; [reflexivity|].
  unfold pruned in *. simpl. rewrite IH. now destruct n.
Qed.

(** The invariant holds when the normalizer starts, for the elements that
    are below the content block then. *)
Lemma kept_apart_initial (d : dom) (contents : ref) (n : node) (k : string) :
  distinct_ids d -> get d contents = Some n ->
  named "strong" n = false ->
  find_all_in (has_class k) n = [] ->
  kept_apart (tag_ids (descendants n)) contents k d.
Proof.
  intros Hd Hn Hstrong Hfree.
  pose proof Hn as Hn'. apply get_Some in Hn' as [Hnd Hnid].
  assert (Hbelow : forall m, In m (all_nodes d) -> is_tag m = true ->
                     In (node_id m) (tag_ids (descendants n)) ->
                     In m (descendants n)).
  { intros m Hm Htag HG. apply in_tag_ids in HG as (m1 & Hm1 & Hid).
    assert (m = m1); [|now subst].
    apply (one_node_per_id d (node_id m)); try assumption.
    - apply (all_nodes_closed d n); [assumption | now right].
    - now apply has_id_spec. }
  split.
  - intros m Hm. split; [|split].
    + intros Htag HG x Hx Hxt. left.
      apply in_tag_ids. exists x. split; [|now apply has_id_spec].
      pose proof (Hbelow m Hm Htag HG) as Hmn.
      destruct Hx as [<- | Hx]; [assumption|].
      now apply (descendants_trans n m).
    + intros Hid. assert (m = n); [|now subst].
      now apply (one_node_per_id d contents).
    + intros Htag HG Hk. exfalso.
      pose proof (Hbelow m Hm Htag HG) as Hmn.
      apply (proj1 (filter_nil _ _) Hfree) in Hmn.
      unfold both in Hmn. rewrite Htag, Hk in Hmn. discriminate.
  - exists n. split; [assumption|]. intros x Hx Htag. left.
    apply in_tag_ids. exists x. split; [assumption | now apply has_id_spec].
Qed.

(** ** Hidden classes and the chapter that is returned *)

Section HiddenChapter.
Variable datetime : Type.
Variable fetch : Z -> string -> outcome node.
Variable super_clean : ref -> M dom ref.
Variable str : node -> string.
Variable fromtimestamp_int : string -> outcome datetime.

Local Abbreviation _chapter :=
  (_chapter datetime fetch super_clean str fromtimestamp_int).
Local Abbreviation _clean := (_clean super_clean).
Local Abbreviation add_author_notes := (add_author_notes str).

(** C4.  Let the generic cleaner work in place and leave objects with
    distinct identities, the content block still a [div], and let every
    style block of the page hold one string and lie outside the content
    block.  Then the hidden-warning remover returns, and for each style
    block whose string matches the pattern of line 118 from its start (a
    single-class selector whose declarations hold [display:none] followed
    by a semicolon), with class [k]: no element of class [k] is left in
    the content block, and there is none in the content that is
    serialized into the string a chapter returns.  Every matching style
    block is applied; and when no style block matches, the remover
    changes nothing. *)
Theorem hidden_class_absent_from_chapter
  (self : site) (page_url : string) (chapterid : nat) (w : world)
  (soup : node) (contents : ref) (d0 : dom) (n0 : node) :
  fetch (MAXHEADERS w) page_url = Ok soup ->
  first_in [soup] (node_id soup) chapter_content = Some contents ->
  super_clean contents [soup] = (Ok contents, d0) ->
  distinct_ids d0 ->
  get d0 contents = Some n0 ->
  named "div" n0 = true ->
  (forall s, In s (refs_in d0 (node_id soup) (named "style")) ->
     ~ In s (tag_ids (descendants n0))
     /\ exists m text, get d0 s = Some m /\ children m = [Text text]) ->
  exists d1,
    _clean contents (node_id soup) [soup] = (Ok contents, d1)
    /\ (forall s text m k,
          In s (refs_in d0 (node_id soup) (named "style")) ->
          string_ref d0 s = Some text ->
          re_match hidden_pattern text = Some m -> group1 m = Some k ->
          free_of_class k d1 contents
          /\ forall content_str updated w',
              _chapter self page_url chapterid w
              = (Ok (content_str, updated), w') ->
              exists d2 n2,
                get d2 contents = Some n2
                /\ add_author_notes (node_id soup) (str n2) d2
                   = (Ok content_str, d2)
                /\ find_all_in (has_class k) n2 = [])
    /\ ((forall s text,
            In s (refs_in d0 (node_id soup) (named "style")) ->
            string_ref d0 s = Some text ->
            re_match hidden_pattern text = None) ->
        d1 = d0).
Proof.
  intros Hf Hc Hsuper Hd Hn Hdiv Hstyles.
  destruct (_clean_run super_clean contents (node_id soup) [soup] d0 n0
              Hsuper Hd Hn Hstyles) as (P & Hrun & Hget & Hfree).
  exists (without_all P d0). split; [assumption|]. split.
  2:{ intros Hno.
      assert (E : _clean contents (node_id soup) [soup] = (Ok contents, d0)).
      { unfold _clean. rewrite (bind_ok _ _ _ _ _ Hsuper).
        rewrite (bind_ok (find_all (node_id soup) (named "style")) _ d0 _ d0
                   eq_refl).
        rewrite (bind_ok (for_each _ _) _ d0 tt d0); [reflexivity|].
        apply for_each_noop. intros s Hs.
        destruct (Hstyles s Hs) as (_ & m & text & Hm & Hch).
        assert (Ht : string_ref d0 s = Some text).
        { unfold string_ref. rewrite Hm.
          destruct m as [x | i nm c a cs]; [discriminate|].
          simpl in Hch. now subst cs. }
        apply (clean_style_no_match contents s d0 text Ht).
        now apply (Hno s). }
      congruence. }
  intros s text m k Hs Ht Hm Hk.
  pose proof (Hfree s text m k Hs Ht Hm Hk) as Hk0.
  split; [now exists (pruned P n0)|].
  intros content_str updated w' H.
  apply _chapter_inv in H
    as (soup' & c' & kept & d1 & d2 & s0 & H1 & H2 & H3 & H4 & H5 & H6 & _).
  rewrite Hf in H1. injection H1 as <-.
  rewrite Hc in H2. injection H2 as <-.
  rewrite Hrun in H3. injection H3 as <- <-.
  set (d1 := without_all P d0) in *.
  set (n1 := pruned P n0) in *.
  assert (Hd1 : distinct_ids d1) by now apply distinct_without_all.
  assert (Hinit : kept_apart (tag_ids (descendants n1)) contents k d1).
  { apply kept_apart_initial; auto.
    unfold n1. rewrite pruned_named. now apply named_div_not_strong. }
  assert (Hapart : ~ In contents (tag_ids (descendants n1)))
    by now apply (not_below_itself d1).
  apply (_clean_spoilers_kept (tag_ids (descendants n1)) contents k Hapart)
    in H4; [|assumption|].
  2:{ intros r Hr. now apply (refs_in_tag_ids d1 contents n1) in Hr. }
  apply kept_apart_content in H4 as (n2 & Hn2 & Hheaders).
  exists d2, n2. split; [assumption|]. split.
  - unfold str_at, gets in H5. rewrite Hn2 in H5. injection H5 as <-.
    assumption.
  - apply filter_nil. intros x Hx. unfold both.
    destruct (is_tag x) eqn:Htag; [|reflexivity].
    destruct (has_class k x) eqn:Hcl; [|reflexivity].
    pose proof (Hheaders x Hx Htag Hcl) as Hh.
    now rewrite (hidden_class_is_no_header_class text k m Hm Hk x Hh) in Hcl.
Qed.
End HiddenChapter.

Lemma hidden_class_absent_from_chapter_witness :
  exists d1,
    Demo._clean 5 0 [Demo.hidden_page ".foo{display:none;}"] = (Ok 5, d1)
    /\ free_of_class "foo" d1 5
    /\ exists d2 n2,
        get d2 5 = Some n2
        /\ add_author_notes Demo.render 0 (Demo.render n2) d2
           = (Ok (Demo.render (Tag 5 "div" (Some ["chapter-content"]) []
                                 [Tag 7 "p" None [] [Text "hello"]])), d2)
        /\ find_all_in (has_class "foo") n2 = [].
Proof.
  destruct (hidden_class_absent_from_chapter Z Demo.fetch Demo.super_clean
              Demo.render Demo.fromtimestamp_int
              (Demo.site_with true None None) "/hidden-semicolon" 1
              Demo.world0 (Demo.hidden_page ".foo{display:none;}") 5
              [Demo.hidden_page ".foo{display:none;}"] Demo.hidden_content)
    as (d1 & Hclean & H & _).
  - reflexivity.
  - reflexivity.
  - reflexivity.
  - unfold distinct_ids. simpl.
    repeat (constructor; [simpl; intuition discriminate|]). constructor.
  - reflexivity.
  - reflexivity.
  - intros s [<- | []]. split.
    + simpl. intuition discriminate.
    + eexists. eexists. split; reflexivity.
  - exists d1. split; [exact Hclean|].
    destruct (H 3 ".foo{display:none;}"%string
                {| m_end := 19; group1 := Some "foo"%string |} "foo"%string)
      as [Hfree Hchapter]; try reflexivity.
    + now left.
    + split; [exact Hfree|].
      apply (Hchapter
               (Demo.render (Tag 5 "div" (Some ["chapter-content"]) []
                               [Tag 7 "p" None [] [Text "hello"]]))
               12%Z Demo.world0).
      reflexivity.
Defined.

(** ** The story page parser *)

Lemma guards_are_the_range (o : options) (index : nat) :
  negb (before_offset (offset o) index) && negb (beyond_limit (limit o) index)
  = in_option_range o index.
Proof.
  unfold before_offset, beyond_limit, in_option_range.
  destruct (offset o) as [x|], (limit o) as [y|]; simpl;
    repeat match goal with
           | |- context [Z.eqb ?a ?b] => destruct (Z.eqb_spec a b)
           | |- context [Z.ltb ?a ?b] => destruct (Z.ltb_spec a b)
           | |- context [Z.leb ?a ?b] => destruct (Z.leb_spec a b)
           end; simpl; try reflexivity; lia.
Qed.

(** The example of the specification: ten chapters, offset 2, limit 5. *)
Example rows_in_range_2_5 :
  rows_in_range {| skip_spoilers := true; offset := Some 2%Z; limit := Some 5%Z |}
    [0; 1; 2; 3; 4; 5; 6; 7; 8; 9]
  = [2; 3; 4].
Proof. reflexivity. Qed.

Section Extract.
Variable datetime : Type.
Variable fetch : Z -> string -> outcome node.
Variable _join_url : string -> string -> string.
Variable super_clean : ref -> M dom ref.
Variable str : node -> string.
Variable fromtimestamp_int : string -> outcome datetime.

Local Abbreviation Chapter := (Chapter datetime).
Local Abbreviation Story := (Story datetime).
Local Abbreviation _chapter :=
  (_chapter datetime fetch super_clean str fromtimestamp_int).
Local Abbreviation chapter_loop :=
  (chapter_loop datetime fetch _join_url super_clean str fromtimestamp_int).
Local Abbreviation new_story := (new_story datetime _join_url str).
Local Abbreviation extract :=
  (extract datetime fetch _join_url super_clean str fromtimestamp_int).
Local Abbreviation chapter_of_row :=
  (chapter_of_row datetime fetch _join_url super_clean str fromtimestamp_int).
Local Abbreviation chapters_of_rows :=
  (chapters_of_rows datetime fetch _join_url super_clean str
     fromtimestamp_int).


Lemma with_chapters_url (story : Story) (cs : list Chapter) :
  url _ (with_chapters _ story cs) = url _ story.
Proof.
  revert story; induction cs as [|c cs IH]; intros story; [reflexivity|].
  unfold with_chapters in *. simpl. now rewrite IH.
Qed.

Lemma with_chapters_contents (story : Story) (cs : list Chapter) :
  contents _ (with_chapters _ story cs) = contents _ story ++ cs.
Proof.
  revert story; induction cs as [|c cs IH]; intros story.
  - simpl. now rewrite app_nil_r.
  - unfold with_chapters in *. simpl. rewrite IH. simpl.
    now rewrite <- app_assoc.
Qed.

(** The chapter loop leaves the world as it is. *)
Lemma chapter_loop_world (self : site) (story : Story)
  (rows : list (nat * node)) (w : world) :
  snd (chapter_loop self story rows w) = w.
Proof.
  revert story; induction rows as [|[index chapter] rows IH]; intros story;
    [reflexivity|].
  simpl. destruct (before_offset _ index); [apply IH|].
  destruct (beyond_limit _ index); [apply IH|].
  unfold bind at 1.
  pose proof (_chapter_world datetime fetch super_clean str fromtimestamp_int
                self (_join_url (url _ story) (data_url chapter))
                (len _ story + 1) w) as Hw.
  destruct (_chapter _ _ _ w) as [[[c u]|e] w1]; simpl in Hw; subst w1;
    [|reflexivity].
  unfold not_none, bind, ret, raise.
  destruct (find_in _ chapter) as [a|]; [|reflexivity].
  destruct (string_of a) as [t|]; [|reflexivity].
  apply IH.
Qed.

(** What the chapter loop returns: the story with one chapter more for
    each row whose index is in the range of the options, in the order
    of the rows. *)
Lemma chapter_loop_spec (self : site) (story story' : Story)
  (rows : list (nat * node)) (w w' : world) :
  chapter_loop self story rows w = (Ok story', w') ->
  exists cs,
    story' = with_chapters _ story cs
    /\ chapters_of_rows self (url _ story) w (len _ story)
         (map snd (filter (fun ir => in_option_range (opts self) (fst ir))
                     rows)) cs.
Proof.
  revert story; induction rows as [|[index chapter] rows IH]; intros story H.
  - injection H as <- _. now exists [].
  - simpl in H. simpl filter.
    rewrite <- guards_are_the_range.
    destruct (before_offset _ index); [now apply IH|].
    destruct (beyond_limit _ index); [now apply IH|].
    apply bind_inv in H as ([c u] & w1 & E1 & H).
    pose proof (_chapter_world datetime fetch super_clean str
                  fromtimestamp_int self
                  (_join_url (url _ story) (data_url chapter))
                  (len _ story + 1) w) as Hw.
    rewrite E1 in Hw. simpl in Hw. subst w1.
    apply bind_inv in H as (a & w2 & E2 & H).
    destruct (find_in _ chapter) as [a'|] eqn:Ea; [|discriminate].
    injection E2 as -> <-.
    apply bind_inv in H as (t & w3 & E3 & H).
    destruct (string_of a) as [t'|] eqn:Et; [|discriminate].
    injection E3 as -> <-.
    apply IH in H as (cs & -> & Hcs).
    exists ({| ch_title := strip t; ch_contents := c; ch_date := u |} :: cs).
    split; [reflexivity|]. simpl. split.
    + exists a, t. rewrite Nat.add_1_r in E1. now repeat split.
    + unfold len in *. simpl in Hcs. rewrite length_app in Hcs.
      simpl in Hcs. now rewrite Nat.add_1_r in Hcs.
Qed.

(** And it returns whenever each of those rows yields its chapter. *)
Lemma chapter_loop_returns (self : site) (story : Story)
  (rows : list (nat * node)) (w : world) (cs : list Chapter) :
  chapters_of_rows self (url _ story) w (len _ story)
    (map snd (filter (fun ir => in_option_range (opts self) (fst ir)) rows))
    cs ->
  chapter_loop self story rows w = (Ok (with_chapters _ story cs), w).
Proof.
  revert story cs; induction rows as [|[index chapter] rows IH];
    intros story cs H.
  - destruct cs; [reflexivity | destruct H].
  - simpl. simpl filter in H. rewrite <- guards_are_the_range in H.
    destruct (before_offset _ index); [now apply IH|].
    destruct (beyond_limit _ index); [now apply IH|].
    simpl in H. destruct cs as [|c cs]; [destruct H|].
    destruct H as [(a & t & Ha & Ht & Htitle & Hc) H].
    rewrite Nat.add_1_r. rewrite (bind_ok _ _ _ _ _ Hc).
    rewrite Ha. unfold not_none at 1.
    rewrite (bind_ok (ret a) _ w a w eq_refl).
    rewrite Ht. unfold not_none at 1.
    rewrite (bind_ok (ret t) _ w t w eq_refl).
    replace {| ch_title := strip t; ch_contents := ch_contents _ c;
               ch_date := ch_date _ c |} with c
      by (destruct c; simpl in *; congruence).
    apply (IH (add _ story c) cs).
    unfold len. simpl. rewrite length_app, Nat.add_1_r. exact H.
Qed.

Lemma new_story_spec (base : string) (soup : node) (w w' : world)
  (story : Story) :
  new_story base soup w = (Ok story, w') ->
  w' = w /\ contents _ story = [].
Proof.
  unfold new_story, not_none, item, bind, ret, raise.
  destruct (find_in (named "h1") soup) as [h1|]; [|discriminate].
  destruct (string_of h1); [|discriminate].
  destruct (find_in (both (named "meta")
                          (has_attr_value "property" "books:author")) soup)
    as [ma|]; [|discriminate].
  destruct (attr "content" ma); [|discriminate].
  destruct (find_in (both (named "meta")
                          (has_attr_value "property" "og:url")) soup)
    as [mu|]; [|discriminate].
  destruct (attr "content" mu); [|discriminate].
  destruct (find_in (both (named "img") (has_class "thumbnail")) soup)
    as [img|]; [|discriminate].
  destruct (attr "src" img); [|discriminate].
  intros [= <- <-]. now split.
Qed.

Lemma extract_inv (self : site) (page_url : string) (w w' : world)
  (story : Story) :
  extract self page_url w = (Ok story, w') ->
  let w1 := {| MAXHEADERS := 1000; footnotes := footnotes w |} in
  exists m workid soup head story0 story1,
    re_match (workid_pattern (domain (cls self))) page_url = Some m
    /\ group1 m = Some workid
    /\ fetch (MAXHEADERS w)
         ("https://www." ++ domain (cls self) ++ ".com/fiction/" ++ workid)
       = Ok soup
    /\ find_in (named "head") soup = Some head
    /\ new_story (base_of page_url head) soup w1 = (Ok story0, w1)
    /\ chapter_loop self story0 (enumerate (chapter_rows soup)) w1
       = (Ok story1, w1)
    /\ story = with_footnotes _ story1 (footnotes w)
    /\ w' = {| MAXHEADERS := MAXHEADERS w; footnotes := [] |}.
Proof.
  intros H w1. unfold extract in H.
  apply bind_inv in H as (m & s1 & E & H).
  destruct (re_match _ page_url) as [m'|]; [|discriminate].
  injection E as -> <-.
  apply bind_inv in H as (workid & s1 & E & H).
  destruct (group1 m) as [g|] eqn:Hg; [|discriminate].
  injection E as -> <-.
  apply bind_inv in H as (soup & s1 & E & H).
  unfold _soup in E.
  destruct (fetch (MAXHEADERS w) _) as [soup'|] eqn:Hf; [|discriminate].
  injection E as -> <-.
  apply bind_inv in H as (head & s1 & E & H).
  destruct (find_in (named "head") soup) as [head'|] eqn:Hh; [|discriminate].
  injection E as -> <-.
  apply bind_inv in H as (original & s1 & E & H).
  injection E as <- <-.
  apply bind_inv in H as ([] & s1 & E & H).
  injection E as <-. fold w1 in H.
  apply bind_inv in H as (story0 & s1 & E0 & H).
  destruct (new_story_spec _ _ _ _ _ E0) as [-> _].
  apply bind_inv in H as (story1 & s1 & E1 & H).
  pose proof (chapter_loop_world self story0 (enumerate (chapter_rows soup))
                w1) as Hw.
  rewrite E1 in Hw. simpl in Hw. subst s1.
  injection H as <- <-.
  now exists m, workid, soup, head, story0, story1.
Qed.

(** When [extract] returns, the header limit is what it was before. *)
Lemma extract_restores_on_success (self : site) (page_url : string)
  (w w' : world) (story : Story) :
  extract self page_url w = (Ok story, w') ->
  MAXHEADERS w' = MAXHEADERS w.
Proof.
  intros H. apply extract_inv in H
    as (m & workid & soup & head & s0 & s1 & _ & _ & _ & _ & _ & _ & _ & ->).
  reflexivity.
Qed.

(** C3.  The story [extract] returns holds one chapter for each table
    row whose zero-based index over the full row list is in
    [offset, limit), and no other, in the order of the table; an unset
    offset is 0, and an unset limit, or a limit of 0, is no bound. *)
Theorem extract_chapters_in_range (self : site) (page_url : string)
  (w w' : world) (story : Story) :
  extract self page_url w = (Ok story, w') ->
  exists m workid soup,
    re_match (workid_pattern (domain (cls self))) page_url = Some m
    /\ group1 m = Some workid
    /\ fetch (MAXHEADERS w)
         ("https://www." ++ domain (cls self) ++ ".com/fiction/" ++ workid)
       = Ok soup
    /\ chapters_of_rows self (url _ story)
         {| MAXHEADERS := 1000; footnotes := footnotes w |} 0
         (rows_in_range (opts self) (chapter_rows soup))
         (contents _ story).
Proof.
  intros H. apply extract_inv in H
    as (m & workid & soup & head & s0 & s1 & Hm & Hg & Hf & _ & H0 & H1
        & -> & _).
  exists m, workid, soup. repeat (split; [assumption|]).
  apply new_story_spec in H0 as [_ H0].
  apply chapter_loop_spec in H1 as (cs & -> & H1).
  unfold len in H1. rewrite H0 in H1. simpl in H1.
  simpl. rewrite with_chapters_url, with_chapters_contents, H0. exact H1.
Qed.
End Extract.

Lemma extract_chapters_in_range_witness :
  exists m workid soup,
    re_match (workid_pattern "royalroad") "https://royalroad.com/fiction/1/x"
    = Some m
    /\ group1 m = Some workid
    /\ Demo.fetch 100 ("https://www." ++ "royalroad" ++ ".com/fiction/" ++ workid)
       = Ok soup
    /\ chapters_of_rows Z Demo.fetch Demo.join_url Demo.super_clean Demo.render
         Demo.fromtimestamp_int (Demo.site_with true (Some 1%Z) (Some 2%Z))
         "https://www.royalroad.com/fiction/1/a-story"
         {| MAXHEADERS := 1000; footnotes := [] |} 0
         (rows_in_range (opts (Demo.site_with true (Some 1%Z) (Some 2%Z)))
            (chapter_rows soup))
         [{| ch_title := "Chapter One";
             ch_contents := Demo.render (Tag 5 "div" (Some ["chapter-content"])
                                           [] [Text "one"]);
             ch_date := 12%Z |}].
Proof.
  apply (extract_chapters_in_range Z Demo.fetch Demo.join_url Demo.super_clean
           Demo.render Demo.fromtimestamp_int
           (Demo.site_with true (Some 1%Z) (Some 2%Z))
           "https://royalroad.com/fiction/1/x" Demo.world0 Demo.world0
           {| title := "A Story";
              author := "An Author";
              url := "https://www.royalroad.com/fiction/1/a-story";
              cover_url := "/cover.jpg";
              summary := Demo.render (Tag 8 "div" (Some ["description"]) []
                                        [Text "A summary."]);
              tags := ["Fantasy"];
              contents :=
                [{| ch_title := "Chapter One";
                    ch_contents :=
                      Demo.render (Tag 5 "div" (Some ["chapter-content"]) []
                                     [Text "one"]);
                    ch_date := 12%Z |}];
              story_footnotes := [] |}).
  reflexivity.
Defined.

(** The statement of the specification fails for a limit of 0: the range
    [offset, 0) holds no index, and the story has every chapter. *)
Lemma limit_zero_is_no_limit :
  (forall index : nat, ~ (0 <= Z.of_nat index < 0)%Z)
  /\ exists story,
      Demo.extract (Demo.site_with true None (Some 0%Z))
        "https://royalroad.com/fiction/1/x" Demo.world0
      = (Ok story, Demo.world0)
      /\ map (ch_title Z) (contents Z story)
         = ["Chapter Zero"; "Chapter One"; "Chapter Two"]%string.
Proof.
  split; [lia|]. eexists. split; [vm_compute; reflexivity | reflexivity].
Qed.

(** C2.  A run of [extract] that fails after the header limit was raised
    leaves it raised: on a story page with no heading, and on a story
    whose second chapter cannot be fetched, the limit was 100 before and
    is 1000 after. *)
Theorem extract_failure_leaves_limit_raised :
  MAXHEADERS Demo.world0 = 100%Z
  /\ Demo.extract (Demo.site_with true None None)
       "https://royalroad.com/fiction/2/x" Demo.world0
     = (Raise AttributeError, {| MAXHEADERS := 1000; footnotes := [] |})
  /\ Demo.extract (Demo.site_with true None None)
       "https://royalroad.com/fiction/3/x" Demo.world0
     = (Raise FetchError, {| MAXHEADERS := 1000; footnotes := [] |}).
Proof. repeat split; reflexivity. Qed.
(** ** More on the URLs: the two sites, and the landing page *)

(** The pattern of [extract] (line 48) on a story URL: the group is the
    numeric id. *)
Lemma workid_story_url cls scheme www ident rest :
  is_scheme scheme -> is_www www -> is_ident ident ->
  stops is_digit rest = true ->
  exists m,
    re_match (workid_pattern (domain cls))
      (story_url cls scheme www (ident ++ rest)) = Some m
    /\ group1 m = Some ident.
Proof.
  intros Hs Hw [Hne Hd] Hrest.
  unfold re_match, workid_pattern.
  rewrite rmatch_seq. cbn [rmatch Nat.eqb].
  rewrite fiction_prefix_app by assumption.
  rewrite rmatch_plus_greedy; try assumption.
  - replace (0 + String.length (story_url cls scheme www "")
             + String.length ident
             - (0 + String.length (story_url cls scheme www "")))
      with (String.length ident) by lia.
    rewrite substring_prefix.
    destruct (strip_prefix "/" rest);
      rewrite ?star_greedy by apply final_total; eexists; split; reflexivity.
  - intros pos s g.
    destruct (strip_prefix "/" s);
      rewrite ?star_greedy by apply final_total; discriminate.
Qed.

Lemma workid_inv cls u m :
  re_match (workid_pattern (domain cls)) u = Some m ->
  exists scheme www ident rest,
    is_scheme scheme /\ is_www www /\ is_ident ident
    /\ stops is_digit rest = true
    /\ u = story_url cls scheme www (ident ++ rest)
    /\ group1 m = Some ident.
Proof.
  intros H. pose proof H as H0. revert H0.
  unfold re_match, workid_pattern.
  rewrite rmatch_seq. cbn [rmatch Nat.eqb]. intros E.
  apply fiction_prefix_inv in E as (scheme & www & s & Hs & Hw & -> & E).
  apply (rmatch_plus_inv is_digit) in E as (a & b & -> & Hne & Ha & Hb & E).
  2:{ intros pos s' g.
      destruct (strip_prefix "/" s');
        rewrite ?star_greedy by apply final_total; discriminate. }
  exists scheme, www, a, b. repeat (split; [assumption|]).
  split; [now split|]. split; [assumption|]. split; [reflexivity|].
  destruct (workid_story_url cls scheme www a b Hs Hw (conj Hne Ha) Hb)
    as (m' & Hm' & Hg).
  congruence.
Qed.

(** A story URL of one site is not a story URL of the other. *)
Lemma story_url_one_site scheme www s scheme' www' s' :
  is_scheme scheme -> is_www www -> is_scheme scheme' -> is_www www' ->
  story_url RoyalRoad scheme www s <> story_url RoyalRoadL scheme' www' s'.
Proof.
  intros [-> | ->] [-> | ->] [-> | ->] [-> | ->]; cbn; discriminate.
Qed.

(** X1.  The two sites share no URL: a URL that [matches] accepts for
    one of the two classes is refused for the other, which [royalroad]
    being a prefix of [royalroadldl] does not prevent. *)
Theorem matches_one_site (u c : string) :
  (matches RoyalRoad u = Some c -> matches RoyalRoadL u = None)
  /\ (matches RoyalRoadL u = Some c -> matches RoyalRoad u = None).
Proof.
  split; intros H.
  - destruct (matches RoyalRoadL u) as [c'|] eqn:E; [|reflexivity].
    apply matches_inv in H as (s1 & w1 & i1 & r1 & Hs1 & Hw1 & _ & _ & Hu & _).
    apply matches_inv in E as (s2 & w2 & i2 & r2 & Hs2 & Hw2 & _ & _ & Hu' & _).
    rewrite Hu in Hu'. now apply story_url_one_site in Hu'.
  - destruct (matches RoyalRoad u) as [c'|] eqn:E; [|reflexivity].
    apply matches_inv in H as (s1 & w1 & i1 & r1 & Hs1 & Hw1 & _ & _ & Hu & _).
    apply matches_inv in E as (s2 & w2 & i2 & r2 & Hs2 & Hw2 & _ & _ & Hu' & _).
    rewrite Hu' in Hu. now apply story_url_one_site in Hu.
Qed.

Lemma matches_one_site_witness :
  matches RoyalRoadL "https://www.royalroad.com/fiction/6752/lament" = None
  /\ matches RoyalRoad "https://www.royalroadldl.com/fiction/6752" = None.
Proof.
  split.
  - apply (proj1 (matches_one_site
                    "https://www.royalroad.com/fiction/6752/lament"
                    "https://www.royalroad.com/fiction/6752/")).
    reflexivity.
  - apply (proj2 (matches_one_site
                    "https://www.royalroadldl.com/fiction/6752"
                    "https://www.royalroadldl.com/fiction/6752/")).
    reflexivity.
Defined.

(** X2.  Every URL below a canonical URL is canonicalized to it: when
    [matches] returns [c], it returns [c] on [c] followed by anything
    (a slug, a chapter path, a query). *)
Theorem matches_below_canonical (cls : site_class) (u c rest : string) :
  matches cls u = Some c -> matches cls (c ++ rest) = Some c.
Proof.
  intros H.
  apply matches_inv in H
    as (scheme & www & ident & r & Hs & Hw & Hi & _ & _ & ->).
  pose proof (matches_story_url cls scheme www ident ("/" ++ rest)
                Hs Hw Hi eq_refl) as E.
  rewrite story_url_app in E. rewrite append_assoc. exact E.
Qed.

Lemma matches_below_canonical_witness :
  matches RoyalRoad
    ("http://royalroad.com/fiction/6752/" ++ "lament/chapter/9/the-end?x=1")
  = Some "http://royalroad.com/fiction/6752/".
Proof.
  apply (matches_below_canonical RoyalRoad "http://royalroad.com/fiction/6752").
  reflexivity.
Defined.

(** X3.  The id need not be followed by a slash: whatever follows the
    digits, if it does not start with a digit, is dropped, so
    [.../fiction/12abc] is the story 12. *)
Theorem matches_needs_no_separator (cls : site_class)
  (scheme www ident rest : string) :
  is_scheme scheme -> is_www www -> is_ident ident ->
  stops is_digit rest = true ->
  matches cls (story_url cls scheme www ident ++ rest)
  = Some (story_url cls scheme www ident ++ "/")%string.
Proof.
  intros Hs Hw Hi Hr. rewrite <- story_url_app.
  now apply matches_story_url.
Qed.

Lemma matches_needs_no_separator_witness :
  matches RoyalRoad ("https://royalroad.com/fiction/12" ++ "abc")
  = Some "https://royalroad.com/fiction/12/".
Proof.
  apply (matches_needs_no_separator RoyalRoad "https" "" "12" "abc").
  - now right.
  - now left.
  - split; [discriminate | reflexivity].
  - reflexivity.
Defined.

Section Landing.
Variable datetime : Type.
Variable fetch : Z -> string -> outcome node.
Variable _join_url : string -> string -> string.
Variable super_clean : ref -> M dom ref.
Variable str : node -> string.
Variable fromtimestamp_int : string -> outcome datetime.

Local Abbreviation extract :=
  (extract datetime fetch _join_url super_clean str fromtimestamp_int).

(** X4.  [extract] refuses the URLs [matches] refuses: on such a URL it
    raises [AttributeError] (the [group] of no match) before anything is
    fetched or changed. *)
Theorem extract_refuses_unmatched_url (self : site) (u : string) (w : world) :
  matches (cls self) u = None ->
  extract self u w = (Raise AttributeError, w).
Proof.
  intros H. unfold extract.
  destruct (re_match (workid_pattern (domain (cls self))) u) as [m|] eqn:E;
    [|reflexivity].
  apply workid_inv in E as (s & ww & i & r & Hs & Hw & Hi & Hr & -> & _).
  rewrite (matches_story_url _ s ww i r Hs Hw Hi Hr) in H. discriminate.
Qed.

(** X5.  On a URL that [matches] accepts, [extract] fetches the landing
    page of the same id under [https://www.], whatever the scheme and
    host prefix of the URL; when that fetch fails, [extract] fails the
    same way and leaves the header limit and the footnotes as they
    were. *)
Theorem extract_fetches_landing_page (self : site) (u c : string) :
  matches (cls self) u = Some c ->
  exists scheme www ident,
    c = (story_url (cls self) scheme www ident ++ "/")%string
    /\ forall w e,
        fetch (MAXHEADERS w) (story_url (cls self) "https" "www." ident)
        = Raise e ->
        extract self u w = (Raise e, w).
Proof.
  intros H.
  apply matches_inv in H
    as (scheme & www & ident & rest & Hs & Hw & Hi & Hr & -> & ->).
  exists scheme, www, ident. split; [reflexivity|].
  intros w e Hf. unfold extract.
  destruct (workid_story_url (cls self) scheme www ident rest Hs Hw Hi Hr)
    as (m & Hm & Hg).
  rewrite Hm. unfold not_none at 1.
  rewrite (bind_ok (ret m) _ w m w eq_refl).
  rewrite Hg. unfold not_none at 1.
  rewrite (bind_ok (ret ident) _ w ident w eq_refl).
  unfold bind at 1, _soup.
  change ("https://www." ++ domain (cls self) ++ ".com/fiction/" ++ ident)%string
    with (story_url (cls self) "https" "www." ident).
  now rewrite Hf.
Qed.
End Landing.

Lemma extract_refuses_unmatched_url_witness :
  Demo.extract (Demo.site_with true None None)
    "https://www.royalroad.com/profile/1" Demo.world0
  = (Raise AttributeError, Demo.world0).
Proof.
  apply (extract_refuses_unmatched_url Z Demo.fetch Demo.join_url
           Demo.super_clean Demo.render Demo.fromtimestamp_int).
  reflexivity.
Defined.

Lemma extract_fetches_landing_page_witness :
  exists scheme www ident,
    "http://royalroad.com/fiction/9/"%string
    = (story_url RoyalRoad scheme www ident ++ "/")%string
    /\ forall w e,
        Demo.fetch (MAXHEADERS w) (story_url RoyalRoad "https" "www." ident)
        = Raise e ->
        Demo.extract (Demo.site_with true None None)
          "http://royalroad.com/fiction/9/gone" w
        = (Raise e, w).
Proof.
  apply (extract_fetches_landing_page Z Demo.fetch Demo.join_url
           Demo.super_clean Demo.render Demo.fromtimestamp_int
           (Demo.site_with true None None)
           "http://royalroad.com/fiction/9/gone").
  reflexivity.
Defined.
(** ** More on the story page parser *)

(** The selector of the chapter table: what [select] returns satisfies
    the last simple selector of the chain. *)
Lemma select_from_last (chain : list (node -> bool)) (n x : node) :
  In x (select_from n chain) -> last chain (fun _ => false) x = true.
Proof.
  revert chain. induction n as [s | i nm c a cs IH] using node_induction;
    intros chain H; [destruct H|].
  destruct chain as [|s [|s' rest]]; [destruct H| |].
  - cbn [select_from] in H. apply in_app_or in H as [H | H].
    + destruct (s (Tag i nm c a cs)) eqn:E; [|destruct H].
      destruct H as [<- | []]. exact E.
    + apply in_flat_map in H as (y & Hy & H).
      rewrite Forall_forall in IH. apply (IH y Hy [s] H).
  - cbn [select_from] in H. apply in_flat_map in H as (y & Hy & H).
    rewrite Forall_forall in IH.
    destruct (s (Tag i nm c a cs)).
    + apply (IH y Hy (s' :: rest) H).
    + apply (IH y Hy (s :: s' :: rest) H).
Qed.

(** X6.  Every row of the chapter table that [extract] visits is a [tr]
    that carries [data-url]: the chapter URL is joined from the value of
    the attribute, never from the string [None] that [str] makes of a
    missing one. *)
Theorem chapter_rows_carry_data_url (soup row : node) :
  In row (chapter_rows soup) ->
  named "tr" row = true
  /\ exists v, attr "data-url" row = Some v /\ data_url row = v.
Proof.
  intros H. unfold chapter_rows, select in H.
  apply in_flat_map in H as (y & _ & H).
  apply select_from_last in H. cbn [last] in H.
  unfold both, has_attr in H. apply andb_true_iff in H as [Hn Ha].
  split; [assumption|].
  unfold data_url. destruct (attr "data-url" row) as [v|]; [|discriminate].
  now exists v.
Qed.

Lemma chapter_rows_carry_data_url_witness :
  named "tr" (Demo.row 30 "/c/1" "Chapter One") = true
  /\ exists v, attr "data-url" (Demo.row 30 "/c/1" "Chapter One") = Some v
               /\ data_url (Demo.row 30 "/c/1" "Chapter One") = v.
Proof.
  apply (chapter_rows_carry_data_url
           (Demo.story_page Demo.heading [Demo.row 30 "/c/1" "Chapter One"])).
  now left.
Defined.

Section ExtractMore.
Variable datetime : Type.
Variable fetch : Z -> string -> outcome node.
Variable _join_url : string -> string -> string.
Variable super_clean : ref -> M dom ref.
Variable str : node -> string.
Variable fromtimestamp_int : string -> outcome datetime.

Local Abbreviation Chapter := (Chapter datetime).
Local Abbreviation Story := (Story datetime).
Local Abbreviation _chapter :=
  (_chapter datetime fetch super_clean str fromtimestamp_int).
Local Abbreviation chapter_loop :=
  (chapter_loop datetime fetch _join_url super_clean str fromtimestamp_int).
Local Abbreviation new_story := (new_story datetime _join_url str).
Local Abbreviation extract :=
  (extract datetime fetch _join_url super_clean str fromtimestamp_int).
Local Abbreviation chapters_of_rows :=
  (chapters_of_rows datetime fetch _join_url super_clean str
     fromtimestamp_int).

Lemma new_story_state (base : string) (soup : node) (w : world) :
  snd (new_story base soup w) = w.
Proof.
  unfold new_story, not_none, item, bind, ret, raise.
  destruct (find_in (named "h1") soup) as [h1|]; [|reflexivity].
  destruct (string_of h1); [|reflexivity].
  destruct (find_in (both (named "meta")
                          (has_attr_value "property" "books:author")) soup)
    as [ma|]; [|reflexivity].
  destruct (attr "content" ma); [|reflexivity].
  destruct (find_in (both (named "meta")
                          (has_attr_value "property" "og:url")) soup)
    as [mu|]; [|reflexivity].
  destruct (attr "content" mu); [|reflexivity].
  destruct (find_in (both (named "img") (has_class "thumbnail")) soup)
    as [img|]; [|reflexivity].
  destruct (attr "src" img); reflexivity.
Qed.

Lemma new_story_summary (base : string) (soup : node) (w w' : world)
  (story : Story) :
  new_story base soup w = (Ok story, w') ->
  summary _ story
  = strip (str_opt str (find_in (both (named "div") (has_class "description"))
                          soup)).
Proof.
  unfold new_story, not_none, item, bind, ret, raise.
  destruct (find_in (named "h1") soup) as [h1|]; [|discriminate].
  destruct (string_of h1); [|discriminate].
  destruct (find_in (both (named "meta")
                          (has_attr_value "property" "books:author")) soup)
    as [ma|]; [|discriminate].
  destruct (attr "content" ma); [|discriminate].
  destruct (find_in (both (named "meta")
                          (has_attr_value "property" "og:url")) soup)
    as [mu|]; [|discriminate].
  destruct (attr "content" mu); [|discriminate].
  destruct (find_in (both (named "img") (has_class "thumbnail")) soup)
    as [img|]; [|discriminate].
  destruct (attr "src" img); [|discriminate].
  intros [= <- _]. reflexivity.
Qed.

Lemma with_chapters_summary (story : Story) (cs : list Chapter) :
  summary _ (with_chapters _ story cs) = summary _ story.
Proof.
  revert story; induction cs as [|c cs IH]; intros story; [reflexivity|].
  unfold with_chapters in *. simpl. now rewrite IH.
Qed.

Lemma with_chapters_len (story : Story) (cs : list Chapter) :
  len _ (with_chapters _ story cs) = len _ story + List.length cs.
Proof.
  unfold len. now rewrite with_chapters_contents, length_app.
Qed.

(** X7.  When [extract] returns, the header limit is what it was before
    the call, the footnotes collected on the site object have moved to the
    story, and the site object has none left. *)
Theorem extract_success_world (self : site) (page_url : string)
  (w w' : world) (story : Story) :
  extract self page_url w = (Ok story, w') ->
  MAXHEADERS w' = MAXHEADERS w
  /\ story_footnotes _ story = footnotes w
  /\ footnotes w' = [].
Proof.
  intros H. apply extract_inv in H
    as (m & workid & soup & head & s0 & s1 & _ & _ & _ & _ & _ & _ & -> & ->).
  repeat split.
Qed.

(** X8.  When [extract] raises, the footnotes are as they were, and the
    header limit is either as it was or 1000: it is as it was when the
    failure comes before line 55 (no match, no landing page, no [head]),
    and it stays at 1000 once the landing page was fetched and has a
    [head], whatever fails after that. *)
Theorem extract_failure_world (self : site) (page_url : string)
  (w w' : world) (e : exn) :
  extract self page_url w = (Raise e, w') ->
  footnotes w' = footnotes w
  /\ (w' = w \/ w' = {| MAXHEADERS := 1000; footnotes := footnotes w |})
  /\ forall m workid soup head,
      re_match (workid_pattern (domain (cls self))) page_url = Some m ->
      group1 m = Some workid ->
      fetch (MAXHEADERS w)
        ("https://www." ++ domain (cls self) ++ ".com/fiction/" ++ workid)
      = Ok soup ->
      find_in (named "head") soup = Some head ->
      MAXHEADERS w' = 1000%Z.
Proof.
  unfold extract.
  destruct (re_match _ page_url) as [m|] eqn:Hm.
  2:{ cbv beta iota delta [not_none bind raise].
      intros [= <- <-]. split; [reflexivity|]. split; [now left|].
      intros m' workid' soup' head' H. discriminate H. }
  unfold not_none at 1. rewrite (bind_ok (ret m) _ w m w eq_refl).
  destruct (group1 m) as [workid|] eqn:Hg.
  2:{ cbv beta iota delta [not_none bind raise].
      intros [= <- <-]. split; [reflexivity|]. split; [now left|].
      intros m' workid' soup' head' [= <-]. rewrite Hg. discriminate. }
  unfold not_none at 1. rewrite (bind_ok (ret workid) _ w workid w eq_refl).
  unfold bind at 1, _soup.
  destruct (fetch (MAXHEADERS w) _) as [soup|e0] eqn:Hf.
  2:{ intros [= <- <-]. split; [reflexivity|]. split; [now left|].
      intros m' workid' soup' head' [= <-]. rewrite Hg. intros [= <-].
      rewrite Hf. discriminate. }
  destruct (find_in (named "head") soup) as [head|] eqn:Hh.
  2:{ cbv beta iota delta [not_none bind raise].
      intros [= <- <-]. split; [reflexivity|]. split; [now left|].
      intros m' workid' soup' head' [= <-]. rewrite Hg. intros [= <-].
      rewrite Hf. intros [= <-]. rewrite Hh. discriminate. }
  unfold not_none at 1. rewrite (bind_ok (ret head) _ w head w eq_refl).
  rewrite (bind_ok (gets MAXHEADERS) _ w _ w eq_refl).
  set (w1 := {| MAXHEADERS := 1000; footnotes := footnotes w |}).
  rewrite (bind_ok (set_MAXHEADERS 1000) _ w tt w1 eq_refl).
  intros H.
  assert (Hw : w' = w1).
  { unfold bind at 1 in H.
    pose proof (new_story_state (base_of page_url head) soup w1) as H0.
    destruct (new_story _ soup w1) as [[story0|e0] s0]; simpl in H0; subst s0.
    2:{ now injection H as _ <-. }
    unfold bind at 1 in H.
    pose proof (chapter_loop_world datetime fetch _join_url super_clean str
                  fromtimestamp_int self story0
                  (enumerate (chapter_rows soup)) w1) as H1.
    destruct (chapter_loop self story0 _ w1) as [[story1|e1] s1];
      simpl in H1; subst s1.
    2:{ now injection H as _ <-. }
    discriminate. }
  subst w'. split; [reflexivity|]. split; [now right|]. reflexivity.
Qed.

Lemma chapter_loop_app (self : site) (story : Story)
  (l1 l2 : list (nat * node)) (w : world) :
  chapter_loop self story (l1 ++ l2) w
  = bind (chapter_loop self story l1)
      (fun story' => chapter_loop self story' l2) w.
Proof.
  revert story w; induction l1 as [|[index chapter] l1 IH]; intros story w.
  { unfold bind. reflexivity. }
  simpl. destruct (before_offset _ index); [apply IH|].
  destruct (beyond_limit _ index); [apply IH|].
  unfold bind.
  destruct (_chapter _ _ _ w) as [[[c u]|e] w1]; [|reflexivity].
  unfold not_none, ret, raise.
  destruct (find_in _ chapter) as [a|]; [|reflexivity].
  destruct (string_of a) as [t|]; [|reflexivity].
  apply IH.
Qed.

(** X9.  The chapter loop stops at the first chapter that fails: when
    the rows before a row yield their chapters and that row, whose index
    is in the range of the options, does not, the loop raises what the
    chapter parser raised; no story is returned, not even with the
    chapters fetched so far, and the rows after it are not visited. *)
Theorem chapter_loop_first_failure (self : site) (story : Story)
  (before after : list (nat * node)) (index : nat) (row : node)
  (w : world) (cs : list Chapter) (e : exn) :
  chapters_of_rows self (url _ story) w (len _ story)
    (map snd (filter (fun ir => in_option_range (opts self) (fst ir)) before))
    cs ->
  in_option_range (opts self) index = true ->
  fst (_chapter self (_join_url (url _ story) (data_url row))
         (len _ story + List.length cs + 1) w) = Raise e ->
  chapter_loop self story (before ++ (index, row) :: after) w = (Raise e, w).
Proof.
  intros Hcs Hin He.
  rewrite chapter_loop_app.
  rewrite (bind_ok _ _ _ _ _
             (chapter_loop_returns datetime fetch _join_url super_clean str
                fromtimestamp_int self story before w cs Hcs)).
  simpl.
  rewrite <- guards_are_the_range in Hin.
  apply andb_true_iff in Hin as [H1 H2].
  apply negb_true_iff in H1, H2. rewrite H1, H2.
  rewrite with_chapters_url, with_chapters_len.
  unfold bind at 1.
  pose proof (_chapter_world datetime fetch super_clean str fromtimestamp_int
                self (_join_url (url _ story) (data_url row))
                (len _ story + List.length cs + 1) w) as Hw.
  destruct (_chapter _ _ _ w) as [[r|e0] w1]; simpl in *; subst w1;
    [discriminate | congruence].
Qed.

(** X10.  The summary of the story is the serialized description block
    of the landing page, stripped; when the page has no such block the
    summary is the string [None], the [str] of the missing block, and
    [extract] does not fail on it. *)
Theorem extract_summary (self : site) (page_url : string)
  (w w' : world) (story : Story) :
  extract self page_url w = (Ok story, w') ->
  exists m workid soup,
    re_match (workid_pattern (domain (cls self))) page_url = Some m
    /\ group1 m = Some workid
    /\ fetch (MAXHEADERS w)
         ("https://www." ++ domain (cls self) ++ ".com/fiction/" ++ workid)
       = Ok soup
    /\ summary _ story
       = match find_in (both (named "div") (has_class "description")) soup with
         | Some block => strip (str block)
         | None => "None"%string
         end.
Proof.
  intros H. apply extract_inv in H
    as (m & workid & soup & head & s0 & s1 & Hm & Hg & Hf & _ & H0 & H1
        & -> & _).
  exists m, workid, soup. repeat (split; [assumption|]).
  apply new_story_summary in H0.
  apply chapter_loop_spec in H1 as (cs & -> & _).
  cbn [summary with_footnotes]. rewrite with_chapters_summary, H0.
  now destruct (find_in _ soup).
Qed.
End ExtractMore.

Lemma extract_success_world_witness :
  exists story w',
    Demo.extract (Demo.site_with true None None)
      "https://royalroad.com/fiction/1/x"
      {| MAXHEADERS := 100; footnotes := ["a footnote"] |}
    = (Ok story, w')
    /\ MAXHEADERS w' = 100%Z
    /\ story_footnotes Z story = ["a footnote"]
    /\ footnotes w' = [].
Proof.
  eexists. eexists. split; [vm_compute; reflexivity|].
  apply (extract_success_world Z Demo.fetch Demo.join_url Demo.super_clean
           Demo.render Demo.fromtimestamp_int
           (Demo.site_with true None None)
           "https://royalroad.com/fiction/1/x"
           {| MAXHEADERS := 100; footnotes := ["a footnote"] |}).
  vm_compute. reflexivity.
Defined.

Lemma extract_failure_world_witness :
  exists w',
    Demo.extract (Demo.site_with true None None)
      "https://royalroad.com/fiction/3/x"
      {| MAXHEADERS := 100; footnotes := ["a footnote"] |}
    = (Raise FetchError, w')
    /\ footnotes w' = ["a footnote"]
    /\ MAXHEADERS w' = 1000%Z.
Proof.
  eexists. split; [vm_compute; reflexivity|].
  destruct (extract_failure_world Z Demo.fetch Demo.join_url Demo.super_clean
              Demo.render Demo.fromtimestamp_int
              (Demo.site_with true None None)
              "https://royalroad.com/fiction/3/x"
              {| MAXHEADERS := 100; footnotes := ["a footnote"] |}
              {| MAXHEADERS := 1000; footnotes := ["a footnote"] |}
              FetchError)
    as (H1 & _ & H2).
  - vm_compute. reflexivity.
  - split; [exact H1|].
    apply (H2 {| m_end := 33; group1 := Some "3" |} "3"%string
             (Demo.story_page Demo.heading
                [Demo.row 20 "/c/0" "Chapter Zero";
                 Demo.row 30 "/c/gone" "Chapter One"])
             (Tag 2 "head" None []
                [Tag 3 "meta" None
                   [("property", "books:author"); ("content", "An Author")] [];
                 Tag 4 "meta" None
                   [("property", "og:url");
                    ("content",
                     "https://www.royalroad.com/fiction/1/a-story")] []]));
      reflexivity.
Defined.

Lemma chapter_loop_first_failure_witness :
  chapter_loop Z Demo.fetch Demo.join_url Demo.super_clean Demo.render
    Demo.fromtimestamp_int (Demo.site_with true None None)
    {| title := "A Story"; author := "An Author"; url := "u";
       cover_url := "c"; summary := "s"; tags := []; contents := [];
       story_footnotes := [] |}
    ([(0, Demo.row 20 "/c/0" "Chapter Zero")]
     ++ (1, Demo.row 30 "/c/gone" "Chapter One")
     :: [(2, Demo.row 40 "/c/2" "Chapter Two")])
    Demo.world0
  = (Raise FetchError, Demo.world0).
Proof.
  apply (chapter_loop_first_failure Z Demo.fetch Demo.join_url
           Demo.super_clean Demo.render Demo.fromtimestamp_int
           (Demo.site_with true None None) _ _ _ _ _ _
           [{| ch_title := "Chapter Zero";
               ch_contents :=
                 Demo.render (Tag 5 "div" (Some ["chapter-content"]) []
                                [Text "zero"]);
               ch_date := 12%Z |}]).
  - simpl. split; [|exact I].
    exists (Tag 22 "a" None [("href", "/c/0")] [Text "Chapter Zero"]),
      "Chapter Zero"%string.
    repeat split; reflexivity.
  - reflexivity.
  - reflexivity.
Defined.

Lemma extract_summary_witness :
  exists story w',
    extract Z Demo.fetch_more Demo.join_url Demo.super_clean Demo.render
      Demo.fromtimestamp_int (Demo.site_with true None None)
      "https://royalroad.com/fiction/4" Demo.world0
    = (Ok story, w')
    /\ summary Z story = "None"%string.
Proof.
  eexists. eexists. split; [vm_compute; reflexivity|].
  destruct (extract_summary Z Demo.fetch_more Demo.join_url Demo.super_clean
              Demo.render Demo.fromtimestamp_int
              (Demo.site_with true None None)
              "https://royalroad.com/fiction/4" Demo.world0 Demo.world0
              {| title := "Short"; author := "An Author";
                 url := "https://www.royalroad.com/fiction/4/short";
                 cover_url := "/cover.jpg"; summary := "None"; tags := [];
                 contents :=
                   [{| ch_title := "Chapter Zero";
                       ch_contents :=
                         Demo.render (Tag 5 "div" (Some ["chapter-content"])
                                        [] [Text "zero"]);
                       ch_date := 12%Z |}];
                 story_footnotes := [] |})
    as (m & workid & soup & Hm & Hg & Hf & Hs).
  - vm_compute. reflexivity.
  - reflexivity.
Defined.
(** ** More on the chapter parser: one author's note, and none *)

Section Notes.
Variable datetime : Type.
Variable fetch : Z -> string -> outcome node.
Variable super_clean : ref -> M dom ref.
Variable str : node -> string.
Variable fromtimestamp_int : string -> outcome datetime.

Local Abbreviation _chapter :=
  (_chapter datetime fetch super_clean str fromtimestamp_int).
Local Abbreviation parse_chapter :=
  (parse_chapter datetime super_clean str fromtimestamp_int).
Local Abbreviation _clean := (_clean super_clean).
Local Abbreviation add_author_notes := (add_author_notes str).
Local Abbreviation publication_time :=
  (publication_time datetime fromtimestamp_int).

(** The chapter parser on a page whose content was cleaned, in terms of
    what is done with the author's notes. *)
Lemma _chapter_after_cleaning
  (self : site) (page_url : string) (chapterid : nat) (w : world)
  (soup : node) (content kept : ref) (d1 d2 : dom) (nc : node)
  (updated : datetime) (s : string) :
  fetch (MAXHEADERS w) page_url = Ok soup ->
  first_in [soup] (node_id soup) chapter_content = Some content ->
  _clean content (node_id soup) [soup] = (Ok kept, d1) ->
  _clean_spoilers content chapterid d1 = (Ok tt, d2) ->
  get d2 content = Some nc ->
  add_author_notes (node_id soup) (str nc) d2 = (Ok s, d2) ->
  publication_time (node_id soup) d2 = (Ok updated, d2) ->
  _chapter self page_url chapterid w = (Ok (s, updated), w).
Proof.
  intros Hf Hc H1 H2 Hnc Hn Ht.
  rewrite _chapter_eq, Hf. f_equal.
  unfold parse_chapter, bind, find_first, gets.
  cbv beta iota. rewrite Hc. unfold not_none, ret. cbv beta iota.
  rewrite H1, H2. unfold str_at at 1, gets. rewrite Hnc.
  rewrite Hn, Ht. reflexivity.
Qed.

(** X11.  When the page holds exactly one author's note once its content
    has been cleaned, the note goes before the content if the first [div]
    below the parent of the content block is of class
    [author-note-portlet], and after it if not: the place is decided by
    that first [div], whichever element it is, not by where the note is. *)
Theorem one_note_before_or_after
  (self : site) (page_url : string) (chapterid : nat) (w : world)
  (soup : node) (content kept note c p first_div : ref) (d1 d2 : dom)
  (nc nf : node) (first_class : list string) (updated : datetime) :
  fetch (MAXHEADERS w) page_url = Ok soup ->
  first_in [soup] (node_id soup) chapter_content = Some content ->
  _clean content (node_id soup) [soup] = (Ok kept, d1) ->
  _clean_spoilers content chapterid d1 = (Ok tt, d2) ->
  get d2 content = Some nc ->
  refs_in d2 (node_id soup) author_note = [note] ->
  first_in d2 (node_id soup) chapter_content = Some c ->
  parent_of d2 c = Some p ->
  first_in d2 p (named "div") = Some first_div ->
  get d2 first_div = Some nf ->
  classes nf = Some first_class ->
  publication_time (node_id soup) d2 = (Ok updated, d2) ->
  exists n,
    get d2 note = Some n
    /\ _chapter self page_url chapterid w
       = (Ok (if existsb (String.eqb "author-note-portlet") first_class
              then (str n ++ "<hr/>" ++ str nc)%string
              else (str nc ++ "<hr/>" ++ str n)%string,
              updated), w).
Proof.
  intros Hf Hc H1 H2 Hnc Hnotes Hc2 Hp Hfd Hnf Hcl Ht.
  assert (Hin : get d2 note <> None).
  { assert (Hr : In note (refs_in d2 (node_id soup) author_note))
      by (rewrite Hnotes; now left).
    apply refs_in_present in Hr as (n & x & Hn & Hx & Htag & _ & <-).
    apply get_exists; [|assumption].
    apply get_Some in Hn as [Hn _].
    apply (all_nodes_closed d2 n); [assumption | now right]. }
  destruct (get d2 note) as [n|] eqn:E; [clear Hin|congruence].
  exists n. split; [reflexivity|].
  apply (_chapter_after_cleaning self page_url chapterid w soup content kept
           d1 d2 nc); try assumption.
  unfold add_author_notes, find_all, find_first, class_at, str_at, not_none,
    bind, gets, ret.
  rewrite Hnotes, Hc2, Hp, Hfd, Hnf, Hcl, E.
  now destruct (existsb _ first_class).
Qed.

(** X12.  The author's notes are attached only when there are one or two
    of them: on a page with none, and on a page with three or more, the
    content string is the cleaned chapter content alone. *)
Theorem other_note_counts_give_content_alone
  (self : site) (page_url : string) (chapterid : nat) (w : world)
  (soup : node) (content kept : ref) (d1 d2 : dom)
  (nc : node) (updated : datetime) :
  fetch (MAXHEADERS w) page_url = Ok soup ->
  first_in [soup] (node_id soup) chapter_content = Some content ->
  _clean content (node_id soup) [soup] = (Ok kept, d1) ->
  _clean_spoilers content chapterid d1 = (Ok tt, d2) ->
  get d2 content = Some nc ->
  List.length (refs_in d2 (node_id soup) author_note) <> 1 ->
  List.length (refs_in d2 (node_id soup) author_note) <> 2 ->
  publication_time (node_id soup) d2 = (Ok updated, d2) ->
  _chapter self page_url chapterid w = (Ok (str nc, updated), w).
Proof.
  intros Hf Hc H1 H2 Hnc Hn1 Hn2 Ht.
  apply (_chapter_after_cleaning self page_url chapterid w soup content kept
           d1 d2 nc); try assumption.
  unfold add_author_notes, find_all, bind, gets, ret.
  destruct (refs_in d2 (node_id soup) author_note) as [|n0 [|n1 [|n2 l]]];
    simpl in *; congruence.
Qed.
End Notes.

Lemma one_note_before_or_after_witness :
  (exists n,
      get [Demo.noted_chapter [Demo.note 20 [] "before"] []] 20 = Some n
      /\ _chapter Z Demo.fetch_more Demo.super_clean Demo.render
           Demo.fromtimestamp_int (Demo.site_with true None None)
           "/note-before" 1 Demo.world0
         = (Ok ((Demo.render n ++ "<hr/>"
                 ++ Demo.render (Tag 5 "div" (Some ["chapter-content"]) []
                                   [Tag 7 "p" None [] [Text "hello"]]))%string,
                12%Z), Demo.world0))
  /\ (exists n,
         get [Demo.noted_chapter [] [Demo.note 21 [] "after"]] 21 = Some n
         /\ _chapter Z Demo.fetch_more Demo.super_clean Demo.render
              Demo.fromtimestamp_int (Demo.site_with true None None)
              "/note-after" 1 Demo.world0
            = (Ok ((Demo.render (Tag 5 "div" (Some ["chapter-content"]) []
                                   [Tag 7 "p" None [] [Text "hello"]])
                    ++ "<hr/>" ++ Demo.render n)%string,
                   12%Z), Demo.world0)).
Proof.
  split.
  - apply (one_note_before_or_after Z Demo.fetch_more Demo.super_clean
             Demo.render Demo.fromtimestamp_int
             (Demo.site_with true None None) "/note-before" 1 Demo.world0
             (Demo.noted_chapter [Demo.note 20 [] "before"] [])
             5 5 20 5 4 20
             [Demo.noted_chapter [Demo.note 20 [] "before"] []]
             [Demo.noted_chapter [Demo.note 20 [] "before"] []]
             _ (Demo.note 20 [] "before") ["author-note-portlet"]);
      reflexivity.
  - apply (one_note_before_or_after Z Demo.fetch_more Demo.super_clean
             Demo.render Demo.fromtimestamp_int
             (Demo.site_with true None None) "/note-after" 1 Demo.world0
             (Demo.noted_chapter [] [Demo.note 21 [] "after"])
             5 5 21 5 4 5
             [Demo.noted_chapter [] [Demo.note 21 [] "after"]]
             [Demo.noted_chapter [] [Demo.note 21 [] "after"]]
             _ (Tag 5 "div" (Some ["chapter-content"]) []
                  [Tag 7 "p" None [] [Text "hello"]])
             ["chapter-content"]);
      reflexivity.
Defined.

Lemma other_note_counts_give_content_alone_witness :
  map node_id
    (find_all_in author_note
       (Demo.noted_chapter [Demo.note 20 [] "a"]
          [Demo.note 21 [] "b"; Demo.note 22 [] "c"]))
  = [20; 21; 22]
  /\ _chapter Z Demo.fetch_more Demo.super_clean Demo.render
       Demo.fromtimestamp_int (Demo.site_with true None None)
       "/three-notes" 1 Demo.world0
     = (Ok (Demo.render (Tag 5 "div" (Some ["chapter-content"]) []
                           [Tag 7 "p" None [] [Text "hello"]]),
            12%Z), Demo.world0).
Proof.
  split; [reflexivity|].
  apply (other_note_counts_give_content_alone Z Demo.fetch_more
           Demo.super_clean Demo.render Demo.fromtimestamp_int
           (Demo.site_with true None None) "/three-notes" 1 Demo.world0
           (Demo.noted_chapter [Demo.note 20 [] "a"]
              [Demo.note 21 [] "b"; Demo.note 22 [] "c"])
           5 5
           [Demo.noted_chapter [Demo.note 20 [] "a"]
              [Demo.note 21 [] "b"; Demo.note 22 [] "c"]]
           [Demo.noted_chapter [Demo.note 20 [] "a"]
              [Demo.note 21 [] "b"; Demo.note 22 [] "c"]]);
    try reflexivity; simpl; discriminate.
Defined.
(** ** The style rules the hidden-warning remover acts on *)

(** X13.  The style texts the hidden-warning remover acts on, and the
    class it then removes: a text matches the pattern of line 118 with
    class [k] exactly when it starts, after optional blanks, with a rule
    [.k { ... display: none; ... }] whose selector is the one class [k]
    (word characters), with optional blanks before the brace and after
    [display:], no closing brace inside, and a semicolon right after
    [none]; what follows the rule is not looked at. *)
Theorem hidden_pattern_matches_hidden_rules (text k : string) :
  (exists m, re_match hidden_pattern text = Some m /\ group1 m = Some k)
  <-> exists ws1 ws2 b1 ws3 b2 rest,
       text = hidden_rule ws1 k ws2 b1 ws3 b2 rest
       /\ all_chars is_space ws1 = true /\ all_chars is_space ws2 = true
       /\ all_chars is_space ws3 = true
       /\ k <> ""%string /\ all_chars is_word k = true
       /\ all_chars not_rbrace b1 = true /\ all_chars not_rbrace b2 = true.
Proof.
  split.
  - intros (m & Hm & Hg).
    apply hidden_rule_inv in Hm
      as (ws1 & k' & ws2 & b1 & ws3 & b2 & rest & -> & H1 & H2 & H3 & Hk
          & Hw & Hb1 & Hb2 & Hg').
    assert (k' = k) by congruence. subst k'.
    now exists ws1, ws2, b1, ws3, b2, rest.
  - intros (ws1 & ws2 & b1 & ws3 & b2 & rest & -> & H1 & H2 & H3 & Hk & Hw
            & Hb1 & Hb2).
    now apply hidden_rule_matches.
Qed.
(** ** The hidden-warning remover: what it leaves alone, and a second run *)

(** Taking out elements that are not below a node leaves it as it is. *)
Lemma prune_absent (r : ref) (n : node) :
  ~ In r (tag_ids (descendants n)) -> prune r n = n.
Proof.
  induction n as [s | i nm c a cs IH] using node_induction; intros H;
    [reflexivity|].
  simpl. f_equal.
  assert (Hcs : forall x, In x cs ->
                  has_id r x = false /\ ~ In r (tag_ids (descendants x))).
  { intros x Hx. split.
    - destruct (has_id r x) eqn:E; [|reflexivity].
      exfalso. apply H. apply in_tag_ids. exists x. split; [|assumption].
      apply in_descendants. exists x. split; [assumption|now left].
    - intros Hr. apply H. apply in_tag_ids in Hr as (y & Hy & Hid).
      apply in_tag_ids. exists y. split; [|assumption].
      apply in_descendants. exists x. split; [assumption|now right]. }
  clear H. induction cs as [|x cs IHcs]; [reflexivity|].
  inversion IH as [|? ? Hx Hrest]; subst.
  destruct (Hcs x (or_introl eq_refl)) as [Hid Hno].
  simpl. rewrite Hid, (Hx Hno). simpl. f_equal.
  apply IHcs; [assumption|]. intros y Hy. apply Hcs. now right.
Qed.

Lemma pruned_absent (l : list ref) (n : node) :
  (forall r, In r l -> ~ In r (tag_ids (descendants n))) -> pruned l n = n.
Proof.
  revert n; induction l as [|r l IH]; intros n H; [reflexivity|].
  unfold pruned in *. simpl.
  rewrite (prune_absent r n) by (apply H; now left).
  apply IH. intros x Hx. apply H. now right.
Qed.

Section CleanMore.
Variable super_clean : ref -> M dom ref.

(** The run of the hidden-warning remover, with what it destroys: some
    elements below the content block. *)
Lemma _clean_run_inside (contents full_page : ref) (d_in d0 : dom) (n0 : node) :
  super_clean contents d_in = (Ok contents, d0) ->
  distinct_ids d0 ->
  get d0 contents = Some n0 ->
  (forall s, In s (refs_in d0 full_page (named "style")) ->
     ~ In s (tag_ids (descendants n0))
     /\ exists m text, get d0 s = Some m /\ children m = [Text text]) ->
  exists P,
    (forall r, In r P -> In r (tag_ids (descendants n0)))
    /\ _clean super_clean contents full_page d_in
       = (Ok contents, without_all P d0)
    /\ forall s text m k,
        In s (refs_in d0 full_page (named "style")) ->
        string_ref d0 s = Some text ->
        re_match hidden_pattern text = Some m -> group1 m = Some k ->
        find_all_in (has_class k) (pruned P n0) = [].
Proof.
  intros Hsuper Hd Hn Hstyles.
  destruct (styles_loop d0 contents n0 (refs_in d0 full_page (named "style"))
              Hd Hn Hstyles (refs_in d0 full_page (named "style"))
              (fun x H => H) [] (fun r H => match H with end))
    as (P & HP & Hrun & Hfree).
  exists P. split; [assumption|]. split; [|exact Hfree].
  unfold _clean. rewrite (bind_ok _ _ _ _ _ Hsuper).
  rewrite (bind_ok (find_all full_page (named "style")) _ d0 _ d0 eq_refl).
  simpl in Hrun. now rewrite (bind_ok _ _ _ _ _ Hrun).
Qed.

(** X14.  The hidden-warning remover changes nothing outside the content
    block: an element that is not below the content block and holds no
    element of it (an author's note beside the content, the profile
    block, a style block) is after the run what it was before. *)
Theorem clean_leaves_the_rest (contents full_page c : ref)
  (d_in d0 : dom) (n0 m : node) :
  super_clean contents d_in = (Ok contents, d0) ->
  distinct_ids d0 ->
  get d0 contents = Some n0 ->
  (forall s, In s (refs_in d0 full_page (named "style")) ->
     ~ In s (tag_ids (descendants n0))
     /\ exists m text, get d0 s = Some m /\ children m = [Text text]) ->
  get d0 c = Some m ->
  ~ In c (tag_ids (descendants n0)) ->
  (forall r, In r (tag_ids (descendants m)) ->
             ~ In r (tag_ids (descendants n0))) ->
  exists d',
    _clean super_clean contents full_page d_in = (Ok contents, d')
    /\ get d' c = Some m.
Proof.
  intros Hsuper Hd Hn Hstyles Hm Hc Hapart.
  destruct (_clean_run_inside contents full_page d_in d0 n0
              Hsuper Hd Hn Hstyles) as (P & HP & Hrun & _).
  exists (without_all P d0). split; [assumption|].
  rewrite get_without_all, Hm.
  - simpl. f_equal. apply pruned_absent.
    intros r Hr Hin. apply (Hapart r Hin). now apply HP.
  - intros r Hr.
    apply (outside_of_descendant d0 contents r c n0); auto.
Qed.

(** X15.  A second run of the hidden-warning remover changes nothing:
    after a run on a page whose style blocks hold one string and lie
    outside the content, the remover (with a generic cleaner that has
    nothing left to do) returns the content block again and leaves every
    object as the first run left it. *)
Theorem clean_twice (contents full_page : ref) (d_in d0 : dom) (n0 : node) :
  super_clean contents d_in = (Ok contents, d0) ->
  distinct_ids d0 ->
  get d0 contents = Some n0 ->
  ~ In full_page (tag_ids (descendants n0)) ->
  (forall s, In s (refs_in d0 full_page (named "style")) ->
     ~ In s (tag_ids (descendants n0))
     /\ exists m text, get d0 s = Some m /\ children m = [Text text]) ->
  exists d',
    _clean super_clean contents full_page d_in = (Ok contents, d')
    /\ (super_clean contents d' = (Ok contents, d') ->
        _clean super_clean contents full_page d' = (Ok contents, d')).
Proof.
  intros Hsuper Hd Hn Hpage Hstyles.
  destruct (_clean_run_inside contents full_page d_in d0 n0
              Hsuper Hd Hn Hstyles) as (P & HP & Hrun & Hfree).
  exists (without_all P d0). split; [assumption|].
  intros Hsuper'. unfold _clean.
  rewrite (bind_ok _ _ _ _ _ Hsuper').
  set (d' := without_all P d0).
  rewrite (bind_ok (find_all full_page (named "style")) _ d' _ d' eq_refl).
  rewrite (bind_ok (for_each _ _) _ d' tt d'); [reflexivity|].
  apply for_each_noop. intros s Hs.
  (* the style blocks of the second run are those of the first *)
  assert (Hs0 : In s (refs_in d0 full_page (named "style"))).
  { unfold refs_in in Hs |- *. unfold d' in Hs.
    rewrite get_without_all in Hs.
    2:{ intros r Hr.
        apply (outside_of_descendant d0 contents r full_page n0); auto. }
    destruct (get d0 full_page) as [pg|]; [|destruct Hs].
    simpl in Hs. apply in_map_iff in Hs as (x' & <- & Hx').
    apply filter_In in Hx' as [Hx' Hp].
    apply descendants_pruned_sound in Hx' as (x & Hx & -> & _).
    rewrite pruned_node_id. apply in_map_iff. exists x.
    split; [reflexivity|]. apply filter_In. split; [assumption|].
    unfold both in *. now rewrite pruned_is_tag, pruned_named in Hp. }
  destruct (style_after d0 contents n0 (refs_in d0 full_page (named "style"))
              Hd Hn Hstyles P s HP Hs0) as [Hsame Hsome].
  fold d' in Hsame.
  destruct (string_ref d0 s) as [text|] eqn:Htext; [clear Hsome|congruence].
  destruct (re_match hidden_pattern text) as [m|] eqn:Hm.
  2:{ now apply (clean_style_no_match contents s d' text). }
  destruct (group1 m) as [k|] eqn:Hk.
  2:{ now apply (clean_style_no_group contents s d' text m). }
  rewrite (clean_style_match contents s d' text k m Hsame Hm Hk).
  assert (Hnone : refs_in d' contents (has_class k) = []).
  { unfold refs_in, d'.
    rewrite (content_after d0 contents n0 Hd Hn P HP).
    now rewrite (Hfree s text m k Hs0 Htext Hm Hk). }
  now rewrite Hnone.
Qed.
End CleanMore.

Lemma clean_leaves_the_rest_witness :
  exists d',
    Demo._clean 5 0 [Demo.hidden_note_page] = (Ok 5, d')
    /\ get d' 21 = Some (Demo.note 21 [] "after").
Proof.
  apply (clean_leaves_the_rest Demo.super_clean 5 0 21
           [Demo.hidden_note_page] [Demo.hidden_note_page]
           (Tag 5 "div" (Some ["chapter-content"]) []
              [Demo.note 20 ["x"] "inside";
               Tag 7 "p" None [] [Text "hello"]])).
  - reflexivity.
  - unfold distinct_ids. vm_compute.
    repeat (constructor; [simpl; intuition discriminate|]). constructor.
  - reflexivity.
  - intros s [<- | []]. split.
    + simpl. intuition discriminate.
    + eexists. eexists. split; reflexivity.
  - reflexivity.
  - simpl. intuition discriminate.
  - intros r [].
Defined.

Lemma clean_twice_witness :
  exists d',
    Demo._clean 5 0 [Demo.hidden_note_page] = (Ok 5, d')
    /\ Demo._clean 5 0 d' = (Ok 5, d').
Proof.
  destruct (clean_twice Demo.super_clean 5 0
              [Demo.hidden_note_page] [Demo.hidden_note_page]
              (Tag 5 "div" (Some ["chapter-content"]) []
                 [Demo.note 20 ["x"] "inside";
                  Tag 7 "p" None [] [Text "hello"]]))
    as (d' & H1 & H2).
  - reflexivity.
  - unfold distinct_ids. vm_compute.
    repeat (constructor; [simpl; intuition discriminate|]). constructor.
  - reflexivity.
  - simpl. intuition discriminate.
  - intros s [<- | []]. split.
    + simpl. intuition discriminate.
    + eexists. eexists. split; reflexivity.
  - exists d'. split; [exact H1|]. apply H2. reflexivity.
Defined.
(** ** More on the spoiler normalizer: when it returns *)

(** X16.  The outcome of the step for a spoiler that has its label
    block: it returns whenever the spoiler has a parent, whatever the
    label and the blocks; on a spoiler that has its text blocks and no
    parent any more (it was taken out of the tree with the wrapper of an
    earlier spoiler), [insert_before] raises [ValueError] and nothing
    has changed. *)
Theorem labelled_spoiler_outcome (d : dom) (spoiler label : ref) :
  first_in d spoiler smalltext = Some label ->
  (parent_of d spoiler <> None ->
   exists d', clean_spoiler spoiler d = (Ok tt, d'))
  /\ (parent_of d spoiler = None ->
      forall block inner,
        first_in d spoiler spoilerContent = Some block ->
        first_in d block spoiler_inner_block = Some inner ->
        clean_spoiler spoiler d = (Raise ValueError, d)).
Proof.
  intros Hlabel.
  assert (E : exists title,
             make_spoiler_header spoiler d
             = (Ok (Tag (fresh d) "strong" (Some ["spoiler-header"]) []
                      [Text (spoiler_header_of title)]), d)).
  { eexists. unfold make_spoiler_header, find_first, get_text_strip_at,
      _new_tag, not_none, bind, gets, ret.
    rewrite Hlabel. reflexivity. }
  destruct E as [title E]. split.
  - intros Hp. unfold clean_spoiler. rewrite (bind_ok _ _ _ _ _ E).
    now apply unwrap_spoiler_total.
  - intros Hp block inner Hb Hi. unfold clean_spoiler.
    rewrite (bind_ok _ _ _ _ _ E).
    unfold unwrap_spoiler, find_first, insert_before, bind, gets, raise.
    now rewrite Hb, Hi, Hp.
Qed.

Lemma labelled_spoiler_outcome_witness :
  (exists d', clean_spoiler 8 [Demo.spoiler_page] = (Ok tt, d'))
  /\ clean_spoiler 8 [Demo.spoiler_block]
     = (Raise ValueError, [Demo.spoiler_block]).
Proof.
  split.
  - apply (proj1 (labelled_spoiler_outcome [Demo.spoiler_page] 8 9 eq_refl)).
    discriminate.
  - apply (proj2 (labelled_spoiler_outcome [Demo.spoiler_block] 8 9 eq_refl)
             eq_refl 11 12); reflexivity.
Defined.
(** ** Places in the tree *)

Lemma flat_map_same {A} (h : A -> list A) (l : list A) :
  (forall x, In x l -> h x = [x]) -> flat_map h l = l.
Proof.
  induction l as [|x l IH]; intros H; [reflexivity|].
  simpl. rewrite (H x (or_introl eq_refl)). simpl. f_equal.
  apply IH. intros y Hy. apply H. now right.
Qed.

Lemma tag_ids_cons (x : node) (l : list node) :
  tag_ids (x :: l) = (if is_tag x then [node_id x] else []) ++ tag_ids l.
Proof. unfold tag_ids. simpl. now destruct (is_tag x). Qed.

Lemma all_nodes_cons (x : node) (l : list node) :
  all_nodes (x :: l) = x :: descendants x ++ all_nodes l.
Proof. reflexivity. Qed.

Lemma absent_cons (r : ref) (x : node) (l : list node) :
  absent r (x :: l)
  <-> has_id r x = false /\ absent r (children x) /\ absent r l.
Proof.
  unfold absent. rewrite all_nodes_cons, tag_ids_cons, tag_ids_app.
  rewrite descendants_all_nodes. rewrite !in_app_iff.
  destruct x as [s | i nm c a cs]; simpl.
  - tauto.
  - destruct (Nat.eqb_spec i r); intuition congruence.
Qed.

Lemma absent_app (r : ref) (l1 l2 : list node) :
  absent r (l1 ++ l2) <-> absent r l1 /\ absent r l2.
Proof.
  unfold absent. rewrite all_nodes_app, tag_ids_app, in_app_iff. tauto.
Qed.

Lemma absent_nil (r : ref) : absent r [].
Proof. intros []. Qed.

Lemma absent_In (r : ref) (l : list node) (x : node) :
  absent r l -> In x l -> has_id r x = false /\ absent r (children x).
Proof.
  intros H Hx. apply in_split in Hx as (l1 & l2 & ->).
  apply absent_app in H as [_ H]. now apply absent_cons in H.
Qed.

Lemma absent_descendants (r : ref) (n : node) :
  absent r (children n) <-> ~ In r (tag_ids (descendants n)).
Proof. unfold absent. now rewrite descendants_all_nodes. Qed.

Lemma without_absent (r : ref) (ns : list node) :
  absent r ns -> without r ns = ns.
Proof.
  intros H. unfold without. apply flat_map_same. intros x Hx.
  destruct (absent_In r ns x H Hx) as [Hid Hc].
  rewrite Hid. f_equal. apply prune_absent. now apply absent_descendants.
Qed.

Lemma without_app (r : ref) (l1 l2 : list node) :
  without r (l1 ++ l2) = without r l1 ++ without r l2.
Proof. unfold without. apply flat_map_app. Qed.

Lemma graft_absent (r : ref) (before after : list node) (n : node) :
  absent r (children n) -> graft r before after n = n.
Proof.
  induction n as [s | i nm c a cs IH] using node_induction; intros H;
    [reflexivity|].
  simpl. f_equal. apply flat_map_same. intros x Hx.
  destruct (absent_In r cs x H Hx) as [Hid Hc].
  rewrite Hid. f_equal. rewrite Forall_forall in IH. now apply IH.
Qed.

Lemma graft_all_absent (r : ref) (before after : list node) (ns : list node) :
  absent r ns -> graft_all r before after ns = ns.
Proof.
  intros H. unfold graft_all. apply flat_map_same. intros x Hx.
  destruct (absent_In r ns x H Hx) as [Hid Hc].
  rewrite Hid. f_equal. now apply graft_absent.
Qed.

Lemma replace_absent (r : ref) (new : list node) (n : node) :
  absent r (children n) -> replace r new n = n.
Proof.
  induction n as [s | i nm c a cs IH] using node_induction; intros H;
    [reflexivity|].
  simpl. f_equal. apply flat_map_same. intros x Hx.
  destruct (absent_In r cs x H Hx) as [Hid Hc].
  rewrite Hid. f_equal. rewrite Forall_forall in IH. now apply IH.
Qed.

Lemma update_attrs_absent (r : ref) f (n : node) :
  absent r [n] -> update_attrs r f n = n.
Proof.
  induction n as [s | i nm c a cs IH] using node_induction; intros H;
    [reflexivity|].
  apply absent_cons in H as (Hid & Hc & _). simpl in Hid, Hc |- *.
  rewrite Hid. f_equal.
  rewrite <- (map_id cs) at 2. apply map_ext_in. intros x Hx.
  rewrite Forall_forall in IH. apply IH; [assumption|].
  apply in_split in Hx as (l1 & l2 & ->).
  apply absent_app in Hc as [_ Hc]. apply absent_cons in Hc as (H1 & H2 & _).
  apply absent_cons. now repeat split; [| |apply absent_nil].
Qed.

Lemma map_update_attrs_absent (r : ref) f (ns : list node) :
  absent r ns -> map (update_attrs r f) ns = ns.
Proof.
  intros H. rewrite <- (map_id ns) at 2. apply map_ext_in. intros x Hx.
  apply update_attrs_absent.
  apply in_split in Hx as (l1 & l2 & ->).
  apply absent_app in H as [_ H]. apply absent_cons in H as (H1 & H2 & _).
  apply absent_cons. now repeat split; [| |apply absent_nil].
Qed.

(** *** The operations at a place *)

Lemma plug_app (c1 c2 : list frame) (ns : list node) :
  plug (c1 ++ c2) ns = plug c2 (plug c1 ns).
Proof.
  revert ns; induction c1 as [|fr c1 IH]; intros ns; [reflexivity|].
  simpl. apply IH.
Qed.

Lemma plug_single (ctx : list frame) (ns : list node) :
  ctx <> [] -> exists root, plug ctx ns = [root] /\ is_tag root = true.
Proof.
  revert ns; induction ctx as [|fr ctx IH]; intros ns H; [congruence|].
  simpl. destruct ctx as [|fr' ctx].
  - now exists (wrap fr ns).
  - apply IH. discriminate.
Qed.

Lemma without_plug (r : ref) (ctx : list frame) (ns : list node) :
  apart r ctx -> without r (plug ctx ns) = plug ctx (without r ns).
Proof.
  revert ns; induction ctx as [|fr ctx IH]; intros ns H; [reflexivity|].
  inversion H as [|? ? (Hid & Hl & Hr) Hctx]; subst.
  simpl. rewrite (IH _ Hctx). f_equal.
  unfold without at 1. simpl.
  destruct (Nat.eqb_spec (f_id fr) r) as [E|_]; [congruence|].
  simpl. unfold wrap. do 2 f_equal.
  change (flat_map _ ?l) with (without r l).
  unfold without. rewrite !flat_map_app.
  change (flat_map _ ?l) with (without r l).
  now rewrite (without_absent r _ Hl), (without_absent r _ Hr).
Qed.

Lemma graft_all_plug (r : ref) (before after : list node)
  (ctx : list frame) (ns : list node) :
  apart r ctx ->
  graft_all r before after (plug ctx ns)
  = plug ctx (graft_all r before after ns).
Proof.
  revert ns; induction ctx as [|fr ctx IH]; intros ns H; [reflexivity|].
  inversion H as [|? ? (Hid & Hl & Hr) Hctx]; subst.
  simpl. rewrite (IH _ Hctx). f_equal.
  unfold graft_all at 1. simpl.
  destruct (Nat.eqb_spec (f_id fr) r) as [E|_]; [congruence|].
  simpl. unfold wrap. do 2 f_equal.
  rewrite !flat_map_app.
  change (flat_map _ ?l) with (graft_all r before after l).
  now rewrite (graft_all_absent r _ _ _ Hl), (graft_all_absent r _ _ _ Hr).
Qed.

Lemma update_attrs_plug (r : ref) f (ctx : list frame) (ns : list node) :
  apart r ctx ->
  map (update_attrs r f) (plug ctx ns) = plug ctx (map (update_attrs r f) ns).
Proof.
  revert ns; induction ctx as [|fr ctx IH]; intros ns H; [reflexivity|].
  inversion H as [|? ? (Hid & Hl & Hr) Hctx]; subst.
  simpl. rewrite (IH _ Hctx). f_equal. simpl.
  destruct (Nat.eqb_spec (f_id fr) r) as [E|_]; [congruence|].
  unfold wrap. do 2 f_equal. rewrite !map_app.
  now rewrite (map_update_attrs_absent r f _ Hl),
    (map_update_attrs_absent r f _ Hr).
Qed.

(** At the top the operations do not take a root away nor put anything
    beside it. *)
Lemma map_prune_without (r : ref) (d : dom) :
  (forall x, In x d -> has_id r x = false) -> map (prune r) d = without r d.
Proof.
  induction d as [|x d IH]; intros H; [reflexivity|].
  rewrite without_cons, (H x (or_introl eq_refl)). simpl. f_equal.
  apply IH. intros y Hy. apply H. now right.
Qed.

Lemma map_graft_all (r : ref) (before after : list node) (d : dom) :
  (forall x, In x d -> has_id r x = false) ->
  map (graft r before after) d = graft_all r before after d.
Proof.
  induction d as [|x d IH]; intros H; [reflexivity|].
  unfold graft_all in *. simpl. rewrite (H x (or_introl eq_refl)). simpl.
  f_equal. apply IH. intros y Hy. apply H. now right.
Qed.

Lemma plug_root_id (r : ref) (ctx : list frame) (ns : list node) :
  ctx <> [] -> apart r ctx ->
  forall x, In x (plug ctx ns) -> has_id r x = false.
Proof.
  revert ns; induction ctx as [|fr ctx IH]; intros ns Hne H; [congruence|].
  inversion H as [|? ? (Hid & _) Hctx]; subst. simpl.
  destruct ctx as [|fr' ctx].
  - intros x [<- | []]. simpl. now apply Nat.eqb_neq.
  - apply IH; [discriminate | assumption].
Qed.

(** Looking an element up through the tree around it. *)
Lemma find_plug (r : ref) (ctx : list frame) (ns : list node) :
  apart r ctx ->
  find (has_id r) (all_nodes (plug ctx ns)) = find (has_id r) (all_nodes ns).
Proof.
  revert ns; induction ctx as [|fr ctx IH]; intros ns H; [reflexivity|].
  inversion H as [|? ? (Hid & Hl & Hr) Hctx]; subst.
  simpl plug. rewrite (IH _ Hctx).
  rewrite all_nodes_cons, descendants_all_nodes.
  cbn [children wrap all_nodes flat_map]. rewrite app_nil_r.
  cbn [find].
  assert (Hw : has_id r (wrap fr ns) = false) by now apply Nat.eqb_neq.
  rewrite Hw, !all_nodes_app, !find_app.
  assert (Hnone : forall l, absent r l -> find (has_id r) (all_nodes l) = None).
  { intros l Hl'. apply find_None. intros x Hx.
    destruct (has_id r x) eqn:E; [|reflexivity].
    exfalso. apply Hl'. apply in_tag_ids. now exists x. }
  rewrite (Hnone _ Hl), (Hnone _ Hr).
  now destruct (find (has_id r) (all_nodes ns)).
Qed.

Lemma in_all_nodes_plug (ctx : list frame) (ns : list node) (x : node) :
  In x (all_nodes ns) -> In x (all_nodes (plug ctx ns)).
Proof.
  revert ns; induction ctx as [|fr ctx IH]; intros ns H; [assumption|].
  simpl. apply IH. rewrite all_nodes_cons. right. apply in_or_app. left.
  rewrite descendants_all_nodes. simpl. rewrite !all_nodes_app.
  apply in_or_app. right. apply in_or_app. now left.
Qed.

Lemma wrap_in_plug (fr : frame) (ctx : list frame) (ns : list node) :
  In (wrap fr ns) (all_nodes (plug (fr :: ctx) ns)).
Proof. simpl. apply in_all_nodes_plug. now left. Qed.

(** *** Distinct identities around a place *)

Lemma ids_wrap (fr : frame) (ns : list node) :
  tag_ids (all_nodes [wrap fr ns])
  = f_id fr :: tag_ids (all_nodes (f_left fr)) ++ tag_ids (all_nodes ns)
      ++ tag_ids (all_nodes (f_right fr)).
Proof.
  rewrite all_nodes_cons, descendants_all_nodes. cbn [children wrap all_nodes flat_map].
  rewrite app_nil_r, tag_ids_cons. cbn [is_tag node_id app].
  now rewrite !all_nodes_app, !tag_ids_app.
Qed.

Lemma distinct_inside (ctx : list frame) (ns : list node) :
  distinct_ids (plug ctx ns) ->
  NoDup (tag_ids (all_nodes ns))
  /\ forall r, In r (tag_ids (all_nodes ns)) -> apart r ctx.
Proof.
  unfold distinct_ids.
  revert ns; induction ctx as [|fr ctx IH]; intros ns H.
  - split; [assumption|]. intros r _. constructor.
  - simpl in H. destruct (IH _ H) as [Hnd Hap].
    rewrite ids_wrap in Hnd, Hap.
    apply NoDup_cons_iff in Hnd as [Hhead Hnd].
    split.
    + apply NoDup_app_remove_l in Hnd. now apply NoDup_app_remove_r in Hnd.
    + intros r Hr. constructor.
      * split; [|split].
        -- intros E. apply Hhead. rewrite E.
           apply in_or_app. right. apply in_or_app. now left.
        -- intros Hl. apply (NoDup_app_disjoint _ _ r Hnd Hl).
           apply in_or_app. now left.
        -- intros Hr'. apply NoDup_app_remove_l in Hnd.
           exact (NoDup_app_disjoint _ _ r Hnd Hr Hr').
      * apply Hap. right. apply in_or_app. right. apply in_or_app. now left.
Qed.

Lemma ids_inside (r : ref) (ctx : list frame) (ns : list node) :
  apart r ctx ->
  In r (tag_ids (all_nodes (plug ctx ns))) -> In r (tag_ids (all_nodes ns)).
Proof.
  revert ns; induction ctx as [|fr ctx IH]; intros ns H Hr; [assumption|].
  inversion H as [|? ? (Hid & Hl & Hrr) Hctx]; subst.
  simpl in Hr. apply (IH _ Hctx) in Hr. rewrite ids_wrap in Hr.
  destruct Hr as [E | Hr]; [congruence|].
  apply in_app_or in Hr as [Hr | Hr]; [now apply Hl in Hr|].
  apply in_app_or in Hr as [Hr | Hr]; [assumption | now apply Hrr in Hr].
Qed.

(** Every element below a node is at a place of the tree. *)
Lemma place_of (n x : node) :
  In x (descendants n) -> exists ctx, ctx <> [] /\ plug ctx [x] = [n].
Proof.
  induction n as [s | i nm c a cs IH] using node_induction; intros H;
    [destruct H|].
  apply in_descendants in H as (y & Hy & Hx). simpl in Hy.
  pose proof Hy as Hsplit. apply in_split in Hsplit as (l1 & l2 & ->).
  set (fr := {| f_id := i; f_name := nm; f_class := c; f_attrs := a;
                f_left := l1; f_right := l2 |}).
  destruct Hx as [<- | Hx].
  - exists [fr]. split; [discriminate | reflexivity].
  - rewrite Forall_forall in IH.
    destruct (IH y Hy Hx) as (ctx & Hne & Hp).
    exists (ctx ++ [fr]). split; [now destruct ctx|].
    rewrite plug_app, Hp. reflexivity.
Qed.

Lemma replace_plug (r : ref) (new : list node) (ctx : list frame)
  (ns : list node) :
  apart r ctx ->
  flat_map (fun x => if has_id r x then new else [replace r new x])
    (plug ctx ns)
  = plug ctx (flat_map (fun x => if has_id r x then new
                                 else [replace r new x]) ns).
Proof.
  revert ns; induction ctx as [|fr ctx IH]; intros ns H; [reflexivity|].
  inversion H as [|? ? (Hid & Hl & Hr) Hctx]; subst.
  simpl plug. rewrite (IH _ Hctx). f_equal.
  cbn [flat_map]. rewrite app_nil_r.
  assert (Hw : has_id r (wrap fr ns) = false) by now apply Nat.eqb_neq.
  rewrite Hw. unfold wrap. cbn [replace]. do 2 f_equal.
  rewrite !flat_map_app. f_equal; [|f_equal].
  - apply flat_map_same. intros x Hx.
    destruct (absent_In r _ x Hl Hx) as [Hx1 Hx2].
    rewrite Hx1. f_equal. now apply replace_absent.
  - apply flat_map_same. intros x Hx.
    destruct (absent_In r _ x Hr Hx) as [Hx1 Hx2].
    rewrite Hx1. f_equal. now apply replace_absent.
Qed.

(** Replacing the element at a place. *)
Lemma replace_at_place (r : ref) (new : list node) (ctx : list frame)
  (x page : node) :
  ctx <> [] -> apart r ctx -> has_id r x = true -> plug ctx [x] = [page] ->
  [replace r new page] = plug ctx new.
Proof.
  intros Hne Hap Hx Hp.
  pose proof (replace_plug r new ctx [x] Hap) as E.
  rewrite Hp in E. cbn [flat_map] in E. rewrite Hx, !app_nil_r in E.
  assert (Hroot : has_id r page = false).
  { apply (plug_root_id r ctx [x] Hne Hap). rewrite Hp. now left. }
  now rewrite Hroot in E.
Qed.

Lemma ids_plug_mono (ctx : list frame) (ns ns' : list node) (r : ref) :
  (In r (tag_ids (all_nodes ns)) -> In r (tag_ids (all_nodes ns'))) ->
  In r (tag_ids (all_nodes (plug ctx ns))) ->
  In r (tag_ids (all_nodes (plug ctx ns'))).
Proof.
  revert ns ns'; induction ctx as [|fr ctx IH]; intros ns ns' H; [exact H|].
  simpl. apply IH. rewrite !ids_wrap. simpl. rewrite !in_app_iff. tauto.
Qed.

Lemma fresh_absent (d : dom) : absent (fresh d) d.
Proof.
  intros H. apply in_tag_ids in H as (x & Hx & Hid).
  apply has_id_spec in Hid as [_ Hid]. apply fresh_above in Hx. lia.
Qed.

Lemma absent_around (r : ref) (ctx : list frame) (ns : list node) :
  absent r (plug ctx ns) -> apart r ctx /\ absent r ns.
Proof.
  revert ns; induction ctx as [|fr ctx IH]; intros ns H.
  - split; [constructor | assumption].
  - simpl in H. destruct (IH _ H) as [Hap Hw].
    unfold absent in Hw. rewrite ids_wrap in Hw. simpl in Hw.
    rewrite !in_app_iff in Hw. split.
    + constructor; [|assumption]. unfold absent. tauto.
    + unfold absent. tauto.
Qed.

Lemma outermost_frame (ctx : list frame) (ns : list node) (root : node) :
  ctx <> [] -> plug ctx ns = [root] ->
  exists fr, In fr ctx /\ f_id fr = node_id root.
Proof.
  revert ns; induction ctx as [|fr ctx IH]; intros ns Hne H; [congruence|].
  simpl in H. destruct ctx as [|fr' ctx].
  - simpl in H. injection H as <-. exists fr. split; [now left | reflexivity].
  - destruct (IH [wrap fr ns]) as (fr0 & Hin & Hid); [discriminate|exact H|].
    exists fr0. split; [now right | assumption].
Qed.

Lemma has_id_true (r : ref) (n : node) :
  has_id r n = true -> forall r', has_id r' n = Nat.eqb r r'.
Proof.
  destruct n as [s | i nm c a cs]; simpl; [discriminate|].
  intros H r'. apply Nat.eqb_eq in H. now subst.
Qed.

Lemma existsb_middle (r : ref) (l1 l2 ns : list node) (x : node) :
  In x ns -> has_id r x = true ->
  existsb (has_id r) (l1 ++ ns ++ l2) = true.
Proof.
  intros Hx Hid. apply existsb_exists. exists x. split; [|assumption].
  apply in_or_app. right. apply in_or_app. now left.
Qed.

(** An element at a place that has something around it has a parent. *)
Lemma parent_at_place (r : ref) (ctx : list frame) (ns det : list node)
  (x : node) :
  ctx <> [] -> In x ns -> has_id r x = true ->
  parent_of (plug ctx ns ++ det) r <> None.
Proof.
  intros Hne Hx Hid. destruct ctx as [|fr ctx]; [congruence|].
  apply (parent_of_exists _ r (wrap fr ns)).
  - rewrite all_nodes_app. apply in_or_app. left. apply wrap_in_plug.
  - now apply (existsb_middle r _ _ ns x).
Qed.

Lemma get_at_place (r : ref) (ctx : list frame) (ns det : list node) :
  apart r ctx -> find (has_id r) (all_nodes ns) <> None ->
  get (plug ctx ns ++ det) r = find (has_id r) (all_nodes ns).
Proof.
  intros Hap Hsome. unfold get. rewrite all_nodes_app, find_app, find_plug
    by assumption.
  now destruct (find (has_id r) (all_nodes ns)).
Qed.

Lemma find_absent (r : ref) (l : list node) :
  absent r l -> find (has_id r) (all_nodes l) = None.
Proof.
  intros Hl. apply find_None. intros x Hx.
  destruct (has_id r x) eqn:E; [|reflexivity].
  exfalso. apply Hl. apply in_tag_ids. now exists x.
Qed.

Lemma ids_with_attr (k v : string) (n : node) :
  tag_ids (all_nodes [with_attr k v n]) = tag_ids (all_nodes [n]).
Proof. now destruct n. Qed.

Lemma update_attrs_root (r : ref) f (n : node) :
  has_id r n = true -> absent r (children n) ->
  update_attrs r f n
  = match n with
    | Tag i nm c a cs => Tag i nm c (f a) cs
    | Text s => Text s
    end.
Proof.
  destruct n as [s | i nm c a cs]; [reflexivity|]. simpl. intros -> H.
  f_equal. now apply map_update_attrs_absent.
Qed.

(** *** What stays when the nodes at a place are replaced *)

Lemma all_nodes_wrap (fr : frame) (ns : list node) :
  all_nodes [wrap fr ns]
  = wrap fr ns
    :: all_nodes (f_left fr) ++ all_nodes ns ++ all_nodes (f_right fr).
Proof.
  rewrite all_nodes_cons, descendants_all_nodes.
  cbn [children wrap all_nodes flat_map]. rewrite app_nil_r.
  now rewrite !all_nodes_app.
Qed.

(** An element of the tree is at the place, or above it, or beside the
    path to it; in the last case it is there whatever is at the place. *)
Lemma in_plug_cases (ctx : list frame) (ns : list node) (x : node) :
  In x (all_nodes (plug ctx ns)) ->
  In x (all_nodes ns)
  \/ (forall y, In y ns -> In y (descendants x))
  \/ (forall ns', In x (all_nodes (plug ctx ns'))).
Proof.
  revert ns; induction ctx as [|fr ctx IH]; intros ns H; [now left|].
  simpl in H. destruct (IH _ H) as [H1 | [H2 | H3]].
  - rewrite all_nodes_wrap in H1. destruct H1 as [<- | H1].
    + right. left. intros y Hy. apply in_descendants. exists y.
      split; [|now left]. simpl.
      apply in_or_app. right. apply in_or_app. now left.
    + apply in_app_or in H1 as [H1 | H1].
      * right. right. intros ns'. simpl. apply in_all_nodes_plug.
        rewrite all_nodes_wrap. right. apply in_or_app. now left.
      * apply in_app_or in H1 as [H1 | H1]; [now left|].
        right. right. intros ns'. simpl. apply in_all_nodes_plug.
        rewrite all_nodes_wrap. right. apply in_or_app. right.
        apply in_or_app. now right.
  - right. left. intros y Hy.
    apply (descendants_trans x (wrap fr ns) y); [apply H2; now left|].
    apply in_descendants. exists y. split; [|now left]. simpl.
    apply in_or_app. right. apply in_or_app. now left.
  - right. right. intros ns'. simpl. apply H3.
Qed.

(** Nodes with distinct identities that are new around the place keep
    the identities of the tree distinct. *)
Lemma distinct_plug (ctx : list frame) (ns ns' : list node) :
  distinct_ids (plug ctx ns) ->
  NoDup (tag_ids (all_nodes ns')) ->
  (forall r, In r (tag_ids (all_nodes ns')) -> apart r ctx) ->
  distinct_ids (plug ctx ns').
Proof.
  unfold distinct_ids.
  revert ns ns'; induction ctx as [|fr ctx IH]; intros ns ns' H Hnd Hap;
    [assumption|].
  simpl in *. apply (IH [wrap fr ns]); [assumption| |].
  - destruct (distinct_inside ctx [wrap fr ns] H) as [Hw _].
    rewrite ids_wrap in Hw |- *.
    apply NoDup_cons_iff in Hw as [Hhead Hw].
    assert (Hfr : forall r, In r (tag_ids (all_nodes ns')) ->
                    f_id fr <> r /\ absent r (f_left fr)
                    /\ absent r (f_right fr)).
    { intros r Hr. specialize (Hap r Hr). now inversion Hap. }
    apply NoDup_cons.
    + rewrite !in_app_iff in Hhead |- *. intros [Hl | [Hn | Hr]].
      * apply Hhead. now left.
      * now destruct (Hfr _ Hn) as [Hne _].
      * apply Hhead. right. now right.
    + apply NoDup_app.
      * now apply NoDup_app_remove_r in Hw.
      * apply NoDup_app; [assumption| |].
        -- apply NoDup_app_remove_l in Hw. now apply NoDup_app_remove_l in Hw.
        -- intros r Hr. now destruct (Hfr _ Hr) as (_ & _ & Hno).
      * intros r Hl Hin. apply in_app_or in Hin as [Hn | Hr].
        -- destruct (Hfr _ Hn) as (_ & Hno & _). now apply Hno.
        -- apply (NoDup_app_disjoint _ _ r Hw Hl).
           apply in_or_app. now right.
  - intros r Hr. rewrite ids_wrap in Hr.
    assert (Hold : In r (tag_ids (all_nodes [wrap fr ns])) -> apart r ctx)
      by apply (proj2 (distinct_inside ctx [wrap fr ns] H)).
    rewrite ids_wrap in Hold.
    destruct Hr as [<- | Hr]; [apply Hold; now left|].
    apply in_app_or in Hr as [Hr | Hr].
    { apply Hold. right. apply in_or_app. now left. }
    apply in_app_or in Hr as [Hr | Hr].
    { specialize (Hap r Hr). now inversion Hap. }
    apply Hold. right. apply in_or_app. right. apply in_or_app. now right.
Qed.

(** With distinct identities, a reference denotes the one element that
    has it. *)
Lemma get_unique (d : dom) (x : node) :
  distinct_ids d -> In x (all_nodes d) -> is_tag x = true ->
  get d (node_id x) = Some x.
Proof.
  intros Hd Hx Htag.
  pose proof (get_exists d x Hx Htag) as H.
  destruct (get d (node_id x)) as [y|] eqn:E; [clear H|congruence].
  apply get_Some in E as [Hy Hid]. f_equal.
  apply (one_node_per_id d (node_id x)); try assumption.
  now apply has_id_spec.
Qed.

Lemma replace_root_id (r : ref) (new : list node) (n : node) :
  node_id (replace r new n) = node_id n /\ is_tag (replace r new n) = is_tag n.
Proof. now destruct n. Qed.
(** *** One spoiler, at its place in the page *)

Section SpoilerAtPlace.
Variables (ctx ctx2 : list frame) (W I : node) (s i : ref) (t : string).
(** The elements that were taken out of the page before. *)
Variable det : list node.
Hypothesis around_spoiler : ctx <> [].
Hypothesis around_inner : ctx2 <> [].
Hypothesis inner_in_spoiler : plug ctx2 [I] = [W].
Hypothesis distinct : distinct_ids (plug ctx [W]).
Hypothesis spoiler_id : has_id s W = true.
Hypothesis inner_id : has_id i I = true.

Local Abbreviation d := (plug ctx [W] ++ det).
Local Abbreviation h := (fresh (plug ctx [W] ++ det)).
Local Abbreviation hdr :=
  (Tag (fresh (plug ctx [W] ++ det)) "strong" (Some ["spoiler-header"]) []
     [Text t]).
Local Abbreviation I' := (with_attr "style" "" I).

Lemma spoiler_distinct : NoDup (tag_ids (all_nodes [W])).
Proof. exact (proj1 (distinct_inside ctx [W] distinct)). Qed.

Lemma in_ids_root (r : ref) (n : node) :
  has_id r n = true -> In r (tag_ids (all_nodes [n])).
Proof.
  intros H. apply in_tag_ids. exists n. split; [now left | assumption].
Qed.

Lemma inner_below : In I (all_nodes [W]).
Proof. rewrite <- inner_in_spoiler. apply in_all_nodes_plug. now left. Qed.

Lemma spoiler_apart : apart s ctx.
Proof.
  apply (proj2 (distinct_inside ctx [W] distinct)). now apply in_ids_root.
Qed.

Lemma inner_apart : apart i ctx.
Proof.
  apply (proj2 (distinct_inside ctx [W] distinct)).
  apply in_tag_ids. exists I. split; [apply inner_below | assumption].
Qed.

Lemma inner_apart2 : apart i ctx2.
Proof.
  pose proof spoiler_distinct as H. rewrite <- inner_in_spoiler in H.
  apply (proj2 (distinct_inside ctx2 [I] H)). now apply in_ids_root.
Qed.

Lemma spoiler_not_inner : has_id i W = false.
Proof.
  apply (plug_root_id i ctx2 [I] around_inner inner_apart2).
  rewrite inner_in_spoiler. now left.
Qed.

Lemma spoiler_not_below_inner : absent s [I].
Proof.
  intros H.
  pose proof spoiler_distinct as Hnd. rewrite <- inner_in_spoiler in Hnd.
  pose proof (proj2 (distinct_inside ctx2 [I] Hnd) s H) as Hap.
  destruct (outermost_frame ctx2 [I] W around_inner inner_in_spoiler)
    as (fr & Hfr & Hid).
  unfold apart in Hap. rewrite Forall_forall in Hap.
  destruct (Hap fr Hfr) as [Hne _]. apply Hne. rewrite Hid.
  now apply has_id_spec in spoiler_id.
Qed.

Lemma ids_root (n : node) :
  is_tag n = true ->
  tag_ids (all_nodes [n]) = node_id n :: tag_ids (descendants n).
Proof.
  intros H. rewrite all_nodes_cons, tag_ids_cons, H. simpl.
  now rewrite app_nil_r.
Qed.

Lemma not_below_root (r : ref) (n : node) :
  NoDup (tag_ids (all_nodes [n])) -> has_id r n = true ->
  absent r (children n).
Proof.
  intros Hnd Hid. apply has_id_spec in Hid as [Htag <-].
  rewrite (ids_root n Htag) in Hnd. apply NoDup_cons_iff in Hnd as [Hno _].
  now apply absent_descendants.
Qed.

Lemma spoiler_not_below_itself : absent s (children W).
Proof. exact (not_below_root s W spoiler_distinct spoiler_id). Qed.

Lemma inner_not_below_itself : absent i (children I).
Proof.
  apply not_below_root; [|assumption].
  pose proof spoiler_distinct as H. rewrite <- inner_in_spoiler in H.
  exact (proj1 (distinct_inside ctx2 [I] H)).
Qed.

(** The wrapper once the spoiler text was taken out of it. *)
Lemma wrapper_without_inner : [prune i W] = plug ctx2 [].
Proof.
  pose proof (without_plug i ctx2 [I] inner_apart2) as E.
  rewrite inner_in_spoiler in E.
  assert (E1 : without i [W] = [prune i W])
    by (rewrite without_cons, spoiler_not_inner; reflexivity).
  assert (E2 : without i [I] = [])
    by (rewrite without_cons, inner_id; reflexivity).
  now rewrite E1, E2 in E.
Qed.

Lemma inner_not_in_wrapper : absent i [prune i W].
Proof.
  intros H. rewrite wrapper_without_inner in H.
  now apply (ids_inside i ctx2 [] inner_apart2) in H.
Qed.

(** The new header is no element of the page. *)
Lemma header_apart : apart h ctx /\ absent h [W].
Proof.
  pose proof (fresh_absent (plug ctx [W] ++ det)) as H.
  apply absent_app in H as [H _]. now apply absent_around.
Qed.

Lemma below_fresh (r : ref) :
  In r (tag_ids (all_nodes [W])) -> Nat.eqb h r = false.
Proof.
  intros H. apply Nat.eqb_neq. intros E.
  apply (proj2 header_apart). now rewrite E.
Qed.

(** Lines 140-142. *)
Lemma insert_header :
  insert_before s hdr d
  = (Ok tt, plug ctx [hdr; W] ++ map (graft s [hdr] []) det).
Proof.
  unfold insert_before, bind, gets.
  pose proof (parent_at_place s ctx [W] det W around_spoiler
                (or_introl eq_refl) spoiler_id) as Hp.
  destruct (parent_of d s) as [p|]; [clear Hp|congruence].
  unfold modify. f_equal. rewrite map_app. f_equal.
  rewrite map_graft_all
    by (apply (plug_root_id s ctx [W] around_spoiler spoiler_apart)).
  rewrite graft_all_plug by apply spoiler_apart.
  f_equal. unfold graft_all. simpl. rewrite spoiler_id. simpl.
  now rewrite (graft_absent s _ _ W spoiler_not_below_itself).
Qed.

Lemma move_inner (det1 : list node) :
  insert_after h i (plug ctx [hdr; W] ++ det1)
  = (Ok tt,
     plug ctx [hdr; I; prune i W] ++ map (graft h [] [I]) (without i det1)).
Proof.
  unfold insert_after, bind, gets.
  pose proof (parent_at_place h ctx [hdr; W] det1 hdr around_spoiler
                (or_introl eq_refl)) as Hp.
  destruct (parent_of (plug ctx [hdr; W] ++ det1) h) as [p|].
  2:{ exfalso. apply Hp; [|reflexivity]. simpl. apply Nat.eqb_refl. }
  clear Hp.
  assert (Hih : Nat.eqb i h = false).
  { rewrite Nat.eqb_sym. apply below_fresh.
    apply in_tag_ids. exists I. split; [apply inner_below | assumption]. }
  rewrite Hih.
  assert (Hget : get (plug ctx [hdr; W] ++ det1) i = Some I).
  { pose proof (get_at_place i ctx [hdr; W] det1 inner_apart) as G.
    assert (F : find (has_id i) (all_nodes [hdr; W]) = Some I).
    { rewrite all_nodes_cons. cbn [find has_id descendants flat_map app].
      rewrite Nat.eqb_sym, Hih.
      rewrite <- inner_in_spoiler, (find_plug i ctx2 [I] inner_apart2).
      rewrite all_nodes_cons. cbn [find]. now rewrite inner_id. }
    rewrite G by (rewrite F; discriminate). exact F. }
  rewrite Hget. unfold modify. f_equal.
  rewrite without_app, map_app. f_equal.
  rewrite (without_plug i ctx _ inner_apart).
  assert (Hw : without i [hdr; W] = [hdr; prune i W]).
  { rewrite !without_cons. cbn [has_id prune flat_map app].
    rewrite Nat.eqb_sym, Hih, spoiler_not_inner. reflexivity. }
  rewrite Hw.
  rewrite map_graft_all
    by (apply (plug_root_id h ctx _ around_spoiler (proj1 header_apart))).
  rewrite graft_all_plug by apply header_apart.
  f_equal. unfold graft_all. cbn [flat_map has_id graft app].
  rewrite Nat.eqb_refl. cbn [app].
  assert (Hs : has_id h (prune i W) = false).
  { rewrite prune_has_id. rewrite (has_id_true s W spoiler_id).
    rewrite Nat.eqb_sym. apply below_fresh. now apply in_ids_root. }
  rewrite Hs. cbn [app]. do 3 f_equal.
  apply graft_absent. apply absent_descendants. intros Hin.
  apply (pruned_tag_ids [i] W) in Hin.
  apply (proj2 header_apart).
  apply has_id_spec in spoiler_id as [Htag _].
  rewrite (ids_root W Htag). now right.
Qed.

Lemma clear_style (det2 : list node) :
  set_attr i "style" "" (plug ctx [hdr; I; prune i W] ++ det2)
  = (Ok tt,
     plug ctx [hdr; I'; prune i W]
     ++ map (update_attrs i (set_assoc "style" "")) det2).
Proof.
  unfold set_attr, modify. f_equal. rewrite map_app. f_equal.
  rewrite update_attrs_plug by apply inner_apart. f_equal.
  cbn [map update_attrs].
  rewrite (below_fresh i)
    by (apply in_tag_ids; exists I; split; [apply inner_below | assumption]).
  rewrite (update_attrs_root i _ I inner_id inner_not_below_itself).
  rewrite (update_attrs_absent i _ _ inner_not_in_wrapper).
  now destruct I.
Qed.

Lemma header_absent (r : ref) : Nat.eqb h r = false -> absent r [hdr].
Proof.
  intros H. apply absent_cons. cbn [has_id children]. split; [assumption|].
  split; [|apply absent_nil]. apply absent_cons. repeat split; apply absent_nil.
Qed.

Lemma spoiler_not_in_inner' : absent s [I'].
Proof.
  unfold absent. rewrite ids_with_attr. apply spoiler_not_below_inner.
Qed.

(** What is known of an element found in the wrapper. *)
Lemma in_wrapper (r : ref) :
  In r (tag_ids (descendants (prune i W))) ->
  apart r ctx /\ Nat.eqb h r = false /\ Nat.eqb s r = false
  /\ absent r [I'].
Proof.
  intros Hr.
  assert (HrW : In r (tag_ids (descendants W)))
    by now apply (pruned_tag_ids [i] W).
  pose proof spoiler_id as Hs. apply has_id_spec in Hs as [Htag Hs].
  assert (HrW' : In r (tag_ids (all_nodes [W])))
    by (rewrite (ids_root W Htag); now right).
  split; [now apply (proj2 (distinct_inside ctx [W] distinct))|].
  split; [now apply below_fresh|]. split.
  - apply Nat.eqb_neq. intros <-.
    now apply absent_descendants in HrW; [|apply spoiler_not_below_itself].
  - unfold absent. rewrite ids_with_attr. intros HrI.
    pose proof spoiler_distinct as Hnd. rewrite <- inner_in_spoiler in Hnd.
    pose proof (proj2 (distinct_inside ctx2 [I] Hnd) r HrI) as Hap.
    apply (ids_inside r ctx2 [] Hap).
    rewrite <- wrapper_without_inner.
    assert (Htag' : is_tag (prune i W) = true) by now rewrite prune_is_tag.
    rewrite (ids_root _ Htag'). now right.
Qed.

Lemma without_in_wrapper (r : ref) (Wj : node) :
  In r (tag_ids (descendants (prune i W))) -> has_id s Wj = true ->
  without r [hdr; I'; Wj] = [hdr; I'; prune r Wj].
Proof.
  intros Hr Hs. destruct (in_wrapper r Hr) as (_ & Hh & Hne & HI).
  apply absent_cons in HI as (HI1 & HI2 & _).
  rewrite !without_cons. cbn [has_id prune flat_map app].
  rewrite Hh, HI1, (has_id_true s Wj Hs), Hne. cbn [app].
  rewrite (prune_absent r I') by now apply absent_descendants.
  reflexivity.
Qed.

Lemma wrapper_found (det3 : list node) :
  get (plug ctx [hdr; I'; prune i W] ++ det3) s = Some (prune i W).
Proof.
  assert (F : find (has_id s) (all_nodes [hdr; I'; prune i W])
              = Some (prune i W)).
  { change [hdr; I'; prune i W] with ([hdr] ++ [I'] ++ [prune i W]).
    rewrite !all_nodes_app, !find_app.
    rewrite (find_absent s [I'] spoiler_not_in_inner').
    rewrite (find_absent s [hdr])
      by (apply header_absent, below_fresh; now apply in_ids_root).
    rewrite all_nodes_cons. cbn [find].
    now rewrite prune_has_id, spoiler_id. }
  pose proof (get_at_place s ctx [hdr; I'; prune i W] det3 spoiler_apart)
    as G.
  rewrite G by (rewrite F; discriminate). exact F.
Qed.

(** Lines 145-146: the blocks left in the wrapper are taken out, and the
    header and the spoiler text stay where they are. *)
Lemma strip_wrapper (det3 : list node) :
  exists W4 det4,
    for_each
      (refs_in (plug ctx [hdr; I'; prune i W] ++ det3) s
         (either (named "div") (named "input")))
      extract_el (plug ctx [hdr; I'; prune i W] ++ det3)
    = (Ok tt, plug ctx [hdr; I'; W4] ++ det4)
    /\ has_id s W4 = true.
Proof.
  set (d3 := plug ctx [hdr; I'; prune i W] ++ det3).
  set (L := refs_in d3 s (either (named "div") (named "input"))).
  destruct (for_each_total L extract_el d3) as [d4 E].
  { intros el s0. eexists. reflexivity. }
  assert (Inv : exists W4 det4,
             d4 = plug ctx [hdr; I'; W4] ++ det4 /\ has_id s W4 = true).
  { apply (for_each_invariant
             (fun d => exists W4 det4,
                  d = plug ctx [hdr; I'; W4] ++ det4 /\ has_id s W4 = true)
             L extract_el d3 d4); [| |exact E].
    - intros r s0 s1 Hr (Wj & detj & -> & Hs) Hstep.
      assert (Hr' : In r (tag_ids (descendants (prune i W))))
        by exact (refs_in_tag_ids d3 s (prune i W) _ r (wrapper_found det3)
                    Hr).
      unfold extract_el, modify in Hstep. injection Hstep as <-.
      destruct (parent_of _ r) as [p|]; [|now exists Wj, detj].
      destruct (get _ r) as [n|]; [|now exists Wj, detj].
      exists (prune r Wj), (map (prune r) detj ++ [n]). split.
      + rewrite map_app, <- app_assoc. f_equal.
        destruct (in_wrapper r Hr') as (Hap & _).
        rewrite map_prune_without
          by (apply (plug_root_id r ctx _ around_spoiler Hap)).
        rewrite (without_plug r ctx _ Hap).
        now rewrite (without_in_wrapper r Wj Hr' Hs).
      + now rewrite prune_has_id.
    - exists (prune i W), det3. split; [reflexivity|].
      now rewrite prune_has_id. }
  destruct Inv as (W4 & det4 & -> & Hs). now exists W4, det4.
Qed.

(** Line 149: the wrapper is taken out. *)
Lemma drop_wrapper (W4 : node) (det4 : list node) :
  has_id s W4 = true ->
  exists det',
    extract_el s (plug ctx [hdr; I'; W4] ++ det4)
    = (Ok tt, plug ctx [hdr; I'] ++ det').
Proof.
  intros Hs. unfold extract_el, modify.
  pose proof (parent_at_place s ctx [hdr; I'; W4] det4 W4 around_spoiler
                (or_intror (or_intror (or_introl eq_refl))) Hs) as Hp.
  destruct (parent_of _ s) as [p|]; [clear Hp|congruence].
  assert (Hg : get (plug ctx [hdr; I'; W4] ++ det4) s <> None).
  { apply (find_exists _ _ W4); [|assumption].
    rewrite all_nodes_app. apply in_or_app. left.
    apply in_all_nodes_plug. change [hdr; I'; W4] with ([hdr; I'] ++ [W4]).
    rewrite all_nodes_app. apply in_or_app. right. now left. }
  destruct (get _ s) as [n|]; [clear Hg|congruence].
  exists (map (prune s) det4 ++ [n]). f_equal.
  rewrite map_app, <- app_assoc. f_equal.
  rewrite map_prune_without
    by (apply (plug_root_id s ctx _ around_spoiler spoiler_apart)).
  rewrite (without_plug s ctx _ spoiler_apart). f_equal.
  pose proof spoiler_not_in_inner' as HI.
  apply absent_cons in HI as (HI1 & HI2 & _).
  rewrite !without_cons. cbn [has_id prune flat_map app].
  rewrite (below_fresh s) by now apply in_ids_root.
  rewrite HI1, Hs. cbn [app].
  rewrite (prune_absent s I') by now apply absent_descendants.
  reflexivity.
Qed.

Lemma inner_ids_below (r : ref) :
  In r (tag_ids (all_nodes [I])) -> In r (tag_ids (all_nodes [W])).
Proof.
  intros H. apply in_tag_ids in H as (x & Hx & Hid).
  apply in_tag_ids. exists x. split; [|assumption].
  rewrite <- inner_in_spoiler. now apply in_all_nodes_plug.
Qed.

(** The page with the header and the spoiler text at the place of the
    spoiler has distinct identities. *)
Lemma replaced_distinct : distinct_ids (plug ctx [hdr; I']).
Proof.
  assert (Hids : tag_ids (all_nodes [hdr; I']) = h :: tag_ids (all_nodes [I])).
  { change [hdr; I'] with ([hdr] ++ [I']).
    rewrite all_nodes_app, tag_ids_app, ids_with_attr. reflexivity. }
  apply (distinct_plug ctx [W]); [exact distinct| |]; rewrite Hids.
  - apply NoDup_cons.
    + intros H. apply (proj2 header_apart). now apply inner_ids_below.
    + pose proof spoiler_distinct as H. rewrite <- inner_in_spoiler in H.
      exact (proj1 (distinct_inside ctx2 [I] H)).
  - intros r [<- | Hr]; [apply header_apart|].
    apply (proj2 (distinct_inside ctx [W] distinct)).
    now apply inner_ids_below.
Qed.

(** Lines 134-149 on a spoiler that has its blocks. *)
Lemma unwrap_at_place (block : ref) :
  first_in d s spoilerContent = Some block ->
  first_in d block spoiler_inner_block = Some i ->
  exists det',
    unwrap_spoiler s hdr d = (Ok tt, plug ctx [hdr; I'] ++ det').
Proof.
  intros Hb Hi. unfold unwrap_spoiler.
  rewrite (bind_ok (find_first s spoilerContent) _ d _ d eq_refl), Hb.
  rewrite (bind_ok (find_first block spoiler_inner_block) _ d _ d eq_refl), Hi.
  rewrite (bind_ok _ _ _ _ _ insert_header).
  cbn [node_id].
  rewrite (bind_ok _ _ _ _ _ (move_inner _)).
  rewrite (bind_ok _ _ _ _ _ (clear_style _)).
  destruct (strip_wrapper
              (map (update_attrs i (set_assoc "style" ""))
                 (map (graft h [] [I])
                    (without i (map (graft s [hdr] []) det)))))
    as (W4 & det4 & Hloop & Hs).
  match goal with
  | |- context [bind (find_all ?e ?p) _ ?st] =>
      rewrite (bind_ok (find_all e p) _ st _ st eq_refl)
  end.
  rewrite (bind_ok _ _ _ _ _ Hloop).
  exact (drop_wrapper W4 det4 Hs).
Qed.
End SpoilerAtPlace.

(** Looking an element of the page up when other elements were taken
    out of it before. *)
Lemma get_first_root (page : node) (det : list node) (r : ref) :
  get [page] r <> None -> get (page :: det) r = get [page] r.
Proof.
  unfold get. change (page :: det) with ([page] ++ det).
  rewrite all_nodes_app, find_app.
  now destruct (find (has_id r) (all_nodes [page])).
Qed.

Lemma refs_in_first_root (page : node) (det : list node) (r : ref)
  (p : node -> bool) :
  get [page] r <> None -> refs_in (page :: det) r p = refs_in [page] r p.
Proof. intros H. unfold refs_in. now rewrite get_first_root. Qed.

Lemma first_in_found (d : dom) (r x : ref) (p : node -> bool) :
  first_in d r p = Some x -> get d r <> None.
Proof.
  unfold first_in, refs_in. now destruct (get d r).
Qed.

Lemma found_is_there (d : dom) (r x : ref) (p : node -> bool) :
  first_in d r p = Some x -> get d x <> None.
Proof.
  intros H. apply first_in_In, refs_in_present in H
    as (n & y & Hn & Hy & Htag & _ & <-).
  apply get_exists; [|assumption].
  apply get_Some in Hn as [Hn _].
  apply (all_nodes_closed d n); [assumption | now right].
Qed.

(** The step of the normalizer for a spoiler of the page that has its
    label and its blocks, when elements [det] were taken out of the page
    before: the spoiler is replaced by the header and the spoiler text. *)
Lemma spoiler_step (page : node) (det : list node)
  (spoiler label block inner : ref) (W I : node) :
  distinct_ids [page] ->
  In W (descendants page) -> has_id spoiler W = true ->
  first_in [page] spoiler smalltext = Some label ->
  first_in [page] spoiler spoilerContent = Some block ->
  first_in [page] block spoiler_inner_block = Some inner ->
  get [page] inner = Some I ->
  let page' :=
    replace spoiler
      [Tag (fresh (page :: det)) "strong" (Some ["spoiler-header"]) []
         [Text (spoiler_header_of
                  (if nonempty (text_strip_ref [page] label)
                   then text_strip_ref [page] label else " "))];
       with_attr "style" "" I]
      page in
  (exists det', clean_spoiler spoiler (page :: det) = (Ok tt, page' :: det'))
  /\ absent (fresh (page :: det)) [page]
  /\ distinct_ids [page']
  /\ forall x, In x (descendants page) -> ~ In x (all_nodes [W]) ->
               ~ In W (descendants x) -> In x (descendants page').
Proof.
  intros Hd HWpage HWid Hlabel Hblock Hinner HI.
  set (title := if nonempty (text_strip_ref [page] label)
                then text_strip_ref [page] label else " "%string).
  assert (HWall : In W (all_nodes [page])).
  { unfold all_nodes. simpl. rewrite app_nil_r. now right. }
  (* the spoiler text is an element below the spoiler *)
  assert (HIW : In I (descendants W) /\ has_id inner I = true).
  { pose proof Hblock as Hb. apply first_in_In, refs_in_present in Hb
      as (n1 & x & Hn1 & Hx & Hxtag & _ & Hxid).
    apply get_Some in Hn1 as [Hn1 Hn1id].
    assert (n1 = W) by now apply (one_node_per_id [page] spoiler). subst n1.
    pose proof Hinner as Hi. apply first_in_In, refs_in_present in Hi
      as (n2 & y & Hn2 & Hy & Hytag & _ & Hyid).
    apply get_Some in Hn2 as [Hn2 Hn2id].
    assert (Hxall : In x (all_nodes [page]))
      by (apply (all_nodes_closed [page] W); [assumption | now right]).
    assert (n2 = x).
    { apply (one_node_per_id [page] block); try assumption.
      now apply has_id_spec. }
    subst n2.
    assert (HyW : In y (descendants W))
      by now apply (descendants_trans W x y).
    pose proof HI as HI'. apply get_Some in HI' as [HIall HIid].
    assert (I = y).
    { apply (one_node_per_id [page] inner); try assumption.
      - apply (all_nodes_closed [page] W); [assumption | now right].
      - now apply has_id_spec. }
    subst y. now split. }
  destruct HIW as [HIW HIid].
  destruct (place_of page W HWpage) as (ctx & Hctx & Hp).
  destruct (place_of W I HIW) as (ctx2 & Hctx2 & Hp2).
  assert (Hroot : absent (node_id page) (children page)).
  { apply not_below_root; [exact Hd|].
    destruct page; [destruct HWpage | apply Nat.eqb_refl]. }
  rewrite <- Hp in Hd.
  pose proof (replaced_distinct ctx ctx2 W I (spoiler_header_of title) det
                Hp2 Hd) as Hd'.
  destruct (unwrap_at_place ctx ctx2 W I spoiler inner
              (spoiler_header_of title) det
              Hctx Hctx2 Hp2 Hd HWid HIid block) as (det' & Hrun).
  { rewrite Hp. cbn [app]. unfold first_in.
    rewrite refs_in_first_root
      by exact (first_in_found _ _ _ _ Hblock).
    exact Hblock. }
  { rewrite Hp. cbn [app]. unfold first_in.
    rewrite refs_in_first_root
      by exact (first_in_found _ _ _ _ Hinner).
    exact Hinner. }
  rewrite Hp in Hrun. cbn [app] in Hrun.
  assert (Hap : apart spoiler ctx).
  { apply (proj2 (distinct_inside ctx [W] Hd)).
    apply in_tag_ids. exists W. split; [now left | assumption]. }
  rewrite Hp in Hd'. cbn [app] in Hd'.
  pose proof (replace_at_place spoiler
                [Tag (fresh (page :: det)) "strong" (Some ["spoiler-header"])
                   [] [Text (spoiler_header_of title)];
                 with_attr "style" "" I] ctx W page Hctx Hap HWid Hp) as Hrep.
  rewrite <- Hrep in Hrun, Hd'.
  split; [|split; [|split]].
  2:{ pose proof (fresh_absent (page :: det)) as Hf.
      change (page :: det) with ([page] ++ det) in Hf at 2.
      now apply absent_app in Hf. }
  2:{ exact Hd'. }
  2:{ intros x Hx Hout Hnot.
      assert (Hxall : In x (all_nodes (plug ctx [W]))).
      { rewrite Hp. unfold all_nodes. simpl. rewrite app_nil_r. now right. }
      destruct (in_plug_cases ctx [W] x Hxall) as [H1 | [H2 | H3]].
      - now apply Hout in H1.
      - exfalso. apply Hnot, H2. now left.
      - specialize (H3 [Tag (fresh (page :: det)) "strong"
                          (Some ["spoiler-header"]) []
                          [Text (spoiler_header_of title)];
                        with_attr "style" "" I]).
        rewrite <- Hrep in H3. unfold all_nodes in H3. simpl in H3.
        rewrite app_nil_r in H3. destruct H3 as [E | H3]; [|exact H3].
        exfalso. apply Hroot. apply absent_descendants in Hroot.
        apply in_tag_ids. exists x. split.
        + now rewrite <- descendants_all_nodes.
        + apply has_id_spec. subst x.
          destruct (replace_root_id spoiler
                      [Tag (fresh (page :: det)) "strong"
                         (Some ["spoiler-header"]) []
                         [Text (spoiler_header_of title)];
                       with_attr "style" "" I] page) as [E1 E2].
          split; [|exact E1]. rewrite E2.
          destruct page; [destruct HWpage | reflexivity]. }
  exists det'.
  assert (E : make_spoiler_header spoiler (page :: det)
              = (Ok (Tag (fresh (page :: det)) "strong"
                       (Some ["spoiler-header"]) []
                       [Text (spoiler_header_of title)]), page :: det)).
  { unfold make_spoiler_header, find_first, get_text_strip_at, _new_tag,
      not_none, bind, gets, ret.
    unfold first_in.
    rewrite refs_in_first_root by exact (first_in_found _ _ _ _ Hlabel).
    fold (first_in [page] spoiler smalltext). rewrite Hlabel.
    unfold text_strip_ref.
    rewrite get_first_root by exact (found_is_there _ _ _ _ Hlabel).
    reflexivity. }
  unfold clean_spoiler. rewrite (bind_ok _ _ _ _ _ E). exact Hrun.
Qed.


(** *** Several spoilers side by side *)

Lemma NoDup_map_filter_sub {A B} (f : A -> B) (q q' : A -> bool) (l : list A) :
  (forall x, q' x = true -> q x = true) ->
  NoDup (map f (filter q l)) -> NoDup (map f (filter q' l)).
Proof.
  intros Hsub. induction l as [|x l IH]; intros H; [constructor|].
  simpl in *. destruct (q' x) eqn:E'.
  - rewrite (Hsub x E') in H. simpl in *.
    apply NoDup_cons_iff in H as [Hx H]. apply NoDup_cons; [|now apply IH].
    intros Hin. apply Hx. apply in_map_iff in Hin as (y & Hy & Hin).
    apply in_map_iff. exists y. split; [assumption|].
    apply filter_In in Hin as [Hin Hq]. apply filter_In. auto.
  - destruct (q x); [|now apply IH].
    simpl in H. apply NoDup_cons_iff in H as [_ H]. now apply IH.
Qed.

Lemma below_root (page n x : node) :
  In n (all_nodes [page]) -> In x (descendants n) -> In x (descendants page).
Proof.
  intros Hn Hx. unfold all_nodes in Hn. simpl in Hn. rewrite app_nil_r in Hn.
  destruct Hn as [<- | Hn]; [assumption|].
  now apply (descendants_trans page n x).
Qed.

Lemma in_all_nodes_root (page x : node) :
  In x (descendants page) -> In x (all_nodes [page]).
Proof. intros H. unfold all_nodes. simpl. rewrite app_nil_r. now right. Qed.

(** What [find_all] returns on a page with distinct identities: distinct
    references to elements below the root. *)
Lemma refs_in_distinct (page : node) (c : ref) (p : node -> bool) :
  distinct_ids [page] ->
  NoDup (refs_in [page] c p)
  /\ forall r, In r (refs_in [page] c p) -> In r (tag_ids (descendants page)).
Proof.
  intros Hd. split.
  - unfold refs_in. destruct (get [page] c) as [n|] eqn:E; [|constructor].
    apply get_Some in E as [Hn Hid].
    assert (Hnd : NoDup (tag_ids (descendants n))).
    { assert (Hall : NoDup (tag_ids (all_nodes [n]))).
      { unfold all_nodes in Hn. simpl in Hn. rewrite app_nil_r in Hn.
        destruct Hn as [<- | Hn]; [exact Hd|].
        destruct (place_of page n Hn) as (ctx & _ & Hp).
        unfold distinct_ids in Hd. rewrite <- Hp in Hd.
        exact (proj1 (distinct_inside ctx [n] Hd)). }
      apply has_id_spec in Hid as [Htag _].
      rewrite all_nodes_cons, tag_ids_cons, Htag, app_nil_r in Hall.
      now apply NoDup_cons_iff in Hall. }
    unfold find_all_in.
    apply (NoDup_map_filter_sub node_id is_tag); [|exact Hnd].
    intros x Hx. unfold both in Hx. now apply andb_true_iff in Hx.
  - intros r Hr. apply refs_in_present in Hr as (n & x & Hn & Hx & Htag & _ & <-).
    apply get_Some in Hn as [Hn _].
    apply in_tag_ids. exists x. split; [|now apply has_id_spec].
    now apply (below_root page n x).
Qed.

(** The elements found below an element that stays in the page are
    looked up as before. *)
Lemma lookups_agree (page page1 W : node) (r : ref) :
  distinct_ids [page] -> distinct_ids [page1] ->
  In W (all_nodes [page]) -> In W (all_nodes [page1]) ->
  In r (tag_ids (all_nodes [W])) ->
  get [page1] r = get [page] r.
Proof.
  intros Hd Hd1 HW HW1 Hr. apply in_tag_ids in Hr as (x & Hx & Hid).
  apply has_id_spec in Hid as [Htag <-].
  assert (Hsub : In x (subtree W)).
  { unfold all_nodes in Hx. simpl in Hx. now rewrite app_nil_r in Hx. }
  rewrite (get_unique [page1] x Hd1), (get_unique [page] x Hd);
    try assumption; try reflexivity.
  - now apply (all_nodes_closed [page] W).
  - now apply (all_nodes_closed [page1] W).
Qed.

Lemma found_below (page W : node) (r x : ref) (p : node -> bool) :
  distinct_ids [page] -> In W (all_nodes [page]) ->
  In r (tag_ids (all_nodes [W])) ->
  first_in [page] r p = Some x ->
  In x (tag_ids (all_nodes [W])).
Proof.
  intros Hd HW Hr H. apply in_tag_ids in Hr as (y & Hy & Hid).
  assert (Hysub : In y (subtree W)).
  { unfold all_nodes in Hy. simpl in Hy. now rewrite app_nil_r in Hy. }
  pose proof Hid as Hid'. apply has_id_spec in Hid' as [Htag <-].
  assert (Hget : get [page] (node_id y) = Some y).
  { apply get_unique; try assumption.
    now apply (all_nodes_closed [page] W). }
  apply first_in_In in H.
  apply (refs_in_tag_ids [page] (node_id y) y p x Hget) in H.
  apply in_tag_ids in H as (z & Hz & Hzid).
  apply in_tag_ids. exists z. split; [|assumption].
  unfold all_nodes. simpl. rewrite app_nil_r.
  apply (subtree_trans W y z); [assumption | now right].
Qed.

Lemma spoiler_at_agrees (page page1 W : node) (sp : spoiler_parts) :
  distinct_ids [page] -> distinct_ids [page1] ->
  In W (all_nodes [page]) -> In W (all_nodes [page1]) ->
  has_id (sp_id sp) W = true ->
  spoiler_at page sp -> spoiler_at page1 sp.
Proof.
  intros Hd Hd1 HW HW1 Hid (label & block & inner & Hl & Ht & Hb & Hi & HI).
  assert (Hs : In (sp_id sp) (tag_ids (all_nodes [W]))).
  { apply in_tag_ids. exists W. split; [now left | assumption]. }
  pose proof (found_below page W _ _ _ Hd HW Hs Hl) as Hlabel.
  pose proof (found_below page W _ _ _ Hd HW Hs Hb) as Hblock.
  pose proof (found_below page W _ _ _ Hd HW Hblock Hi) as Hinner.
  assert (E : forall r, In r (tag_ids (all_nodes [W])) ->
                get [page1] r = get [page] r)
    by (intros r Hr; now apply (lookups_agree page page1 W)).
  exists label, block, inner.
  unfold first_in, refs_in, text_strip_ref in *.
  now rewrite !E by assumption.
Qed.

Lemma spoilers_loop (specs : list spoiler_parts) :
  forall (page : node) (det : list node),
    distinct_ids [page] ->
    NoDup (map sp_id specs) ->
    (forall sp, In sp specs ->
       In (sp_id sp) (tag_ids (descendants page)) /\ spoiler_at page sp) ->
    side_by_side page (map sp_id specs) ->
    exists page' det',
      unwrapped page specs page'
      /\ for_each (map sp_id specs) clean_spoiler (page :: det)
         = (Ok tt, page' :: det').
Proof.
  induction specs as [|sp rest IH]; intros page det Hd Hnd Hspecs Hside.
  { exists page, det. split; [constructor | reflexivity]. }
  destruct (Hspecs sp (or_introl eq_refl))
    as [Hin (label & block & inner & Hl & Ht & Hb & Hi & HI)].
  apply in_tag_ids in Hin as (W & HW & HWid).
  pose proof (spoiler_step page det (sp_id sp) label block inner W
                (sp_inner sp) Hd HW HWid Hl Hb Hi HI) as Hstep.
  cbv zeta in Hstep. rewrite <- Ht in Hstep.
  destruct Hstep as ((det1 & Hstep) & Hfresh & Hd1 & Hstay).
  set (page1 := replace (sp_id sp)
                  [Tag (fresh (page :: det)) "strong" (Some ["spoiler-header"])
                     [] [Text (spoiler_header_of (sp_title sp))];
                   with_attr "style" "" (sp_inner sp)] page) in *.
  simpl in Hnd. apply NoDup_cons_iff in Hnd as [Hfirst Hnd].
  assert (HWget : get [page] (sp_id sp) = Some W).
  { apply has_id_spec in HWid as [Htag <-].
    apply get_unique; try assumption. now apply in_all_nodes_root. }
  (* the other spoilers stay where they are *)
  assert (Hrest : forall sp', In sp' rest ->
            exists W', In W' (descendants page) /\ In W' (descendants page1)
                       /\ has_id (sp_id sp') W' = true).
  { intros sp' Hsp'.
    destruct (Hspecs sp' (or_intror Hsp')) as [Hin' _].
    apply in_tag_ids in Hin' as (W' & HW' & HWid').
    exists W'. split; [assumption|]. split; [|assumption].
    assert (Hne : sp_id sp' <> sp_id sp).
    { intros E. apply Hfirst. rewrite <- E. now apply in_map. }
    assert (HWget' : get [page] (sp_id sp') = Some W').
    { pose proof HWid' as Hx. apply has_id_spec in Hx as [Htag <-].
      apply get_unique; try assumption. now apply in_all_nodes_root. }
    apply Hstay; [assumption| |].
    - intros Hbelow. unfold all_nodes in Hbelow. simpl in Hbelow.
      rewrite app_nil_r in Hbelow. destruct Hbelow as [<- | Hbelow].
      + rewrite (has_id_true _ _ HWid) in HWid'.
        apply Nat.eqb_eq in HWid'. congruence.
      + apply (Hside (sp_id sp) (sp_id sp') W); [now left| |assumption|].
        * right. now apply in_map.
        * apply in_tag_ids. now exists W'.
    - intros Habove.
      apply (Hside (sp_id sp') (sp_id sp) W'); [| now left |assumption|].
      + right. now apply in_map.
      + apply in_tag_ids. now exists W. }
  destruct (IH page1 det1) as (page' & det' & Hun & Hloop);
    try assumption.
  - intros sp' Hsp'. destruct (Hrest sp' Hsp') as (W' & HW' & HW1' & HWid').
    split; [apply in_tag_ids; now exists W'|].
    apply (spoiler_at_agrees page page1 W'); try assumption.
    + now apply in_all_nodes_root.
    + now apply in_all_nodes_root.
    + now apply (Hspecs sp' (or_intror Hsp')).
  - intros a b Wa Ha Hb' Hget.
    apply in_map_iff in Ha as (spa & <- & Hspa).
    destruct (Hrest spa Hspa) as (W' & HW' & HW1' & HWid').
    apply (Hside (sp_id spa) b Wa); [right; now apply in_map | now right |].
    rewrite <- Hget. symmetry.
    apply (lookups_agree page page1 W'); try assumption.
    + now apply in_all_nodes_root.
    + now apply in_all_nodes_root.
    + apply in_tag_ids. exists W'. split; [now left | assumption].
  - exists page', det'. split.
    + now apply (unwrapped_cons page sp rest (fresh (page :: det)) page').
    + cbn [map for_each]. rewrite (bind_ok _ _ _ _ _ Hstep). exact Hloop.
Qed.

(** X24.  What the spoiler normalizer makes of a page whose content
    holds any number of spoilers, none below another, each with its
    label, its spoiler-content block and the spoiler-inner block in it:
    the normalizer returns, and in the page each spoiler element has
    been replaced, in document order, by a new [strong] header holding
    [[SPOILER - <label>]] followed by its spoiler-inner block with the
    style cleared; nothing else in the page has changed. *)
Theorem spoilers_become_headers (page : node) (content : ref)
  (chapterid : nat) (specs : list spoiler_parts) :
  distinct_ids [page] ->
  refs_in [page] content (has_class "spoiler") = map sp_id specs ->
  (forall sp, In sp specs -> spoiler_at page sp) ->
  side_by_side page (map sp_id specs) ->
  exists page' detached,
    unwrapped page specs page'
    /\ _clean_spoilers content chapterid [page] = (Ok tt, page' :: detached).
Proof.
  intros Hd Hrefs Hspecs Hside.
  destruct (refs_in_distinct page content (has_class "spoiler") Hd)
    as [Hnd Hbelow].
  rewrite Hrefs in Hnd, Hbelow.
  destruct (spoilers_loop specs page [] Hd Hnd) as (page' & det' & Hun & Hloop);
    [|assumption|].
  - intros sp Hsp. split; [|now apply Hspecs].
    apply Hbelow. now apply in_map.
  - exists page', det'. split; [assumption|].
    unfold _clean_spoilers.
    rewrite (bind_ok (find_all content (has_class "spoiler")) _ [page] _
               [page] eq_refl).
    rewrite Hrefs. exact Hloop.
Qed.

Lemma spoilers_become_headers_witness :
  exists page' detached,
    unwrapped Demo.two_spoilers_page
      [{| sp_id := 10; sp_title := "Hint";
          sp_inner := Tag 13 "div" (Some ["spoiler-inner"])
                        [("style", "display: none;")]
                        [Text "the answer is 42"] |};
       {| sp_id := 20; sp_title := " ";
          sp_inner := Tag 23 "div" (Some ["spoiler-inner"])
                        [("style", "display: none;")] [Text "and 43"] |}]
      page'
    /\ _clean_spoilers 5 1 [Demo.two_spoilers_page]
       = (Ok tt, page' :: detached).
Proof.
  apply (spoilers_become_headers Demo.two_spoilers_page 5 1).
  - unfold distinct_ids. vm_compute.
    repeat (constructor; [simpl; intuition discriminate|]). constructor.
  - reflexivity.
  - intros sp [<- | [<- | []]].
    + exists 11, 12, 13. repeat split; reflexivity.
    + exists 21, 22, 23. repeat split; reflexivity.
  - intros a b W [<- | [<- | []]] Hb [= <-];
      destruct Hb as [<- | [<- | []]]; simpl; intuition discriminate.
Defined.

(** The page of the example after the run. *)
Example two_spoilers_normalized :
  exists detached,
    _clean_spoilers 5 1 [Demo.two_spoilers_page]
    = (Ok tt,
       Demo.document
         [Tag 1 "html" None []
            [Tag 2 "head" None [] [];
             Tag 4 "body" None []
               [Tag 5 "div" (Some ["chapter-content"]) []
                  [spoiler_header 32 "Hint";
                   Tag 13 "div" (Some ["spoiler-inner"]) [("style", "")]
                     [Text "the answer is 42"];
                   Tag 7 "p" None [] [Text "hello"];
                   spoiler_header 33 " ";
                   Tag 23 "div" (Some ["spoiler-inner"]) [("style", "")]
                     [Text "and 43"]];
                Demo.profile_info 30 "12"]]]
       :: detached).
Proof. eexists. vm_compute. reflexivity. Qed.
(** ** The hidden-warning remover on a style block with no string *)

Lemma for_each_app {S A} (l1 l2 : list A) (body : A -> M S unit) (s : S) :
  for_each (l1 ++ l2) body s
  = bind (for_each l1 body) (fun _ => for_each l2 body) s.
Proof.
  revert s; induction l1 as [|a l1 IH]; intros s; [reflexivity|].
  simpl. unfold bind.
  destruct (body a s) as [[[]|e] s1]; [|reflexivity].
  rewrite IH. reflexivity.
Qed.

Section CleanErrors.
Variable super_clean : ref -> M dom ref.

(** X18.  A style block that does not hold exactly one string (an empty
    block, or one whose text is in several pieces) makes the
    hidden-warning remover raise [TypeError], wherever the block is
    among the style blocks of the page and whatever the blocks before
    it hide: [re.match] is called on its [string], which is [None]. *)
Theorem clean_raises_on_style_without_string
  (contents full_page s0 : ref) (before after : list ref)
  (d_in d0 : dom) (n0 m0 : node) :
  super_clean contents d_in = (Ok contents, d0) ->
  distinct_ids d0 ->
  get d0 contents = Some n0 ->
  refs_in d0 full_page (named "style") = before ++ s0 :: after ->
  (forall s, In s before ->
     ~ In s (tag_ids (descendants n0))
     /\ exists m text, get d0 s = Some m /\ children m = [Text text]) ->
  get d0 s0 = Some m0 ->
  string_of m0 = None ->
  ~ In s0 (tag_ids (descendants n0)) ->
  (forall r, In r (tag_ids (descendants m0)) ->
             ~ In r (tag_ids (descendants n0))) ->
  exists d',
    _clean super_clean contents full_page d_in = (Raise TypeError, d').
Proof.
  intros Hsuper Hd Hn Hstyles Hbefore Hm0 Hstr Hout Hapart.
  destruct (styles_loop d0 contents n0 before Hd Hn Hbefore before
              (fun x H => H) [] (fun r H => match H with end))
    as (P & HP & Hrun & _).
  simpl in Hrun.
  assert (Hnone : string_ref (without_all P d0) s0 = None).
  { unfold string_ref. rewrite get_without_all, Hm0.
    - simpl. rewrite pruned_absent; [assumption|].
      intros r Hr Hin. apply (Hapart r Hin). now apply HP.
    - intros r Hr.
      apply (outside_of_descendant d0 contents r s0 n0); auto. }
  exists (without_all P d0).
  unfold _clean. rewrite (bind_ok _ _ _ _ _ Hsuper).
  rewrite (bind_ok (find_all full_page (named "style")) _ d0 _ d0 eq_refl).
  rewrite Hstyles. unfold bind at 1. rewrite for_each_app.
  rewrite (bind_ok _ _ _ _ _ Hrun). cbn [for_each].
  unfold bind at 1.
  now rewrite (clean_style_no_string contents s0 _ Hnone).
Qed.
End CleanErrors.

Lemma clean_raises_on_style_without_string_witness :
  exists d', Demo._clean 5 0 [Demo.two_styles_page] = (Raise TypeError, d').
Proof.
  apply (clean_raises_on_style_without_string Demo.super_clean 5 0 30 [3] []
           [Demo.two_styles_page] [Demo.two_styles_page]
           (Tag 5 "div" (Some ["chapter-content"]) []
              [Tag 6 "p" (Some ["x"]) [] [Text "stolen"];
               Tag 7 "p" None [] [Text "hello"]])
           (Tag 30 "style" None [] [])).
  - reflexivity.
  - unfold distinct_ids. vm_compute.
    repeat (constructor; [simpl; intuition discriminate|]). constructor.
  - reflexivity.
  - reflexivity.
  - intros s [<- | []]. split.
    + simpl. intuition discriminate.
    + eexists. eexists. split; reflexivity.
  - reflexivity.
  - reflexivity.
  - simpl. intuition discriminate.
  - intros r [].
Defined.
(** ** What a story and a chapter are made from *)

Section Metadata.
Variable datetime : Type.
Variable fetch : Z -> string -> outcome node.
Variable _join_url : string -> string -> string.
Variable super_clean : ref -> M dom ref.
Variable str : node -> string.
Variable fromtimestamp_int : string -> outcome datetime.

Local Abbreviation Chapter := (Chapter datetime).
Local Abbreviation Story := (Story datetime).
Local Abbreviation _chapter :=
  (_chapter datetime fetch super_clean str fromtimestamp_int).
Local Abbreviation new_story := (new_story datetime _join_url str).
Local Abbreviation extract :=
  (extract datetime fetch _join_url super_clean str fromtimestamp_int).
Local Abbreviation publication_time :=
  (publication_time datetime fromtimestamp_int).

Local Abbreviation has_metadata := (has_metadata datetime _join_url).

Lemma new_story_metadata (base : string) (soup : node) (w w' : world)
  (story : Story) :
  new_story base soup w = (Ok story, w') -> has_metadata base soup story.
Proof.
  unfold new_story, not_none, item, bind, ret, raise, has_metadata.
  destruct (find_in (named "h1") soup) as [h1|]; [|discriminate].
  destruct (string_of h1) as [t|] eqn:Ht; [|discriminate].
  destruct (find_in (both (named "meta")
                          (has_attr_value "property" "books:author")) soup)
    as [ma|]; [|discriminate].
  destruct (attr "content" ma) as [a|] eqn:Ha; [|discriminate].
  destruct (find_in (both (named "meta")
                          (has_attr_value "property" "og:url")) soup)
    as [mu|]; [|discriminate].
  destruct (attr "content" mu) as [u|] eqn:Hu; [|discriminate].
  destruct (find_in (both (named "img") (has_class "thumbnail")) soup)
    as [img|]; [|discriminate].
  destruct (attr "src" img) as [src|] eqn:Hsrc; [|discriminate].
  intros [= <- _]. exists h1, t, ma, a, mu, u, img, src.
  repeat split; assumption.
Qed.

Lemma with_chapters_metadata (base : string) (soup : node) (story : Story)
  (cs : list Chapter) (f : list string) :
  has_metadata base soup story ->
  has_metadata base soup (with_footnotes _ (with_chapters _ story cs) f).
Proof.
  revert story; induction cs as [|c cs IH]; intros story H.
  - exact H.
  - apply (IH (add _ story c)). exact H.
Qed.

(** X19.  A story is returned only from a landing page that has a
    heading holding one string, the author and og:url [meta] elements
    with their [content], and a thumbnail image with its [src]; the
    title, author and URL of the story are those strings stripped, its
    tags the stripped texts of the tag links in page order, and its
    cover the [src] joined to the [href] of the [base] element of the
    [head], or to the URL given to [extract] when there is no [base] or
    its [href] is missing or empty.  Adding the chapters changes none
    of them. *)
Theorem extract_metadata (self : site) (page_url : string)
  (w w' : world) (story : Story) :
  extract self page_url w = (Ok story, w') ->
  exists m workid soup head,
    re_match (workid_pattern (domain (cls self))) page_url = Some m
    /\ group1 m = Some workid
    /\ fetch (MAXHEADERS w)
         ("https://www." ++ domain (cls self) ++ ".com/fiction/" ++ workid)
       = Ok soup
    /\ find_in (named "head") soup = Some head
    /\ has_metadata
         (match find_in (named "base") head with
          | Some b => match attr "href" b with
                      | Some ""%string | None => page_url
                      | Some href => href
                      end
          | None => page_url
          end) soup story.
Proof.
  intros H. apply extract_inv in H
    as (m & workid & soup & head & s0 & s1 & Hm & Hg & Hf & Hh & H0 & H1
        & -> & _).
  exists m, workid, soup, head. repeat (split; [assumption|]).
  apply new_story_metadata in H0.
  apply chapter_loop_spec in H1 as (cs & -> & _).
  apply with_chapters_metadata.
  unfold base_of in H0.
  destruct (find_in (named "base") head) as [b|]; [|assumption].
  destruct (attr "href" b) as [[|c href]|]; assumption.
Qed.

(** X20.  A chapter is returned only from a page that, once cleaned,
    has an element of class [profile-info] whose first [time] element
    carries [unixtime]; the date of the chapter is that attribute of
    the first such element, converted. *)
Theorem chapter_date (self : site) (page_url : string) (chapterid : nat)
  (w w' : world) (content_str : string) (updated : datetime) :
  _chapter self page_url chapterid w = (Ok (content_str, updated), w') ->
  exists soup content kept d1 d2 info time time_el unixtime,
    fetch (MAXHEADERS w) page_url = Ok soup
    /\ first_in [soup] (node_id soup) chapter_content = Some content
    /\ _clean super_clean content (node_id soup) [soup] = (Ok kept, d1)
    /\ _clean_spoilers content chapterid d1 = (Ok tt, d2)
    /\ first_in d2 (node_id soup) (has_class "profile-info") = Some info
    /\ first_in d2 info (named "time") = Some time
    /\ get d2 time = Some time_el
    /\ attr "unixtime" time_el = Some unixtime
    /\ fromtimestamp_int unixtime = Ok updated.
Proof.
  intros H. apply _chapter_inv in H
    as (soup & content & kept & d1 & d2 & s & H1 & H2 & H3 & H4 & _ & _ & H7).
  exists soup, content, kept, d1, d2.
  unfold publication_time, find_first, attr_at, not_none, bind, gets, ret,
    raise, lift in H7.
  destruct (first_in d2 (node_id soup) (has_class "profile-info"))
    as [info|] eqn:Hinfo; [|discriminate].
  destruct (first_in d2 info (named "time")) as [time|] eqn:Htime;
    [|discriminate].
  destruct (get d2 time) as [time_el|] eqn:Hel; [|discriminate].
  destruct (attr "unixtime" time_el) as [unixtime|] eqn:Hu; [|discriminate].
  exists info, time, time_el, unixtime.
  repeat (split; [assumption|]).
  now injection H7.
Qed.
End Metadata.

Lemma extract_metadata_witness :
  exists m workid soup head,
    re_match (workid_pattern "royalroad") "https://royalroad.com/fiction/4"
    = Some m
    /\ group1 m = Some workid
    /\ Demo.fetch_more 100
         ("https://www." ++ "royalroad" ++ ".com/fiction/" ++ workid)
       = Ok soup
    /\ find_in (named "head") soup = Some head
    /\ has_metadata Z Demo.join_url
         (match find_in (named "base") head with
          | Some b => match attr "href" b with
                      | Some ""%string | None =>
                          "https://royalroad.com/fiction/4"%string
                      | Some href => href
                      end
          | None => "https://royalroad.com/fiction/4"%string
          end) soup
         {| title := "Short"; author := "An Author";
            url := "https://www.royalroad.com/fiction/4/short";
            cover_url := "/cover.jpg"; summary := "None"; tags := [];
            contents :=
              [{| ch_title := "Chapter Zero";
                  ch_contents :=
                    Demo.render (Tag 5 "div" (Some ["chapter-content"])
                                   [] [Text "zero"]);
                  ch_date := 12%Z |}];
            story_footnotes := [] |}.
Proof.
  apply (extract_metadata Z Demo.fetch_more Demo.join_url Demo.super_clean
           Demo.render Demo.fromtimestamp_int
           (Demo.site_with true None None)
           "https://royalroad.com/fiction/4" Demo.world0 Demo.world0).
  vm_compute. reflexivity.
Defined.

Lemma chapter_date_witness :
  exists soup content kept d1 d2 info time time_el unixtime,
    Demo.fetch 100 "/c/0" = Ok soup
    /\ first_in [soup] (node_id soup) chapter_content = Some content
    /\ Demo._clean content (node_id soup) [soup] = (Ok kept, d1)
    /\ _clean_spoilers content 1 d1 = (Ok tt, d2)
    /\ first_in d2 (node_id soup) (has_class "profile-info") = Some info
    /\ first_in d2 info (named "time") = Some time
    /\ get d2 time = Some time_el
    /\ attr "unixtime" time_el = Some unixtime
    /\ Demo.fromtimestamp_int unixtime = Ok 12%Z.
Proof.
  apply (chapter_date Z Demo.fetch Demo.super_clean Demo.render
           Demo.fromtimestamp_int (Demo.site_with true None None)
           "/c/0" 1 Demo.world0 Demo.world0
           (Demo.render (Tag 5 "div" (Some ["chapter-content"]) []
                           [Text "zero"]))).
  reflexivity.
Defined.
(** ** When the story page parser returns *)

Section ExtractReturns.
Variable datetime : Type.
Variable fetch : Z -> string -> outcome node.
Variable _join_url : string -> string -> string.
Variable super_clean : ref -> M dom ref.
Variable str : node -> string.
Variable fromtimestamp_int : string -> outcome datetime.

Local Abbreviation Chapter := (Chapter datetime).
Local Abbreviation Story := (Story datetime).
Local Abbreviation chapter_loop :=
  (chapter_loop datetime fetch _join_url super_clean str fromtimestamp_int).
Local Abbreviation new_story := (new_story datetime _join_url str).
Local Abbreviation extract :=
  (extract datetime fetch _join_url super_clean str fromtimestamp_int).
Local Abbreviation chapters_of_rows :=
  (chapters_of_rows datetime fetch _join_url super_clean str
     fromtimestamp_int).

End ExtractReturns.

